(** * Echo service: TCP and TLS servers and clients

    A shallow embedding of [core/netlab/tcp_server.py], [tls_server.py],
    [tcp_client.py] and [tls_client.py].

    The programs talk to the operating system (sockets, the terminal).  Each
    Python function is embedded as a function from a _script_ (the answers the
    environment gives to the blocking calls, in the order the code makes
    them) to a _run_: the list of calls and prints the code performs, and how
    the function ends.  A script that runs out while the code is waiting in
    [recv], [accept] or [input] leaves the run [Blocked]: none of these calls
    has a timeout in the source. *)

From Stdlib Require Import String Ascii Strings.Byte NArith ZArith DecimalString Bool Lia List.
Import ListNotations.

Local Open Scope list_scope.

(** ** Exceptions *)

(** The exception classes the four programs can meet, with Python's
    hierarchy ([bases] lists the direct base classes). *)
Inductive exn_class : Type :=
| BaseException
| Exception
| KeyboardInterrupt
| OSError
| ConnectionError
| ConnectionResetError
| ConnectionRefusedError
| ConnectionAbortedError
| BrokenPipeError
| TimeoutError
| SSLError
| SSLCertVerificationError
| SSLEOFError
| SSLZeroReturnError
| ValueError
| UnicodeError
| UnicodeDecodeError
| UnicodeEncodeError
| EOFError
| RuntimeError.

Scheme Equality for exn_class.

Definition bases (c : exn_class) : list exn_class :=
  match c with
  | BaseException => []
  | Exception => [BaseException]
  | KeyboardInterrupt => [BaseException]
  | OSError => [Exception]
  | ConnectionError => [OSError]
  | ConnectionResetError => [ConnectionError]
  | ConnectionRefusedError => [ConnectionError]
  | ConnectionAbortedError => [ConnectionError]
  | BrokenPipeError => [ConnectionError]
  | TimeoutError => [OSError]
  | SSLError => [OSError]
  | SSLCertVerificationError => [SSLError; ValueError]
  | SSLEOFError => [SSLError]
  | SSLZeroReturnError => [SSLError]
  | ValueError => [Exception]
  | UnicodeError => [ValueError]
  | UnicodeDecodeError => [UnicodeError]
  | UnicodeEncodeError => [UnicodeError]
  | EOFError => [Exception]
  | RuntimeError => [Exception]
  end.

(** [issubclass_upto n c k]: [k] is reached from [c] in at most [n] steps
    along [bases]. *)
Fixpoint issubclass_upto (n : nat) (c k : exn_class) : bool :=
  exn_class_beq c k ||
  match n with
  | O => false
  | S n' => existsb (fun b => issubclass_upto n' b k) (bases c)
  end.

(** The hierarchy above is five levels deep. *)
Definition issubclass (c k : exn_class) : bool := issubclass_upto 5 c k.

(** A raised exception: its class and its message ([str(e)]). *)
Record exc : Type := mkExc { exc_class : exn_class; exc_msg : string }.

(** [except k:] catches [e] when [isinstance e k]. *)
Definition isinstance (e : exc) (k : exn_class) : bool :=
  issubclass (exc_class e) k.

(** The answer of the environment to a call: a value or an exception. *)
Inductive result (A : Type) : Type :=
| Returns (a : A)
| Raises (e : exc).
Arguments Returns {A} a.
Arguments Raises {A} e.

(** ** Data *)

Definition bytes : Type := list byte.

(** A Python [str]: its code points. *)
Definition text : Type := list N.

(** [(host, port)] pairs: [address[0]] and [address[1]]. *)
Record address : Type := mkAddress { addr_host : string; addr_port : N }.

(** Sockets are named by their descriptor. *)
Definition fd : Type := nat.

(** ** Output lines

    One constructor per [print] of the sources, carrying the values the
    f-string interpolates.  [print] itself is taken not to fail. *)
Inductive line : Type :=
(* tcp_server.py, handle_client *)
| LConnectionFrom (a : address)            (* "[+] Connection from {a0}:{a1}" *)
| LDisconnected (a : address)              (* "[-] {a0}:{a1} disconnected" *)
| LReceivedFrom (n : nat) (a : address)    (* "[<] Received {len(data)} bytes from {a0}:{a1}" *)
| LHex (data : bytes)                      (* "    Hex: {data.hex()}" *)
| LStr (data : bytes)                      (* "    Str: {data.decode('utf-8', errors='replace')}" *)
| LEchoed (n : nat)                        (* "[>] Echoed {len(data)} bytes back" *)
| LResetBy (a : address)                   (* "[!] Connection reset by {a0}:{a1}" *)
(* tcp_server.py and tls_server.py, main *)
| LListening (tls : bool) (a : address)    (* "[*] TCP/TLS Echo Server listening on {host}:{port}" and the hints after it *)
| LLoadedCertificate                       (* "[*] Loaded certificate: ..." and "[*] Loaded private key: ..." *)
| LShuttingDown                            (* "\n[*] Shutting down" *)
| LHandshakeFailed (a : address) (e : exc) (* "[!] TLS handshake failed from {address}: {e}" *)
(* tls_server.py, handle_client *)
| LTlsConnectionFrom (a : address)         (* "[+] TLS connection from {a0}:{a1}", protocol and cipher *)
| LReceivedDecrypted (data : bytes)        (* "[<] Received (decrypted): {data.decode('utf-8', errors='replace')}" *)
| LEchoedEncrypted                         (* "[>] Echoed (encrypted on the wire)" *)
| LSslError (e : exc)                      (* "[!] SSL error: {e}" *)
(* tcp_client.py and tls_client.py, main *)
| LLoadedCa                                (* "[*] Loaded CA certificate: {ca_cert}" *)
| LConnecting (tls : bool) (a : address)   (* "[*] Connecting to {host}:{port}..." *)
| LRefused (tls : bool) (a : address)      (* "[!] Connection refused — is the (TLS) server running on {host}:{port}?" *)
| LVerificationFailed (e : exc)            (* "[!] Certificate verification FAILED: {e}" and two lines of explanation *)
| LConnected (tls : bool)                  (* "[+] Connected! ..." / "[+] TLS connection established!" and the details *)
| LTypeMessages                            (* "Type messages to send (Ctrl+C to quit):" *)
| LSent (tls : bool) (n : nat)             (* "[>] Sent {len(message)} bytes" *)
| LServerClosed                            (* "[!] Server closed the connection" *)
| LReceived (tls : bool) (t : text)        (* "[<] Received: {data.decode('utf-8')}" *)
| LClosing (tls : bool).                   (* "\n[*] Closing connection" *)

(** ** Events and runs *)

(** What a thread does, in order.  Calls carry their arguments and the answer
    they got. *)
Inductive event : Type :=
| Print (l : line)
| Input (r : result text)                          (* input("> ") *)
| Socket (s : fd)                                  (* socket.socket(AF_INET, SOCK_STREAM) *)
| Setsockopt_REUSEADDR (s : fd) (v : N)            (* s.setsockopt(SOL_SOCKET, SO_REUSEADDR, v) *)
| LoadCertChain (r : result unit)                  (* context.load_cert_chain(...) *)
| LoadVerifyLocations (r : result unit)            (* context.load_verify_locations(ca_cert) *)
| Bind (s : fd) (a : address) (r : result unit)    (* s.bind((host, port)) *)
| Listen (s : fd) (backlog : N)                    (* s.listen(backlog) *)
| Accept (s : fd) (r : result (fd * address))      (* s.accept() *)
| WrapServer (c : fd) (r : result unit)            (* context.wrap_socket(c, server_side=True) *)
| WrapClient (c : fd) (server_hostname : string)   (* context.wrap_socket(c, server_hostname=host) *)
| ThreadStart (c : fd) (a : address) (r : result unit) (* Thread(target=handle_client, args=(c, a), daemon=True).start() *)
| Connect (c : fd) (a : address) (r : result unit) (* c.connect((host, port)) *)
| Recv (c : fd) (bufsize : N) (r : result bytes)   (* c.recv(bufsize) *)
| Sendall (c : fd) (data : bytes) (r : result unit) (* c.sendall(data) *)
| Close (s : fd).                                  (* s.close() *)

(** How a function ends.  [Exit] is [sys.exit(code)]. *)
Inductive status : Type :=
| Done
| Raised (e : exc)
| Exit (code : Z)
| Blocked.

Record run : Type := mkRun { trace : list event; status_of : status }.

(** [evs] happen, then [r]. *)
Definition after (evs : list event) (r : run) : run :=
  mkRun (evs ++ trace r) (status_of r).

(** [evs] happen and the function goes on to its end. *)
Definition done (evs : list event) : run := mkRun evs Done.

(** [evs] happen, the last of them raising [e]. *)
Definition raising (evs : list event) (e : exc) : run := mkRun evs (Raised e).

(** A handler is what its [except] block does with the exception caught. *)
Definition handler : Type := exc -> run.

(** First [except] clause of [hs] that matches [e], as Python selects it. *)
Fixpoint select_handler (hs : list (exn_class * handler)) (e : exc)
  : option handler :=
  match hs with
  | [] => None
  | (k, h) :: hs' => if isinstance e k then Some h else select_handler hs' e
  end.

(** [try: body / except k1: h1 / except k2: h2 ...]. *)
Definition try_except (body : run) (hs : list (exn_class * handler)) : run :=
  match status_of body with
  | Raised e =>
      match select_handler hs e with
      | Some h => after (trace body) (h e)
      | None => body
      end
  | _ => body
  end.

(** [try: body / finally: cleanup].  The cleanup runs on every way out of
    [body]; a body that never comes back never reaches it. *)
Definition try_finally (body : run) (cleanup : list event) : run :=
  match status_of body with
  | Blocked => body
  | _ => mkRun (trace body ++ cleanup) (status_of body)
  end.

(** ** The environment of a server *)

(** One iteration of a server's echo loop: what [recv] answers and, when the
    loop gets as far as [sendall], what [sendall] answers. *)
Record round : Type := mkRound { on_recv : result bytes; on_send : result unit }.

(** One iteration of a server's accept loop: what [accept] answers, what
    [wrap_socket] answers (TLS server only), what starting the thread
    answers, and what the peer does on the connection afterwards. *)
Record connection : Type := mkConnection {
  on_accept : result (fd * address);
  on_wrap : result unit;
  on_start : result unit;
  session : list round
}.

(** A server process: its main thread and the handler threads it started,
    oldest first.  The threads share nothing but the terminal. *)
Record server_run : Type := mkServerRun {
  main_thread : run;
  handler_threads : list run
}.

(** The main thread goes on as [f] says; the handler threads are kept. *)
Definition on_main (f : run -> run) (s : server_run) : server_run :=
  mkServerRun (f (main_thread s)) (handler_threads s).

(** The main thread stops here, having started no thread. *)
Definition main_only (r : run) : server_run := mkServerRun r [].

(** *** The kernel's view of a port

    What [bind] finds at the port, as the comment of [tcp_server.py]
    (lines 99-105) describes it: free, held by the closed connections of an
    earlier server for the length of TIME_WAIT, or held by a live socket. *)
Inductive port_state : Type :=
| PortFree
| PortTimeWait
| PortInUse.

(** The options of a socket that [bind] looks at. *)
Record socket_options : Type := mkOptions { so_reuseaddr : bool }.

(** [socket.socket(...)]: options are off. *)
Definition new_socket : socket_options := mkOptions false.

(** [s.setsockopt(SOL_SOCKET, SO_REUSEADDR, v)]: on for a non-zero [v]. *)
Definition setsockopt_reuseaddr (s : socket_options) (v : N) : socket_options :=
  mkOptions (negb (N.eqb v 0)).

Definition address_in_use : exc :=
  mkExc OSError "[Errno 98] Address already in use".

(** [s.bind(...)] on a port in state [p]: TIME_WAIT blocks the bind unless
    the socket has SO_REUSEADDR; a live socket on the port always does. *)
Definition kernel_bind (s : socket_options) (p : port_state) : result unit :=
  match p with
  | PortFree => Returns tt
  | PortTimeWait => if so_reuseaddr s then Returns tt else Raises address_in_use
  | PortInUse => Raises address_in_use
  end.

(** *** The socket object

    Python's [socket.close()]: the descriptor is released by the call that
    finds it open; a call on a closed socket finds none, releases nothing
    and returns. *)
Record socket_object : Type := mkSocket { descriptor : option fd }.

(** The new state and the descriptors handed back to the kernel. *)
Definition socket_close (s : socket_object) : socket_object * list fd :=
  match descriptor s with
  | Some d => (mkSocket None, [d])
  | None => (mkSocket None, [])
  end.

(** The [close()] calls of a trace on descriptor [c], applied in order to the
    socket object: its final state and the descriptors released. *)
Fixpoint replay_closes (c : fd) (tr : list event) (s : socket_object)
  : socket_object * list fd :=
  match tr with
  | [] => (s, [])
  | Close c' :: tr' =>
      if Nat.eqb c' c then
        let (s1, rel1) := socket_close s in
        let (s2, rel2) := replay_closes c tr' s1 in
        (s2, rel1 ++ rel2)
      else replay_closes c tr' s
  | _ :: tr' => replay_closes c tr' s
  end.

(** ** tcp_server.py *)

Module TcpServer.

(** The [while True:] of [handle_client] (lines 56-82). *)
Fixpoint echo_loop (c : fd) (a : address) (script : list round) : run :=
  match script with
  | [] => mkRun [] Blocked
  | r :: script' =>
      match on_recv r with
      | Raises e => raising [Recv c 4096 (Raises e)] e
      | Returns [] =>
          done [Recv c 4096 (Returns []); Print (LDisconnected a)]
      | Returns data =>
          let received :=
            [Recv c 4096 (Returns data);
             Print (LReceivedFrom (length data) a);
             Print (LHex data);
             Print (LStr data)] in
          match on_send r with
          | Raises e => raising (received ++ [Sendall c data (Raises e)]) e
          | Returns _ =>
              after (received ++
                     [Sendall c data (Returns tt);
                      Print (LEchoed (length data))])
                    (echo_loop c a script')
          end
      end
  end.

(** [handle_client(client_socket, address)] (lines 42-88). *)
Definition handle_client (c : fd) (a : address) (script : list round) : run :=
  after [Print (LConnectionFrom a)]
    (try_finally
       (try_except (echo_loop c a script)
          [(ConnectionResetError, fun _ => done [Print (LResetBy a)])])
       [Close c]).

(** The [while True:] of [main] (lines 132-144). *)
Fixpoint accept_loop (server : fd) (conns : list connection) : server_run :=
  match conns with
  | [] => main_only (mkRun [] Blocked)
  | x :: conns' =>
      match on_accept x with
      | Raises e => main_only (raising [Accept server (Raises e)] e)
      | Returns (c, a) =>
          let accepted := [Accept server (Returns (c, a))] in
          match on_start x with
          | Raises e =>
              main_only (raising (accepted ++ [ThreadStart c a (Raises e)]) e)
          | Returns _ =>
              let s := accept_loop server conns' in
              mkServerRun
                (after (accepted ++ [ThreadStart c a (Returns tt)]) (main_thread s))
                (handle_client c a (session x) :: handler_threads s)
          end
      end
  end.

Definition host : string := "0.0.0.0".
Definition port : N := 9000.

(** [main()] (lines 91-148).  [argv] is the command line: the function
    does not read it.  [server] is the descriptor of the listening socket,
    [ports] the kernel's port table when the process starts. *)
Definition main (argv : list string) (server : fd) (ports : N -> port_state)
           (conns : list connection) : server_run :=
  let options := setsockopt_reuseaddr new_socket 1 in
  let created := [Socket server; Setsockopt_REUSEADDR server 1] in
  match kernel_bind options (ports port) with
  | Raises e =>
      main_only (raising (created ++ [Bind server (mkAddress host port) (Raises e)]) e)
  | Returns _ =>
      on_main
        (fun loop =>
           after (created ++
                  [Bind server (mkAddress host port) (Returns tt);
                   Listen server 5;
                   Print (LListening false (mkAddress host port))])
             (try_finally
                (try_except loop
                   [(KeyboardInterrupt, fun _ => done [Print LShuttingDown])])
                [Close server]))
        (accept_loop server conns)
  end.

End TcpServer.

(** ** tls_server.py *)

Module TlsServer.

(** The [while True:] of [handle_client] (lines 58-79). *)
Fixpoint echo_loop (c : fd) (a : address) (script : list round) : run :=
  match script with
  | [] => mkRun [] Blocked
  | r :: script' =>
      match on_recv r with
      | Raises e => raising [Recv c 4096 (Raises e)] e
      | Returns [] =>
          done [Recv c 4096 (Returns []); Print (LDisconnected a)]
      | Returns data =>
          let received :=
            [Recv c 4096 (Returns data);
             Print (LReceivedDecrypted data)] in
          match on_send r with
          | Raises e => raising (received ++ [Sendall c data (Raises e)]) e
          | Returns _ =>
              after (received ++
                     [Sendall c data (Returns tt);
                      Print LEchoedEncrypted])
                    (echo_loop c a script')
          end
      end
  end.

(** [handle_client(tls_socket, address)] (lines 49-86).  The three prints
    before the [try] read the protocol and the cipher of a session whose
    handshake is complete. *)
Definition handle_client (c : fd) (a : address) (script : list round) : run :=
  after [Print (LTlsConnectionFrom a)]
    (try_finally
       (try_except (echo_loop c a script)
          [(SSLError, fun e => done [Print (LSslError e)]);
           (ConnectionResetError, fun _ => done [Print (LResetBy a)])])
       [Close c]).

(** The [while True:] of [main] (lines 131-159).  The wrapped socket keeps
    the descriptor of the accepted one. *)
Fixpoint accept_loop (server : fd) (conns : list connection) : server_run :=
  match conns with
  | [] => main_only (mkRun [] Blocked)
  | x :: conns' =>
      match on_accept x with
      | Raises e => main_only (raising [Accept server (Raises e)] e)
      | Returns (c, a) =>
          let accepted := [Accept server (Returns (c, a))] in
          match on_wrap x with
          | Raises e =>
              if isinstance e SSLError then
                (* except ssl.SSLError as e: print, close, continue *)
                on_main
                  (after (accepted ++
                          [WrapServer c (Raises e);
                           Print (LHandshakeFailed a e);
                           Close c]))
                  (accept_loop server conns')
              else
                main_only (raising (accepted ++ [WrapServer c (Raises e)]) e)
          | Returns _ =>
              let secured := accepted ++ [WrapServer c (Returns tt)] in
              match on_start x with
              | Raises e =>
                  main_only (raising (secured ++ [ThreadStart c a (Raises e)]) e)
              | Returns _ =>
                  let s := accept_loop server conns' in
                  mkServerRun
                    (after (secured ++ [ThreadStart c a (Returns tt)]) (main_thread s))
                    (handle_client c a (session x) :: handler_threads s)
              end
          end
      end
  end.

Definition host : string := "0.0.0.0".
Definition port : N := 9443.

(** [main()] (lines 89-163).  [argv], [server] and [ports] as for the TCP
    server; [on_load_cert_chain] is the answer of
    [context.load_cert_chain]. *)
Definition main (argv : list string) (server : fd) (ports : N -> port_state)
           (on_load_cert_chain : result unit)
           (conns : list connection) : server_run :=
  let options := setsockopt_reuseaddr new_socket 1 in
  let created := [Socket server; Setsockopt_REUSEADDR server 1] in
  match on_load_cert_chain with
  | Raises e => main_only (raising (created ++ [LoadCertChain (Raises e)]) e)
  | Returns _ =>
      let loaded := created ++ [LoadCertChain (Returns tt); Print LLoadedCertificate] in
      match kernel_bind options (ports port) with
      | Raises e =>
          main_only (raising (loaded ++ [Bind server (mkAddress host port) (Raises e)]) e)
      | Returns _ =>
          on_main
            (fun loop =>
               after (loaded ++
                      [Bind server (mkAddress host port) (Returns tt);
                       Listen server 5;
                       Print (LListening true (mkAddress host port))])
                 (try_finally
                    (try_except loop
                       [(KeyboardInterrupt, fun _ => done [Print LShuttingDown])])
                    [Close server]))
            (accept_loop server conns)
      end
  end.

End TlsServer.

(** ** UTF-8

    [str.encode("utf-8")] and [bytes.decode("utf-8")] with the default
    [errors="strict"]: [None] stands for the UnicodeEncodeError or
    UnicodeDecodeError that Python raises. *)

Definition byte_of_N (n : N) : byte :=
  match Byte.of_N n with
  | Some b => b
  | None => x00
  end.

(** The low six bits of [n] under the continuation mark [10xxxxxx]. *)
Definition trail (n : N) : byte := byte_of_N (N.lor 0x80 (N.land n 0x3F)).

Definition is_surrogate (cp : N) : bool := (0xD800 <=? cp)%N && (cp <=? 0xDFFF)%N.

Definition encode_code_point (cp : N) : option bytes :=
  if (cp <? 0x80)%N then Some [byte_of_N cp]
  else if (cp <? 0x800)%N then
    Some [byte_of_N (N.lor 0xC0 (N.shiftr cp 6)); trail cp]
  else if (cp <? 0x10000)%N then
    if is_surrogate cp then None
    else Some [byte_of_N (N.lor 0xE0 (N.shiftr cp 12)); trail (N.shiftr cp 6); trail cp]
  else if (cp <? 0x110000)%N then
    Some [byte_of_N (N.lor 0xF0 (N.shiftr cp 18)); trail (N.shiftr cp 12);
          trail (N.shiftr cp 6); trail cp]
  else None.

Fixpoint encode_utf8 (t : text) : option bytes :=
  match t with
  | [] => Some []
  | cp :: t' =>
      match encode_code_point cp, encode_utf8 t' with
      | Some b, Some bs => Some (b ++ bs)
      | _, _ => None
      end
  end.

(** [lo <= b <= hi]. *)
Definition between (lo hi : N) (b : byte) : bool :=
  (lo <=? Byte.to_N b)%N && (Byte.to_N b <=? hi)%N.

(** The payload bits of a continuation byte. *)
Definition low6 (b : byte) : N := N.land (Byte.to_N b) 0x3F.

(** Second byte of a three-byte sequence: no overlong form after E0, no
    surrogate after ED. *)
Definition second_of_three (b0 b1 : byte) : bool :=
  match Byte.to_N b0 with
  | 0xE0%N => between 0xA0 0xBF b1
  | 0xED%N => between 0x80 0x9F b1
  | _ => between 0x80 0xBF b1
  end.

(** Second byte of a four-byte sequence: no overlong form after F0, nothing
    above U+10FFFF after F4. *)
Definition second_of_four (b0 b1 : byte) : bool :=
  match Byte.to_N b0 with
  | 0xF0%N => between 0x90 0xBF b1
  | 0xF4%N => between 0x80 0x8F b1
  | _ => between 0x80 0xBF b1
  end.

Fixpoint decode_utf8 (bs : bytes) : option text :=
  match bs with
  | [] => Some []
  | b0 :: t0 =>
      let n0 := Byte.to_N b0 in
      if (n0 <? 0x80)%N then option_map (cons n0) (decode_utf8 t0)
      else if between 0xC2 0xDF b0 then
        match t0 with
        | b1 :: t1 =>
            if between 0x80 0xBF b1 then
              option_map
                (cons (N.lor (N.shiftl (N.land n0 0x1F) 6) (low6 b1)))
                (decode_utf8 t1)
            else None
        | _ => None
        end
      else if between 0xE0 0xEF b0 then
        match t0 with
        | b1 :: b2 :: t2 =>
            if second_of_three b0 b1 && between 0x80 0xBF b2 then
              option_map
                (cons (N.lor (N.shiftl (N.land n0 0x0F) 12)
                         (N.lor (N.shiftl (low6 b1) 6) (low6 b2))))
                (decode_utf8 t2)
            else None
        | _ => None
        end
      else if between 0xF0 0xF4 b0 then
        match t0 with
        | b1 :: b2 :: b3 :: t3 =>
            if second_of_four b0 b1 && between 0x80 0xBF b2 && between 0x80 0xBF b3 then
              option_map
                (cons (N.lor (N.shiftl (N.land n0 0x07) 18)
                         (N.lor (N.shiftl (low6 b1) 12)
                            (N.lor (N.shiftl (low6 b2) 6) (low6 b3)))))
                (decode_utf8 t3)
            else None
        | _ => None
        end
      else None
  end.

Definition unicode_encode_error : exc :=
  mkExc UnicodeEncodeError "'utf-8' codec can't encode character: surrogates not allowed".

Definition unicode_decode_error : exc :=
  mkExc UnicodeDecodeError "'utf-8' codec can't decode bytes".

(** ** The environment of a client *)

(** One iteration of a client's input loop: what [input] answers and, when
    the loop gets that far, what [sendall] and [recv] answer. *)
Record exchange : Type := mkExchange {
  on_input : result text;
  on_sendall : result unit;
  on_reply : result bytes
}.

(** [r], and [k] after it when [r] ran to its end. *)
Definition and_then (r k : run) : run :=
  match status_of r with
  | Done => after (trace r) k
  | _ => r
  end.

(** A call whose answer the environment gives. *)
Definition call (ev : result unit -> event) (r : result unit) : run :=
  match r with
  | Returns _ => done [ev (Returns tt)]
  | Raises e => raising [ev (Raises e)] e
  end.

(** The while loop of the two clients' [main] (tcp_client.py lines 58-82,
    tls_client.py lines 109-123); [tls] selects the wording of the prints. *)
Fixpoint chat_loop (tls : bool) (c : fd) (script : list exchange) : run :=
  match script with
  | [] => mkRun [] Blocked
  | x :: script' =>
      match on_input x with
      | Raises e => raising [Input (Raises e)] e
      | Returns [] =>
          (* if not message: continue *)
          after [Input (Returns [])] (chat_loop tls c script')
      | Returns message =>
          let asked := [Input (Returns message)] in
          match encode_utf8 message with
          | None => raising asked unicode_encode_error
          | Some payload =>
              match on_sendall x with
              | Raises e => raising (asked ++ [Sendall c payload (Raises e)]) e
              | Returns _ =>
                  let sent :=
                    asked ++ [Sendall c payload (Returns tt);
                              Print (LSent tls (length message))] in
                  match on_reply x with
                  | Raises e => raising (sent ++ [Recv c 4096 (Raises e)]) e
                  | Returns [] =>
                      done (sent ++ [Recv c 4096 (Returns []); Print LServerClosed])
                  | Returns data =>
                      let got := sent ++ [Recv c 4096 (Returns data)] in
                      match decode_utf8 data with
                      | None => raising got unicode_decode_error
                      | Some t =>
                          after (got ++ [Print (LReceived tls t)])
                                (chat_loop tls c script')
                      end
                  end
              end
          end
      end
  end.

(** The [try: while ... / except KeyboardInterrupt: / finally: close()] of
    the two clients. *)
Definition chat (tls : bool) (c : fd) (script : list exchange) : run :=
  try_finally
    (try_except (chat_loop tls c script)
       [(KeyboardInterrupt, fun _ => done [Print (LClosing tls)])])
    [Close c].

(** ** tcp_client.py *)

Module TcpClient.

(** [main()] (lines 28-94), from line 33 on.  [target] is the [(host, port)]
    of lines 29-30, [c] the descriptor of the socket, [on_connect] the
    answer of [connect]. *)
Definition main (target : address) (c : fd) (on_connect : result unit)
           (script : list exchange) : run :=
  after [Socket c; Print (LConnecting false target)]
    (and_then
       (try_except (call (Connect c target) on_connect)
          [(ConnectionRefusedError,
            fun _ => mkRun [Print (LRefused false target)] (Exit 1))])
       (after [Print (LConnected false); Print LTypeMessages]
          (chat false c script))).

End TcpClient.

(** ** tls_client.py *)

Module TlsClient.

(** [main()] (lines 49-128), from line 54 on.  [target] is the
    [(host, port)] of lines 50-51, [c] the descriptor of the socket,
    [on_load] the answer of [load_verify_locations], [on_connect] the
    answer of [connect], which performs the handshake. *)
Definition main (target : address) (c : fd) (on_load on_connect : result unit)
           (script : list exchange) : run :=
  and_then (call LoadVerifyLocations on_load)
    (after [Print LLoadedCa; Socket c; WrapClient c (addr_host target);
            Print (LConnecting true target)]
       (and_then
          (try_except (call (Connect c target) on_connect)
             [(SSLCertVerificationError,
               fun e => mkRun [Print (LVerificationFailed e)] (Exit 1));
              (ConnectionRefusedError,
               fun _ => mkRun [Print (LRefused true target)] (Exit 1))])
          (after [Print (LConnected true); Print LTypeMessages]
             (chat true c script)))).

End TlsClient.

(** The process's exit code: [sys.exit(code)], 1 for an exception nobody
    caught, 0 when [main] returns. *)
Definition exit_code (s : status) : option Z :=
  match s with
  | Done => Some 0%Z
  | Raised _ => Some 1%Z
  | Exit code => Some code
  | Blocked => None
  end.

(** ** Reading a trace *)

(** The chunks [c.recv] returned, the empty answer of an orderly close left
    out. *)
Definition chunk_of (c : fd) (ev : event) : list bytes :=
  match ev with
  | Recv c' _ (Returns (b :: data)) => if Nat.eqb c' c then [b :: data] else []
  | _ => []
  end.

Definition received_chunks (c : fd) (tr : list event) : list bytes :=
  flat_map (chunk_of c) tr.

(** The arguments of the [c.sendall] calls. *)
Definition payload_of (c : fd) (ev : event) : list bytes :=
  match ev with
  | Sendall c' data _ => if Nat.eqb c' c then [data] else []
  | _ => []
  end.

Definition sendall_payloads (c : fd) (tr : list event) : list bytes :=
  flat_map (payload_of c) tr.

(** The arguments of the [c.sendall] calls that returned: the bytes known to
    have gone out. *)
Definition accepted_of (c : fd) (ev : event) : list bytes :=
  match ev with
  | Sendall c' data (Returns _) => if Nat.eqb c' c then [data] else []
  | _ => []
  end.

Definition echoed_bytes (c : fd) (tr : list event) : bytes :=
  concat (flat_map (accepted_of c) tr).

Definition received_bytes (c : fd) (tr : list event) : bytes :=
  concat (received_chunks c tr).

(** Every [sendall] of the script returns. *)
Definition sends_accepted (script : list round) : bool :=
  forallb (fun r => match on_send r with Returns _ => true | Raises _ => false end)
          script.

(** The number of [c.close()] calls. *)
Definition is_close (c : fd) (ev : event) : bool :=
  match ev with
  | Close c' => Nat.eqb c' c
  | _ => false
  end.

Definition close_count (c : fd) (tr : list event) : nat :=
  length (filter (is_close c) tr).

(** A peer that sends [chunks], each read by one [recv] and echoed, and then
    closes. *)
Definition orderly_session (chunks : list bytes) : list round :=
  map (fun ch => mkRound (Returns ch) (Returns tt)) chunks
  ++ [mkRound (Returns []) (Returns tt)].

(** A round that keeps the echo loop going: [recv] returns bytes and
    [sendall] returns. *)
Definition echoes (r : round) : bool :=
  match on_recv r, on_send r with
  | Returns (_ :: _), Returns _ => true
  | _, _ => false
  end.

(** A call on the connection that failed with a reset by the peer. *)
Definition is_reset (ev : event) : bool :=
  match ev with
  | Recv _ _ (Raises e) => isinstance e ConnectionResetError
  | Sendall _ _ (Raises e) => isinstance e ConnectionResetError
  | _ => false
  end.

(** The addresses passed to [bind]. *)
Definition bound_of (ev : event) : list address :=
  match ev with
  | Bind _ a _ => [a]
  | _ => []
  end.

Definition bound_addresses (tr : list event) : list address :=
  flat_map bound_of tr.

(** The connection's answers with another session behind them. *)
Definition with_session (x : connection) (s : list round) : connection :=
  mkConnection (on_accept x) (on_wrap x) (on_start x) s.

(** The text of the first line a connection failure prints. *)
Definition port_digits (p : N) : string := NilEmpty.string_of_uint (N.to_uint p).

Definition failure_text (l : line) : option string :=
  match l with
  | LVerificationFailed e =>
      Some ("[!] Certificate verification FAILED: " ++ exc_msg e)%string
  | LRefused tls a =>
      Some ("[!] Connection refused — is the "
            ++ (if tls then "TLS server" else "server")
            ++ " running on " ++ addr_host a ++ ":" ++ port_digits (addr_port a)
            ++ "?")%string
  | _ => None
  end.

(** What a change of one peer's behaviour changes: at most the run of the
    handler thread of its own connection. *)
Definition differ_at_most_in (x : connection) (s' : list round)
           (handle_client : fd -> address -> list round -> run)
           (r r' : server_run) : Prop :=
  main_thread r = main_thread r'
  /\ exists before after_ mid mid',
      handler_threads r = before ++ mid ++ after_
      /\ handler_threads r' = before ++ mid' ++ after_
      /\ ((mid = [] /\ mid' = [])
          \/ exists c a, on_accept x = Returns (c, a)
                         /\ mid = [handle_client c a (session x)]
                         /\ mid' = [handle_client c a s']).

(** *** What can go wrong with an incoming connection *)

(** The exception that [accept] or the set-up of the handler (the thread,
    and for TLS the handshake before it) raises for a connection, if any. *)
Definition tcp_setup_error (x : connection) : option exc :=
  match on_accept x with
  | Raises e => Some e
  | Returns _ =>
      match on_start x with
      | Raises e => Some e
      | Returns _ => None
      end
  end.

Definition tls_setup_error (x : connection) : option exc :=
  match on_accept x with
  | Raises e => Some e
  | Returns _ =>
      match on_wrap x with
      | Raises e => Some e
      | Returns _ =>
          match on_start x with
          | Raises e => Some e
          | Returns _ => None
          end
      end
  end.

(** A failed handshake, as the source names it (tls_server.py lines 142-143):
    the connection was accepted and [wrap_socket] raised [ssl.SSLError]. *)
Definition handshake_failure (x : connection) : option exc :=
  match on_accept x, on_wrap x with
  | Returns _, Raises e => if isinstance e SSLError then Some e else None
  | _, _ => None
  end.

(** The exception that takes the TLS accept loop, as it is written, out of
    its [while] at a connection: any that [accept] or the thread start
    raises, and any of [wrap_socket] that the [except ssl.SSLError] of line
    149 does not catch. *)
Definition tls_loop_exit (x : connection) : option exc :=
  match on_accept x with
  | Raises e => Some e
  | Returns _ =>
      match on_wrap x with
      | Raises e => if isinstance e SSLError then None else Some e
      | Returns _ =>
          match on_start x with
          | Raises e => Some e
          | Returns _ => None
          end
      end
  end.

(** The exception that [accept] or the start of the handler thread raises in
    the TLS server, the handshake having returned; [None] when neither
    raises or the handshake did not return. *)
Definition tls_accept_or_start_error (x : connection) : option exc :=
  match on_accept x with
  | Raises e => Some e
  | Returns _ =>
      match on_wrap x, on_start x with
      | Returns _, Raises e => Some e
      | _, _ => None
      end
  end.

(** A connection after which the TLS accept loop is back at [accept]: it was
    accepted, and either secured and handed to a thread, or its handshake
    failed with [ssl.SSLError]. *)
Definition tls_gets_past (x : connection) : bool :=
  match on_accept x, on_wrap x, on_start x with
  | Returns _, Returns _, Returns _ => true
  | Returns _, Raises e, _ => isinstance e SSLError
  | _, _, _ => false
  end.

(** The same for the TCP server: accepted and handed to a thread. *)
Definition tcp_gets_past (x : connection) : bool :=
  match on_accept x, on_start x with
  | Returns _, Returns _ => true
  | _, _ => false
  end.

(** The connections an accept loop gets past before it stops: those that
    come before the first one at which it leaves its [while]. *)
Fixpoint served (gets_past : connection -> bool) (conns : list connection)
  : list connection :=
  match conns with
  | [] => []
  | x :: conns' => if gets_past x then x :: served gets_past conns' else []
  end.

(** The handler thread a connection gets once its set-up has succeeded: the
    handler on the socket and address that [accept] returned, fed by what
    the peer does on that connection. *)
Definition handler_for (handle_client : fd -> address -> list round -> run)
           (x : connection) : list run :=
  match on_accept x with
  | Returns (c, a) => [handle_client c a (session x)]
  | Raises _ => []
  end.

(** The same in the TLS server, where a failed handshake gets none. *)
Definition tls_handler_for (handle_client : fd -> address -> list round -> run)
           (x : connection) : list run :=
  match on_wrap x with
  | Returns _ => handler_for handle_client x
  | Raises _ => []
  end.

(** The thread starts of a connection as they appear in the main thread's
    trace. *)
Definition start_for (x : connection) : list (fd * address) :=
  match on_accept x with
  | Returns (c, a) => [(c, a)]
  | Raises _ => []
  end.

Definition tls_start_for (x : connection) : list (fd * address) :=
  match on_wrap x with
  | Returns _ => start_for x
  | Raises _ => []
  end.

(** The accept loop goes on after an error that is not the interrupt: it
    handles the connections that follow as if it had started with them. *)
Definition keeps_accepting
           (accept_loop : fd -> list connection -> server_run)
           (setup_error : connection -> option exc) : Prop :=
  forall server x conns e,
    setup_error x = Some e ->
    isinstance e KeyboardInterrupt = false ->
    exists evs,
      main_thread (accept_loop server (x :: conns))
      = after evs (main_thread (accept_loop server conns)).

(** The user entered an empty line. *)
Definition is_empty_input (ev : event) : bool :=
  match ev with
  | Input (Returns []) => true
  | _ => false
  end.

(** A call on the network. *)
Definition is_network (ev : event) : bool :=
  match ev with
  | Sendall _ _ _ | Recv _ _ _ | Connect _ _ _ => true
  | _ => false
  end.

(** The bytes a [recv] returned, when it returned some. *)
Definition reply_of (ev : event) : option bytes :=
  match ev with
  | Recv _ _ (Returns (b :: data)) => Some (b :: data)
  | _ => None
  end.

Definition is_reply (ev : event) : bool :=
  match reply_of ev with
  | Some _ => true
  | None => false
  end.

(** The port can be bound by a socket with SO_REUSEADDR. *)
Definition bindable (p : port_state) : bool :=
  match p with
  | PortInUse => false
  | _ => true
  end.

(** *** More ways to read a trace *)

(** The exception a blocking call of a handler or of a client raised. *)
Definition failed_call (ev : event) : option exc :=
  match ev with
  | Input (Raises e) => Some e
  | Recv _ _ (Raises e) => Some e
  | Sendall _ _ (Raises e) => Some e
  | _ => None
  end.

Definition is_failed_call (ev : event) : bool :=
  match failed_call ev with
  | Some _ => true
  | None => false
  end.

(** A [recv] that returned no bytes: the peer closed its side. *)
Definition is_eof (ev : event) : bool :=
  match ev with
  | Recv _ _ (Returns []) => true
  | _ => false
  end.

(** What a session handler may do: print, and on its own socket read up to
    4096 bytes, write and close. *)
Definition handler_event (c : fd) (ev : event) : bool :=
  match ev with
  | Print _ => true
  | Recv c' bufsize _ => Nat.eqb c' c && N.eqb bufsize 4096
  | Sendall c' _ _ => Nat.eqb c' c
  | Close c' => Nat.eqb c' c
  | _ => false
  end.

(** A call that moves bytes of a connection, or reads the terminal. *)
Definition is_io (ev : event) : bool :=
  match ev with
  | Recv _ _ _ | Sendall _ _ _ | Input _ => true
  | _ => false
  end.

(** The threads the main thread started, with their arguments. *)
Definition started_of (ev : event) : list (fd * address) :=
  match ev with
  | ThreadStart c a (Returns _) => [(c, a)]
  | _ => []
  end.

Definition started (tr : list event) : list (fd * address) :=
  flat_map started_of tr.

(** The start of a handler thread, whether it succeeded or not. *)
Definition is_thread_start (ev : event) : bool :=
  match ev with
  | ThreadStart _ _ _ => true
  | _ => false
  end.

(** Any [close()], on whatever socket. *)
Definition is_any_close (ev : event) : bool :=
  match ev with
  | Close _ => true
  | _ => false
  end.

(** A [sendall] that returned. *)
Definition sent_of (ev : event) : option bytes :=
  match ev with
  | Sendall _ payload (Returns _) => Some payload
  | _ => None
  end.

Definition is_sent (ev : event) : bool :=
  match sent_of ev with
  | Some _ => true
  | None => false
  end.

Definition is_recv (ev : event) : bool :=
  match ev with
  | Recv _ _ _ => true
  | _ => false
  end.

(** A code point of one byte in UTF-8. *)
Definition is_ascii (cp : N) : bool := (cp <? 0x80)%N.

(** A code point that UTF-8 encodes: a Unicode scalar value. *)
Definition is_scalar (cp : N) : bool := (cp <? 0x110000)%N && negb (is_surrogate cp).

(** [h] runs the handler [handle_client] on the connection [ca]. *)
Definition runs_handler (handle_client : fd -> address -> list round -> run)
           (h : run) (ca : fd * address) : Prop :=
  exists s, h = handle_client (fst ca) (snd ca) s.

(** The texts a client printed as received. *)
Definition printed_of (ev : event) : list text :=
  match ev with
  | Print (LReceived _ t) => [t]
  | _ => []
  end.

Definition printed_texts (tr : list event) : list text :=
  flat_map printed_of tr.

(** A user who types [lines] over a transport that takes every write and
    brings back [replies], one per line. *)
Definition conversation (lines : list text) (replies : list bytes) : list exchange :=
  map (fun mp => mkExchange (Returns (fst mp)) (Returns tt) (Returns (snd mp)))
      (combine lines replies).

(** * Properties *)

(** In [H : x1 :: ... :: xn :: l = tr1 ++ ev :: tr2], finds which of the
    [xi] the event [ev] is, or that it lies in [l]; [Hev] says what kind of
    event [ev] is and rules the others out. *)
Ltac locate H Hev :=
  repeat match type of H with
    | [] = ?tr1 ++ _ :: _ => destruct tr1; discriminate H
    | _ :: _ = ?tr1 ++ _ :: _ =>
        destruct tr1 as [|? tr1]; simpl in H;
        [ injection H as <- H; simpl in Hev; try discriminate Hev
        | injection H as <- H ]
    end.


(** ** The embedding on small inputs *)

(** "hello" over plain TCP, cut in two by the transport, then the peer
    closes. *)
Example tcp_echo_hello :
  let a := mkAddress "127.0.0.1" 52431 in
  TcpServer.handle_client 4 a (orderly_session [["h"; "e"]; ["l"; "l"; "o"]]%byte)
  = mkRun [Print (LConnectionFrom a);
           Recv 4 4096 (Returns ["h"; "e"]%byte);
           Print (LReceivedFrom 2 a); Print (LHex ["h"; "e"]%byte);
           Print (LStr ["h"; "e"]%byte);
           Sendall 4 ["h"; "e"]%byte (Returns tt); Print (LEchoed 2);
           Recv 4 4096 (Returns ["l"; "l"; "o"]%byte);
           Print (LReceivedFrom 3 a); Print (LHex ["l"; "l"; "o"]%byte);
           Print (LStr ["l"; "l"; "o"]%byte);
           Sendall 4 ["l"; "l"; "o"]%byte (Returns tt); Print (LEchoed 3);
           Recv 4 4096 (Returns []); Print (LDisconnected a);
           Close 4]
          Done.
Proof. reflexivity. Qed.

(** A write that fails with a broken pipe is not caught by the TLS handler:
    the connection is closed and the exception ends the thread. *)
Example tls_handler_broken_pipe :
  let a := mkAddress "127.0.0.1" 52431 in
  let e := mkExc BrokenPipeError "[Errno 32] Broken pipe" in
  TlsServer.handle_client 4 a [mkRound (Returns ["h"; "i"]%byte) (Raises e)]
  = mkRun [Print (LTlsConnectionFrom a);
           Recv 4 4096 (Returns ["h"; "i"]%byte);
           Print (LReceivedDecrypted ["h"; "i"]%byte);
           Sendall 4 ["h"; "i"]%byte (Raises e);
           Close 4]
          (Raised e).
Proof. reflexivity. Qed.

Example exception_hierarchy :
  issubclass SSLCertVerificationError SSLError = true
  /\ issubclass SSLCertVerificationError ValueError = true
  /\ issubclass SSLEOFError OSError = true
  /\ issubclass ConnectionResetError OSError = true
  /\ issubclass ConnectionResetError SSLError = false
  /\ issubclass KeyboardInterrupt Exception = false
  /\ issubclass UnicodeDecodeError ValueError = true.
Proof. repeat split. Qed.

(** Well-formed and ill-formed UTF-8: U+00E9, U+20AC, U+1F600; a lone lead
    byte, a lone continuation byte, an overlong form, a surrogate, a code
    point above U+10FFFF. *)
Example utf8_decoding :
  decode_utf8 [xc3; xa9] = Some [0xE9%N]
  /\ decode_utf8 [xe2; x82; xac] = Some [0x20AC%N]
  /\ decode_utf8 [xf0; x9f; x98; x80] = Some [0x1F600%N]
  /\ decode_utf8 [xc3] = None
  /\ decode_utf8 [xa9] = None
  /\ decode_utf8 [xc0; x80] = None
  /\ decode_utf8 [xed; xa0; x80] = None
  /\ decode_utf8 [xf4; x90; x80; x80] = None.
Proof. repeat split. Qed.

Example utf8_encoding :
  encode_utf8 [0x68%N; 0xE9%N; 0x20AC%N; 0x1F600%N]
  = Some [x68; xc3; xa9; xe2; x82; xac; xf0; x9f; x98; x80]
  /\ encode_utf8 [0xD800%N] = None
  /\ option_map decode_utf8 (encode_utf8 [0xD7FF%N; 0xE000%N; 0x10FFFF%N])
     = Some (Some [0xD7FF%N; 0xE000%N; 0x10FFFF%N]).
Proof. repeat split. Qed.

(** ** Runs and their combinators *)

Lemma trace_after evs r : trace (after evs r) = evs ++ trace r.
Proof. reflexivity. Qed.

Lemma status_after evs r : status_of (after evs r) = status_of r.
Proof. reflexivity. Qed.

Lemma after_after evs1 evs2 r : after evs1 (after evs2 r) = after (evs1 ++ evs2) r.
Proof. unfold after; simpl. now rewrite app_assoc. Qed.

Lemma after_nil r : after [] r = r.
Proof. now destruct r. Qed.

(** Python's hierarchy keeps the classes the handlers name apart. *)
Lemma reset_is_not_ssl e :
  isinstance e ConnectionResetError = true -> isinstance e SSLError = false.
Proof. destruct e as [k m]; destruct k; vm_compute; congruence. Qed.

Lemma verification_is_not_refused e :
  isinstance e SSLCertVerificationError = true ->
  isinstance e ConnectionRefusedError = false.
Proof. destruct e as [k m]; destruct k; vm_compute; congruence. Qed.

Lemma interrupt_is_not_ssl e :
  isinstance e KeyboardInterrupt = true -> isinstance e SSLError = false.
Proof. destruct e as [k m]; destruct k; vm_compute; congruence. Qed.

(** ** The echo loop writes what it reads *)

Section EchoedChunks.

Variables (c : fd) (a : address).

Lemma tcp_loop_payloads script :
  sendall_payloads c (trace (TcpServer.echo_loop c a script))
  = received_chunks c (trace (TcpServer.echo_loop c a script)).
Proof.
  unfold sendall_payloads, received_chunks.
  induction script as [|r script IH]; simpl; [reflexivity|].
  destruct (on_recv r) as [[|b data]|e]; simpl; try reflexivity.
  destruct (on_send r) as [u|e]; simpl; rewrite Nat.eqb_refl; simpl;
    [now rewrite IH | reflexivity].
Qed.

Lemma tls_loop_payloads script :
  sendall_payloads c (trace (TlsServer.echo_loop c a script))
  = received_chunks c (trace (TlsServer.echo_loop c a script)).
Proof.
  unfold sendall_payloads, received_chunks.
  induction script as [|r script IH]; simpl; [reflexivity|].
  destruct (on_recv r) as [[|b data]|e]; simpl; try reflexivity.
  destruct (on_send r) as [u|e]; simpl; rewrite Nat.eqb_refl; simpl;
    [now rewrite IH | reflexivity].
Qed.

Lemma tcp_loop_echoed script :
  sends_accepted script = true ->
  echoed_bytes c (trace (TcpServer.echo_loop c a script))
  = received_bytes c (trace (TcpServer.echo_loop c a script)).
Proof.
  unfold echoed_bytes, received_bytes, received_chunks.
  induction script as [|r script IH]; simpl; [reflexivity|].
  intros Hok. apply andb_prop in Hok. destruct Hok as [Hr Hs].
  destruct (on_recv r) as [[|b data]|e]; simpl; try reflexivity.
  destruct (on_send r) as [u|e]; [|discriminate].
  simpl. rewrite Nat.eqb_refl. simpl. now rewrite IH.
Qed.

Lemma tls_loop_echoed script :
  sends_accepted script = true ->
  echoed_bytes c (trace (TlsServer.echo_loop c a script))
  = received_bytes c (trace (TlsServer.echo_loop c a script)).
Proof.
  unfold echoed_bytes, received_bytes, received_chunks.
  induction script as [|r script IH]; simpl; [reflexivity|].
  intros Hok. apply andb_prop in Hok. destruct Hok as [Hr Hs].
  destruct (on_recv r) as [[|b data]|e]; simpl; try reflexivity.
  destruct (on_send r) as [u|e]; [|discriminate].
  simpl. rewrite Nat.eqb_refl. simpl. now rewrite IH.
Qed.

(** What [handle_client] adds around its loop: the greeting, and at the end
    nothing (still waiting), the close, or the reset message and the
    close. *)
Lemma tcp_handler_shape script :
  exists tail,
    trace (TcpServer.handle_client c a script)
    = Print (LConnectionFrom a) :: trace (TcpServer.echo_loop c a script) ++ tail
    /\ (tail = [] \/ tail = [Close c] \/ tail = [Print (LResetBy a); Close c]).
Proof.
  unfold TcpServer.handle_client, try_finally, try_except.
  destruct (TcpServer.echo_loop c a script) as [tr [| e | code |]]; simpl.
  - exists [Close c]. auto.
  - destruct (isinstance e ConnectionResetError); simpl.
    + exists [Print (LResetBy a); Close c]. rewrite <- app_assoc. auto.
    + exists [Close c]. auto.
  - exists [Close c]. auto.
  - exists []. rewrite app_nil_r. auto.
Qed.

(** The same for the TLS handler, which also reports SSL errors. *)
Lemma tls_handler_shape script :
  exists tail,
    trace (TlsServer.handle_client c a script)
    = Print (LTlsConnectionFrom a) :: trace (TlsServer.echo_loop c a script) ++ tail
    /\ (tail = [] \/ tail = [Close c] \/ tail = [Print (LResetBy a); Close c]
        \/ exists e, tail = [Print (LSslError e); Close c]).
Proof.
  unfold TlsServer.handle_client, try_finally, try_except.
  destruct (TlsServer.echo_loop c a script) as [tr [| e | code |]]; simpl.
  - exists [Close c]. auto.
  - destruct (isinstance e SSLError); simpl.
    + exists [Print (LSslError e); Close c]. rewrite <- app_assoc. eauto 6.
    + destruct (isinstance e ConnectionResetError); simpl.
      * exists [Print (LResetBy a); Close c]. rewrite <- app_assoc. auto.
      * exists [Close c]. auto.
  - exists [Close c]. auto.
  - exists []. rewrite app_nil_r. auto.
Qed.

(** The events around the loop are prints and the close: they carry no
    bytes of the connection. *)
Lemma tcp_handler_io (f : event -> list bytes) script :
  (forall l, f (Print l) = []) -> (forall s, f (Close s) = []) ->
  flat_map f (trace (TcpServer.handle_client c a script))
  = flat_map f (trace (TcpServer.echo_loop c a script)).
Proof.
  intros Hp Hc. destruct (tcp_handler_shape script) as [tail [-> Ht]].
  simpl. rewrite Hp, flat_map_app. simpl.
  destruct Ht as [-> | [-> | ->]]; simpl; rewrite ?Hp, ?Hc, ?app_nil_r; reflexivity.
Qed.

Lemma tls_handler_io (f : event -> list bytes) script :
  (forall l, f (Print l) = []) -> (forall s, f (Close s) = []) ->
  flat_map f (trace (TlsServer.handle_client c a script))
  = flat_map f (trace (TlsServer.echo_loop c a script)).
Proof.
  intros Hp Hc. destruct (tls_handler_shape script) as [tail [-> Ht]].
  simpl. rewrite Hp, flat_map_app. simpl.
  destruct Ht as [-> | [-> | [-> | [e ->]]]]; simpl;
    rewrite ?Hp, ?Hc, ?app_nil_r; reflexivity.
Qed.

End EchoedChunks.

(** C1.  Whatever the peer does and however its bytes are cut into reads, the
    session handler of either server passes to [sendall], in order, exactly
    the non-empty chunks [recv] returned, so the bytes written back are the
    bytes read; and when the transport accepts every write, the bytes that
    went out are the bytes that came in. *)
Theorem echo_returns_the_bytes_received :
  forall (c : fd) (a : address) (script : list round),
    let tcp := trace (TcpServer.handle_client c a script) in
    let tls := trace (TlsServer.handle_client c a script) in
    (sendall_payloads c tcp = received_chunks c tcp
     /\ concat (sendall_payloads c tcp) = received_bytes c tcp
     /\ (sends_accepted script = true -> echoed_bytes c tcp = received_bytes c tcp))
    /\
    (sendall_payloads c tls = received_chunks c tls
     /\ concat (sendall_payloads c tls) = received_bytes c tls
     /\ (sends_accepted script = true -> echoed_bytes c tls = received_bytes c tls)).
Proof.
  intros c a script tcp tls. subst tcp tls.
  unfold echoed_bytes, received_bytes, sendall_payloads, received_chunks.
  rewrite !(tcp_handler_io c a (payload_of c)), !(tcp_handler_io c a (chunk_of c)),
    !(tcp_handler_io c a (accepted_of c)),
    !(tls_handler_io c a (payload_of c)), !(tls_handler_io c a (chunk_of c)),
    !(tls_handler_io c a (accepted_of c)) by reflexivity.
  pose proof (tcp_loop_payloads c a script) as Htcp.
  pose proof (tls_loop_payloads c a script) as Htls.
  unfold sendall_payloads, received_chunks in Htcp, Htls.
  repeat split.
  - exact Htcp.
  - now rewrite Htcp.
  - apply tcp_loop_echoed.
  - exact Htls.
  - now rewrite Htls.
  - apply tls_loop_echoed.
Qed.

Lemma echo_returns_the_bytes_received_witness :
  let a := mkAddress "127.0.0.1" 52431 in
  let hello := ["h"; "e"; "l"; "l"; "o"]%byte in
  let script := orderly_session [["h"; "e"]; ["l"; "l"; "o"]]%byte in
  sends_accepted script = true
  /\ echoed_bytes 4 (trace (TcpServer.handle_client 4 a script)) = hello
  /\ echoed_bytes 4 (trace (TlsServer.handle_client 4 a script)) = hello.
Proof.
  intros a hello script.
  destruct (echo_returns_the_bytes_received 4 a script) as [[_ [_ Htcp]] [_ [_ Htls]]].
  split; [reflexivity|].
  split; [rewrite (Htcp eq_refl) | rewrite (Htls eq_refl)]; reflexivity.
Defined.

(** The echo does not depend on where the reads cut the stream: a peer that
    sends the bytes of [chunks] and closes gets back their concatenation. *)
Lemma orderly_session_accepted chunks : sends_accepted (orderly_session chunks) = true.
Proof. unfold orderly_session. induction chunks as [|ch chunks IH]; simpl; auto. Qed.

Lemma tcp_orderly_session_received c a chunks :
  Forall (fun ch => ch <> []) chunks ->
  received_bytes c (trace (TcpServer.echo_loop c a (orderly_session chunks)))
  = concat chunks.
Proof.
  unfold received_bytes, received_chunks, orderly_session.
  induction 1 as [|ch chunks Hch _ IH]; simpl; [reflexivity|].
  destruct ch as [|b ch]; [congruence|].
  simpl. rewrite Nat.eqb_refl. simpl. now rewrite IH.
Qed.

Lemma tls_orderly_session_received c a chunks :
  Forall (fun ch => ch <> []) chunks ->
  received_bytes c (trace (TlsServer.echo_loop c a (orderly_session chunks)))
  = concat chunks.
Proof.
  unfold received_bytes, received_chunks, orderly_session.
  induction 1 as [|ch chunks Hch _ IH]; simpl; [reflexivity|].
  destruct ch as [|b ch]; [congruence|].
  simpl. rewrite Nat.eqb_refl. simpl. now rewrite IH.
Qed.

Corollary echo_independent_of_chunking c a chunks chunks' :
  Forall (fun ch => ch <> []) chunks ->
  Forall (fun ch => ch <> []) chunks' ->
  concat chunks = concat chunks' ->
  echoed_bytes c (trace (TcpServer.handle_client c a (orderly_session chunks)))
  = echoed_bytes c (trace (TcpServer.handle_client c a (orderly_session chunks')))
  /\ echoed_bytes c (trace (TlsServer.handle_client c a (orderly_session chunks)))
     = echoed_bytes c (trace (TlsServer.handle_client c a (orderly_session chunks'))).
Proof.
  intros H H' Heq.
  unfold echoed_bytes.
  rewrite !(tcp_handler_io c a (accepted_of c)), !(tls_handler_io c a (accepted_of c))
    by reflexivity.
  fold (echoed_bytes c (trace (TcpServer.echo_loop c a (orderly_session chunks)))).
  fold (echoed_bytes c (trace (TcpServer.echo_loop c a (orderly_session chunks')))).
  fold (echoed_bytes c (trace (TlsServer.echo_loop c a (orderly_session chunks)))).
  fold (echoed_bytes c (trace (TlsServer.echo_loop c a (orderly_session chunks')))).
  rewrite !tcp_loop_echoed, !tls_loop_echoed by apply orderly_session_accepted.
  rewrite !tcp_orderly_session_received, !tls_orderly_session_received by assumption.
  auto.
Qed.

(** ** The handler closes its connection *)

Section ClosedOnce.

Variables (c : fd) (a : address).

Lemma tcp_loop_no_close script :
  close_count c (trace (TcpServer.echo_loop c a script)) = 0.
Proof.
  unfold close_count.
  induction script as [|r script IH]; simpl; [reflexivity|].
  destruct (on_recv r) as [[|b data]|e]; simpl; try reflexivity.
  destruct (on_send r) as [u|e]; simpl; [exact IH | reflexivity].
Qed.

Lemma tls_loop_no_close script :
  close_count c (trace (TlsServer.echo_loop c a script)) = 0.
Proof.
  unfold close_count.
  induction script as [|r script IH]; simpl; [reflexivity|].
  destruct (on_recv r) as [[|b data]|e]; simpl; try reflexivity.
  destruct (on_send r) as [u|e]; simpl; [exact IH | reflexivity].
Qed.

(** The loops end by returning or raising; they wait exactly when every
    round so far was an echo. *)
Lemma tcp_loop_blocked script :
  status_of (TcpServer.echo_loop c a script) = Blocked <-> forallb echoes script = true.
Proof.
  induction script as [|r script IH]; simpl; [tauto|].
  unfold echoes at 1.
  destruct (on_recv r) as [[|b data]|e]; simpl; try (split; discriminate).
  destruct (on_send r) as [u|e]; simpl; [exact IH | split; discriminate].
Qed.

Lemma tls_loop_blocked script :
  status_of (TlsServer.echo_loop c a script) = Blocked <-> forallb echoes script = true.
Proof.
  induction script as [|r script IH]; simpl; [tauto|].
  unfold echoes at 1.
  destruct (on_recv r) as [[|b data]|e]; simpl; try (split; discriminate).
  destruct (on_send r) as [u|e]; simpl; [exact IH | split; discriminate].
Qed.

Lemma close_count_app tr1 tr2 :
  close_count c (tr1 ++ tr2) = close_count c tr1 + close_count c tr2.
Proof. unfold close_count. now rewrite filter_app, length_app. Qed.

(** On every way out the handler's trace is: events without a close, then
    the one close. *)
Lemma tcp_handler_exit script :
  status_of (TcpServer.handle_client c a script) <> Blocked ->
  exists body,
    trace (TcpServer.handle_client c a script) = body ++ [Close c]
    /\ close_count c body = 0.
Proof.
  pose proof (tcp_loop_no_close script) as Hloop.
  unfold TcpServer.handle_client, try_finally, try_except.
  destruct (TcpServer.echo_loop c a script) as [tr [| e | code |]]; simpl in *.
  - intros _. exists (Print (LConnectionFrom a) :: tr). auto.
  - destruct (isinstance e ConnectionResetError); simpl; intros _.
    + exists (Print (LConnectionFrom a) :: tr ++ [Print (LResetBy a)]).
      split; [reflexivity|].
      change (close_count c (tr ++ [Print (LResetBy a)]) = 0).
      rewrite close_count_app, Hloop. reflexivity.
    + exists (Print (LConnectionFrom a) :: tr). auto.
  - intros _. exists (Print (LConnectionFrom a) :: tr). auto.
  - congruence.
Qed.

Lemma tls_handler_exit script :
  status_of (TlsServer.handle_client c a script) <> Blocked ->
  exists body,
    trace (TlsServer.handle_client c a script) = body ++ [Close c]
    /\ close_count c body = 0.
Proof.
  pose proof (tls_loop_no_close script) as Hloop.
  unfold TlsServer.handle_client, try_finally, try_except.
  destruct (TlsServer.echo_loop c a script) as [tr [| e | code |]]; simpl in *.
  - intros _. exists (Print (LTlsConnectionFrom a) :: tr). auto.
  - destruct (isinstance e SSLError); simpl; [|destruct (isinstance e ConnectionResetError); simpl];
      intros _.
    + exists (Print (LTlsConnectionFrom a) :: tr ++ [Print (LSslError e)]).
      split; [reflexivity|].
      change (close_count c (tr ++ [Print (LSslError e)]) = 0).
      rewrite close_count_app, Hloop. reflexivity.
    + exists (Print (LTlsConnectionFrom a) :: tr ++ [Print (LResetBy a)]).
      split; [reflexivity|].
      change (close_count c (tr ++ [Print (LResetBy a)]) = 0).
      rewrite close_count_app, Hloop. reflexivity.
    + exists (Print (LTlsConnectionFrom a) :: tr). auto.
  - intros _. exists (Print (LTlsConnectionFrom a) :: tr). auto.
  - congruence.
Qed.

(** Events that do not close [c] leave its socket object alone. *)
Lemma replay_closes_skip body tr s :
  close_count c body = 0 ->
  replay_closes c (body ++ tr) s = replay_closes c tr s.
Proof.
  unfold close_count.
  induction body as [|ev body IH]; simpl; [reflexivity|].
  destruct ev; simpl; auto.
  destruct (Nat.eqb s0 c); simpl; [discriminate | auto].
Qed.

(** Which rounds end the session. *)
Lemma tcp_handler_exits_iff script :
  status_of (TcpServer.handle_client c a script) <> Blocked
  <-> forallb echoes script = false.
Proof.
  rewrite <- not_true_iff_false, <- tcp_loop_blocked.
  unfold TcpServer.handle_client, try_finally, try_except.
  destruct (TcpServer.echo_loop c a script) as [tr [| e | code |]]; simpl;
    try destruct (isinstance e ConnectionResetError); simpl;
    split; congruence.
Qed.

Lemma tls_handler_exits_iff script :
  status_of (TlsServer.handle_client c a script) <> Blocked
  <-> forallb echoes script = false.
Proof.
  rewrite <- not_true_iff_false, <- tls_loop_blocked.
  unfold TlsServer.handle_client, try_finally, try_except.
  destruct (TlsServer.echo_loop c a script) as [tr [| e | code |]]; simpl;
    try (destruct (isinstance e SSLError); simpl);
    try (destruct (isinstance e ConnectionResetError); simpl);
    split; congruence.
Qed.

End ClosedOnce.

(** Closing a closed socket changes nothing and releases nothing. *)
Lemma socket_close_idempotent s :
  socket_close (fst (socket_close s)) = (fst (socket_close s), []).
Proof. destruct s as [[d|]]; reflexivity. Qed.



(** ** A reset ends the session inside the handler *)

Section ResetInLoop.

Variables (c : fd) (a : address).

Lemma tcp_loop_reset script : forall tr1 ev tr2,
  trace (TcpServer.echo_loop c a script) = tr1 ++ ev :: tr2 ->
  is_reset ev = true ->
  tr2 = []
  /\ exists e, status_of (TcpServer.echo_loop c a script) = Raised e
               /\ isinstance e ConnectionResetError = true.
Proof.
  induction script as [|r script IH]; intros tr1 ev tr2 H Hev; simpl in H.
  - locate H Hev.
  - simpl. destruct (on_recv r) as [[|b data]|e]; simpl in *.
    + locate H Hev.
    + destruct (on_send r) as [u|e]; simpl in *.
      * locate H Hev. eauto.
      * locate H Hev. subst. eauto.
    + locate H Hev. subst. eauto.
Qed.

Lemma tls_loop_reset script : forall tr1 ev tr2,
  trace (TlsServer.echo_loop c a script) = tr1 ++ ev :: tr2 ->
  is_reset ev = true ->
  tr2 = []
  /\ exists e, status_of (TlsServer.echo_loop c a script) = Raised e
               /\ isinstance e ConnectionResetError = true.
Proof.
  induction script as [|r script IH]; intros tr1 ev tr2 H Hev; simpl in H.
  - locate H Hev.
  - simpl. destruct (on_recv r) as [[|b data]|e]; simpl in *.
    + locate H Hev.
    + destruct (on_send r) as [u|e]; simpl in *.
      * locate H Hev. eauto.
      * locate H Hev. subst. eauto.
    + locate H Hev. subst. eauto.
Qed.

End ResetInLoop.

(** An event found in [l ++ tail] that cannot be in [tail] is in [l]. *)
Lemma located_in_front (P : event -> bool) (l tail : list event) :
  forallb (fun x => negb (P x)) tail = true ->
  forall tr1 ev tr2,
    l ++ tail = tr1 ++ ev :: tr2 -> P ev = true ->
    exists m, l = tr1 ++ ev :: m /\ tr2 = m ++ tail.
Proof.
  intros Htail. induction l as [|x l IH]; intros tr1 ev tr2 H Hev; simpl in H.
  - exfalso. rewrite forallb_forall in Htail.
    assert (Hin : In ev tail) by (rewrite H; apply in_elt).
    apply Htail in Hin. rewrite Hev in Hin. discriminate.
  - destruct tr1 as [|y tr1]; simpl in H; injection H as <- H.
    + exists l. auto.
    + destruct (IH _ _ _ H Hev) as [m [-> ->]]. exists m. auto.
Qed.

Section ResetInHandler.

Variables (c : fd) (a : address).

Lemma tcp_handler_reset script tr1 ev tr2 :
  trace (TcpServer.handle_client c a script) = tr1 ++ ev :: tr2 ->
  is_reset ev = true ->
  tr2 = [Print (LResetBy a); Close c]
  /\ status_of (TcpServer.handle_client c a script) = Done.
Proof.
  intros H Hev.
  pose proof (tcp_loop_reset c a script) as Hloop.
  unfold TcpServer.handle_client, try_finally, try_except in *.
  destruct (TcpServer.echo_loop c a script) as [tr st]; simpl in *.
  destruct st as [| e | code |]; simpl in H.
  - locate H Hev.
    destruct (located_in_front is_reset tr [Close c] eq_refl _ _ _ H Hev) as [m [Htr _]].
    destruct (Hloop _ _ _ Htr Hev) as [_ [e [He _]]]. discriminate.
  - destruct (isinstance e ConnectionResetError) eqn:Hreset; simpl in H.
    + locate H Hev. rewrite <- app_assoc in H.
      destruct (located_in_front is_reset tr [Print (LResetBy a); Close c] eq_refl
                  _ _ _ H Hev) as [m [Htr ->]].
      destruct (Hloop _ _ _ Htr Hev) as [-> _]. auto.
    + locate H Hev.
      destruct (located_in_front is_reset tr [Close c] eq_refl _ _ _ H Hev) as [m [Htr _]].
      destruct (Hloop _ _ _ Htr Hev) as [_ [e' [He' Hr']]].
      injection He' as <-. congruence.
  - locate H Hev.
    destruct (located_in_front is_reset tr [Close c] eq_refl _ _ _ H Hev) as [m [Htr _]].
    destruct (Hloop _ _ _ Htr Hev) as [_ [e [He _]]]. discriminate.
  - locate H Hev.
    destruct (Hloop _ _ _ H Hev) as [_ [e [He _]]]. discriminate.
Qed.

Lemma tls_handler_reset script tr1 ev tr2 :
  trace (TlsServer.handle_client c a script) = tr1 ++ ev :: tr2 ->
  is_reset ev = true ->
  tr2 = [Print (LResetBy a); Close c]
  /\ status_of (TlsServer.handle_client c a script) = Done.
Proof.
  intros H Hev.
  pose proof (tls_loop_reset c a script) as Hloop.
  unfold TlsServer.handle_client, try_finally, try_except in *.
  destruct (TlsServer.echo_loop c a script) as [tr st]; simpl in *.
  destruct st as [| e | code |]; simpl in H.
  - locate H Hev.
    destruct (located_in_front is_reset tr [Close c] eq_refl _ _ _ H Hev) as [m [Htr _]].
    destruct (Hloop _ _ _ Htr Hev) as [_ [e [He _]]]. discriminate.
  - assert (Hcase : forall tail,
               forallb (fun x => negb (is_reset x)) tail = true ->
               Print (LTlsConnectionFrom a) :: tr ++ tail = tr1 ++ ev :: tr2 ->
               tr2 = tail /\ isinstance e ConnectionResetError = true).
    { intros tail Htail H'. locate H' Hev.
      destruct (located_in_front is_reset tr tail Htail _ _ _ H' Hev) as [m [Htr ->]].
      destruct (Hloop _ _ _ Htr Hev) as [-> [e' [He' Hr']]].
      injection He' as <-. auto. }
    destruct (isinstance e SSLError) eqn:Hssl; simpl in H.
    + rewrite <- app_assoc in H. apply Hcase in H; [|reflexivity].
      destruct H as [_ Hr]. apply reset_is_not_ssl in Hr. congruence.
    + destruct (isinstance e ConnectionResetError) eqn:Hreset; simpl in H.
      * rewrite <- app_assoc in H. apply Hcase in H; [|reflexivity].
        destruct H as [-> _]. auto.
      * apply Hcase in H; [|reflexivity]. destruct H as [_ Hr]. discriminate.
  - locate H Hev.
    destruct (located_in_front is_reset tr [Close c] eq_refl _ _ _ H Hev) as [m [Htr _]].
    destruct (Hloop _ _ _ Htr Hev) as [_ [e [He _]]]. discriminate.
  - locate H Hev.
    destruct (Hloop _ _ _ H Hev) as [_ [e [He _]]]. discriminate.
Qed.

End ResetInHandler.

(** ** Sessions are isolated from the accept loop and from each other *)

(** The main thread of either server is the same whatever the peers do on
    their connections. *)
Lemma tcp_main_thread_ignores_sessions server conns :
  main_thread (TcpServer.accept_loop server conns)
  = main_thread (TcpServer.accept_loop server (map (fun x => with_session x []) conns)).
Proof.
  induction conns as [|x conns IH]; simpl; [reflexivity|].
  destruct (on_accept x) as [[c a]|e]; simpl; [|reflexivity].
  destruct (on_start x) as [u|e]; simpl; [|reflexivity].
  now rewrite IH.
Qed.

Lemma tls_main_thread_ignores_sessions server conns :
  main_thread (TlsServer.accept_loop server conns)
  = main_thread (TlsServer.accept_loop server (map (fun x => with_session x []) conns)).
Proof.
  induction conns as [|x conns IH]; simpl; [reflexivity|].
  destruct (on_accept x) as [[c a]|e]; simpl; [|reflexivity].
  destruct (on_wrap x) as [u|e]; simpl.
  - destruct (on_start x) as [u'|e]; simpl; [|reflexivity]. now rewrite IH.
  - destruct (isinstance e SSLError); simpl; [|reflexivity]. now rewrite IH.
Qed.

Lemma tcp_sessions_isolated server pre x post s' :
  differ_at_most_in x s' TcpServer.handle_client
    (TcpServer.accept_loop server (pre ++ x :: post))
    (TcpServer.accept_loop server (pre ++ with_session x s' :: post)).
Proof.
  unfold differ_at_most_in.
  induction pre as [|y pre IH]; simpl.
  - destruct (on_accept x) as [[c a]|e]; simpl.
    + destruct (on_start x) as [u|e]; simpl.
      * split; [reflexivity|].
        exists [], (handler_threads (TcpServer.accept_loop server post)),
          [TcpServer.handle_client c a (session x)], [TcpServer.handle_client c a s'].
        simpl. eauto 8.
      * split; [reflexivity|]. exists [], [], [], []. auto.
    + split; [reflexivity|]. exists [], [], [], []. auto.
  - destruct IH as [Hmain [before [after_ [mid [mid' [H1 [H2 Hmid]]]]]]].
    destruct (on_accept y) as [[c a]|e]; simpl.
    + destruct (on_start y) as [u|e]; simpl.
      * split; [now rewrite Hmain|].
        exists (TcpServer.handle_client c a (session y) :: before), after_, mid, mid'.
        rewrite H1, H2. auto.
      * split; [reflexivity|]. exists [], [], [], []. auto.
    + split; [reflexivity|]. exists [], [], [], []. auto.
Qed.

Lemma tls_sessions_isolated server pre x post s' :
  differ_at_most_in x s' TlsServer.handle_client
    (TlsServer.accept_loop server (pre ++ x :: post))
    (TlsServer.accept_loop server (pre ++ with_session x s' :: post)).
Proof.
  unfold differ_at_most_in.
  induction pre as [|y pre IH]; simpl.
  - destruct (on_accept x) as [[c a]|e]; simpl.
    + destruct (on_wrap x) as [u|e]; simpl.
      * destruct (on_start x) as [u'|e]; simpl.
        -- split; [reflexivity|].
           exists [], (handler_threads (TlsServer.accept_loop server post)),
             [TlsServer.handle_client c a (session x)], [TlsServer.handle_client c a s'].
           simpl. eauto 8.
        -- split; [reflexivity|]. exists [], [], [], []. auto.
      * destruct (isinstance e SSLError); simpl.
        -- split; [reflexivity|].
           exists [], (handler_threads (TlsServer.accept_loop server post)), [], [].
           auto.
        -- split; [reflexivity|]. exists [], [], [], []. auto.
    + split; [reflexivity|]. exists [], [], [], []. auto.
  - destruct IH as [Hmain [before [after_ [mid [mid' [H1 [H2 Hmid]]]]]]].
    destruct (on_accept y) as [[c a]|e]; simpl.
    + destruct (on_wrap y) as [u|e]; simpl.
      * destruct (on_start y) as [u'|e]; simpl.
        -- split; [now rewrite Hmain|].
           exists (TlsServer.handle_client c a (session y) :: before), after_, mid, mid'.
           rewrite H1, H2. auto.
        -- split; [reflexivity|]. exists [], [], [], []. auto.
      * destruct (isinstance e SSLError); simpl.
        -- split; [now rewrite Hmain|]. exists before, after_, mid, mid'. auto.
        -- split; [reflexivity|]. exists [], [], [], []. auto.
    + split; [reflexivity|]. exists [], [], [], []. auto.
Qed.

(** *** A reset after any number of echoes *)

Section ResetAfterEchoes.

Variables (c : fd) (a : address).

(** Rounds that echo leave the loop where it would be had it started with
    the rounds that follow. *)
Lemma tcp_loop_app pre s :
  forallb echoes pre = true ->
  TcpServer.echo_loop c a (pre ++ s)
  = after (trace (TcpServer.echo_loop c a pre)) (TcpServer.echo_loop c a s).
Proof.
  induction pre as [|r pre IH]; simpl.
  - intros _. now rewrite after_nil.
  - unfold echoes at 1.
    destruct (on_recv r) as [[|b data]|e]; try discriminate.
    destruct (on_send r) as [u|e]; try discriminate.
    intros Hpre. rewrite (IH Hpre). unfold after. simpl.
    rewrite <- ?app_assoc. reflexivity.
Qed.

Lemma tls_loop_app pre s :
  forallb echoes pre = true ->
  TlsServer.echo_loop c a (pre ++ s)
  = after (trace (TlsServer.echo_loop c a pre)) (TlsServer.echo_loop c a s).
Proof.
  induction pre as [|r pre IH]; simpl.
  - intros _. now rewrite after_nil.
  - unfold echoes at 1.
    destruct (on_recv r) as [[|b data]|e]; try discriminate.
    destruct (on_send r) as [u|e]; try discriminate.
    intros Hpre. rewrite (IH Hpre). unfold after. simpl.
    rewrite <- ?app_assoc. reflexivity.
Qed.

(** While the peer is echoed the handler has closed nothing: it waits in
    [recv]. *)
Lemma tcp_handler_waiting pre :
  forallb echoes pre = true ->
  TcpServer.handle_client c a pre
  = mkRun (Print (LConnectionFrom a) :: trace (TcpServer.echo_loop c a pre)) Blocked.
Proof.
  intros Hpre. apply (proj2 (tcp_loop_blocked c a pre)) in Hpre.
  unfold TcpServer.handle_client, try_finally, try_except.
  destruct (TcpServer.echo_loop c a pre) as [tr st]. simpl in *. subst st.
  reflexivity.
Qed.

Lemma tls_handler_waiting pre :
  forallb echoes pre = true ->
  TlsServer.handle_client c a pre
  = mkRun (Print (LTlsConnectionFrom a) :: trace (TlsServer.echo_loop c a pre)) Blocked.
Proof.
  intros Hpre. apply (proj2 (tls_loop_blocked c a pre)) in Hpre.
  unfold TlsServer.handle_client, try_finally, try_except.
  destruct (TlsServer.echo_loop c a pre) as [tr st]. simpl in *. subst st.
  reflexivity.
Qed.

(** The handlers when the loop ends with a reset. *)
Lemma tcp_handler_on_reset pre s evs e :
  forallb echoes pre = true ->
  TcpServer.echo_loop c a s = raising evs e ->
  isinstance e ConnectionResetError = true ->
  TcpServer.handle_client c a (pre ++ s)
  = mkRun (trace (TcpServer.handle_client c a pre)
           ++ evs ++ [Print (LResetBy a); Close c]) Done.
Proof.
  intros Hpre Hs He.
  rewrite (tcp_handler_waiting pre Hpre).
  unfold TcpServer.handle_client. rewrite (tcp_loop_app pre s Hpre), Hs.
  unfold try_finally, try_except, after, raising. simpl. rewrite He. simpl.
  rewrite <- ?app_assoc. reflexivity.
Qed.

Lemma tls_handler_on_reset pre s evs e :
  forallb echoes pre = true ->
  TlsServer.echo_loop c a s = raising evs e ->
  isinstance e ConnectionResetError = true ->
  TlsServer.handle_client c a (pre ++ s)
  = mkRun (trace (TlsServer.handle_client c a pre)
           ++ evs ++ [Print (LResetBy a); Close c]) Done.
Proof.
  intros Hpre Hs He.
  rewrite (tls_handler_waiting pre Hpre).
  unfold TlsServer.handle_client. rewrite (tls_loop_app pre s Hpre), Hs.
  unfold try_finally, try_except, after, raising. simpl.
  rewrite (reset_is_not_ssl e He), He. simpl.
  rewrite <- ?app_assoc. reflexivity.
Qed.

End ResetAfterEchoes.

(** C6.  When the peer resets the connection, after any number of chunks
    echoed: the [recv], or the [sendall] of the chunk just read, raises
    ConnectionResetError; the handler of either server prints the reset,
    closes the connection and returns normally, whatever the peer would
    have done next: it reads and writes nothing more and raises nothing.
    Seen from the trace: whatever the session, a call that failed with
    ConnectionResetError is followed by the print and the close and by
    nothing else.  The main thread does not depend on what happens in a
    session, and a session changes no other handler thread. *)
Theorem reset_stays_in_the_handler :
  (forall (c : fd) (a : address) (script : list round) tr1 ev tr2,
      is_reset ev = true ->
      (trace (TcpServer.handle_client c a script) = tr1 ++ ev :: tr2 ->
       tr2 = [Print (LResetBy a); Close c]
       /\ status_of (TcpServer.handle_client c a script) = Done)
      /\ (trace (TlsServer.handle_client c a script) = tr1 ++ ev :: tr2 ->
          tr2 = [Print (LResetBy a); Close c]
          /\ status_of (TlsServer.handle_client c a script) = Done))
  /\ (forall server pre x post s',
        differ_at_most_in x s' TcpServer.handle_client
          (TcpServer.accept_loop server (pre ++ x :: post))
          (TcpServer.accept_loop server (pre ++ with_session x s' :: post))
        /\ differ_at_most_in x s' TlsServer.handle_client
             (TlsServer.accept_loop server (pre ++ x :: post))
             (TlsServer.accept_loop server (pre ++ with_session x s' :: post)))
  /\ (forall (c : fd) (a : address) (pre : list round) (r : round)
             (rest : list round) (e : exc),
        forallb echoes pre = true ->
        isinstance e ConnectionResetError = true ->
        (on_recv r = Raises e ->
         TcpServer.handle_client c a (pre ++ r :: rest)
         = mkRun (trace (TcpServer.handle_client c a pre)
                  ++ [Recv c 4096 (Raises e); Print (LResetBy a); Close c])
                 Done
         /\ TlsServer.handle_client c a (pre ++ r :: rest)
            = mkRun (trace (TlsServer.handle_client c a pre)
                     ++ [Recv c 4096 (Raises e); Print (LResetBy a); Close c])
                    Done)
        /\ (forall b data,
              on_recv r = Returns (b :: data) ->
              on_send r = Raises e ->
              TcpServer.handle_client c a (pre ++ r :: rest)
              = mkRun (trace (TcpServer.handle_client c a pre)
                       ++ [Recv c 4096 (Returns (b :: data));
                           Print (LReceivedFrom (length (b :: data)) a);
                           Print (LHex (b :: data));
                           Print (LStr (b :: data));
                           Sendall c (b :: data) (Raises e);
                           Print (LResetBy a); Close c])
                      Done
              /\ TlsServer.handle_client c a (pre ++ r :: rest)
                 = mkRun (trace (TlsServer.handle_client c a pre)
                          ++ [Recv c 4096 (Returns (b :: data));
                              Print (LReceivedDecrypted (b :: data));
                              Sendall c (b :: data) (Raises e);
                              Print (LResetBy a); Close c])
                         Done)).
Proof.
  split; [|split].
  - intros c a script tr1 ev tr2 Hev. split; intros H.
    + eapply tcp_handler_reset; eauto.
    + eapply tls_handler_reset; eauto.
  - intros. split; [apply tcp_sessions_isolated | apply tls_sessions_isolated].
  - intros c a pre r rest e Hpre He. split.
    + intros Hr. split.
      * apply (tcp_handler_on_reset c a pre (r :: rest) [Recv c 4096 (Raises e)] e);
          [exact Hpre | simpl; now rewrite Hr | exact He].
      * apply (tls_handler_on_reset c a pre (r :: rest) [Recv c 4096 (Raises e)] e);
          [exact Hpre | simpl; now rewrite Hr | exact He].
    + intros b data Hr Hs. split.
      * apply (tcp_handler_on_reset c a pre (r :: rest)
                 [Recv c 4096 (Returns (b :: data));
                  Print (LReceivedFrom (length (b :: data)) a);
                  Print (LHex (b :: data)); Print (LStr (b :: data));
                  Sendall c (b :: data) (Raises e)] e);
          [exact Hpre | simpl; now rewrite Hr, Hs | exact He].
      * apply (tls_handler_on_reset c a pre (r :: rest)
                 [Recv c 4096 (Returns (b :: data));
                  Print (LReceivedDecrypted (b :: data));
                  Sendall c (b :: data) (Raises e)] e);
          [exact Hpre | simpl; now rewrite Hr, Hs | exact He].
Qed.

Lemma reset_stays_in_the_handler_witness :
  let a := mkAddress "127.0.0.1" 52431 in
  let reset := mkExc ConnectionResetError "[Errno 104] Connection reset by peer" in
  let echoed := mkRound (Returns ["h"; "i"]%byte) (Returns tt) in
  let never := mkRound (Returns ["x"]%byte) (Returns tt) in
  let at_recv := mkRound (Raises reset) (Returns tt) in
  let at_send := mkRound (Returns ["y"; "o"]%byte) (Raises reset) in
  TcpServer.handle_client 4 a ([echoed] ++ at_recv :: [never])
  = mkRun [Print (LConnectionFrom a);
           Recv 4 4096 (Returns ["h"; "i"]%byte);
           Print (LReceivedFrom 2 a); Print (LHex ["h"; "i"]%byte);
           Print (LStr ["h"; "i"]%byte);
           Sendall 4 ["h"; "i"]%byte (Returns tt); Print (LEchoed 2);
           Recv 4 4096 (Raises reset); Print (LResetBy a); Close 4]
          Done
  /\ TlsServer.handle_client 5 a ([echoed] ++ at_recv :: [never])
     = mkRun [Print (LTlsConnectionFrom a);
              Recv 5 4096 (Returns ["h"; "i"]%byte);
              Print (LReceivedDecrypted ["h"; "i"]%byte);
              Sendall 5 ["h"; "i"]%byte (Returns tt); Print LEchoedEncrypted;
              Recv 5 4096 (Raises reset); Print (LResetBy a); Close 5]
             Done
  /\ TlsServer.handle_client 5 a ([echoed] ++ at_send :: [never])
     = mkRun [Print (LTlsConnectionFrom a);
              Recv 5 4096 (Returns ["h"; "i"]%byte);
              Print (LReceivedDecrypted ["h"; "i"]%byte);
              Sendall 5 ["h"; "i"]%byte (Returns tt); Print LEchoedEncrypted;
              Recv 5 4096 (Returns ["y"; "o"]%byte);
              Print (LReceivedDecrypted ["y"; "o"]%byte);
              Sendall 5 ["y"; "o"]%byte (Raises reset);
              Print (LResetBy a); Close 5]
             Done.
Proof.
  intros a reset echoed never at_recv at_send.
  destruct reset_stays_in_the_handler as [_ [_ Hreset]].
  destruct (Hreset 4 a [echoed] at_recv [never] reset eq_refl eq_refl)
    as [Htcp _].
  destruct (Hreset 5 a [echoed] at_recv [never] reset eq_refl eq_refl)
    as [Hrecv _].
  destruct (Hreset 5 a [echoed] at_send [never] reset eq_refl eq_refl)
    as [_ Hsend].
  split; [exact (proj1 (Htcp eq_refl))|].
  split; [exact (proj2 (Hrecv eq_refl))|].
  exact (proj2 (Hsend "y"%byte ["o"%byte] eq_refl eq_refl)).
Defined.

(** ** The accept loops *)

(** The loop gets past connections that raise nothing: the main thread has
    some events for them, their handler threads run, and the loop is where
    it would be had it started with the connections that follow. *)
Lemma tcp_loop_passes server pre :
  Forall (fun y => tcp_setup_error y = None) pre ->
  exists evs hs, forall rest,
    TcpServer.accept_loop server (pre ++ rest)
    = mkServerRun (after evs (main_thread (TcpServer.accept_loop server rest)))
                  (hs ++ handler_threads (TcpServer.accept_loop server rest)).
Proof.
  induction 1 as [|y pre Hy _ [evs [hs IH]]].
  - exists [], []. intros rest. simpl. rewrite after_nil.
    now destruct (TcpServer.accept_loop server rest).
  - unfold tcp_setup_error in Hy. simpl.
    destruct (on_accept y) as [[c a]|e]; [|discriminate].
    destruct (on_start y) as [u|e]; [|discriminate].
    exists ([Accept server (Returns (c, a)); ThreadStart c a (Returns tt)] ++ evs),
      (TcpServer.handle_client c a (session y) :: hs).
    intros rest. rewrite IH. simpl. reflexivity.
Qed.

(** The TLS loop also gets past the handshakes that fail with
    [ssl.SSLError], for which no handler runs. *)
Lemma tls_loop_passes server pre :
  Forall (fun y => tls_gets_past y = true) pre ->
  exists evs, forall rest,
    TlsServer.accept_loop server (pre ++ rest)
    = mkServerRun (after evs (main_thread (TlsServer.accept_loop server rest)))
                  (flat_map (tls_handler_for TlsServer.handle_client) pre
                   ++ handler_threads (TlsServer.accept_loop server rest)).
Proof.
  induction 1 as [|y pre Hy _ [evs IH]].
  - exists []. intros rest. simpl. rewrite after_nil.
    now destruct (TlsServer.accept_loop server rest).
  - unfold tls_gets_past in Hy. unfold tls_handler_for, handler_for. simpl.
    destruct (on_accept y) as [[c a]|e]; [|discriminate].
    destruct (on_wrap y) as [u|e].
    + destruct (on_start y) as [u'|e]; [|discriminate].
      exists ([Accept server (Returns (c, a)); WrapServer c (Returns tt);
               ThreadStart c a (Returns tt)] ++ evs).
      intros rest. rewrite IH. simpl. reflexivity.
    + rewrite Hy.
      exists ([Accept server (Returns (c, a)); WrapServer c (Raises e);
               Print (LHandshakeFailed a e); Close c] ++ evs).
      intros rest. rewrite IH. unfold on_main. simpl. reflexivity.
Qed.

(** A set-up error ends the TCP loop where it is raised. *)
Lemma tcp_loop_stops server x e :
  tcp_setup_error x = Some e ->
  exists evs, forall conns,
    TcpServer.accept_loop server (x :: conns) = main_only (raising evs e).
Proof.
  unfold tcp_setup_error. simpl.
  destruct (on_accept x) as [[c a]|e'].
  - destruct (on_start x) as [u|e']; [discriminate|].
    intros [= ->]. eexists. intros conns. reflexivity.
  - intros [= ->]. eexists. intros conns. reflexivity.
Qed.

(** The TLS loop ends at an exception it does not catch. *)
Lemma tls_loop_stops server x e :
  tls_loop_exit x = Some e ->
  exists evs, forall conns,
    TlsServer.accept_loop server (x :: conns) = main_only (raising evs e).
Proof.
  unfold tls_loop_exit. simpl.
  destruct (on_accept x) as [[c a]|e'].
  - destruct (on_wrap x) as [u|e'].
    + destruct (on_start x) as [u'|e']; [discriminate|].
      intros [= ->]. eexists. intros conns. reflexivity.
    + destruct (isinstance e' SSLError); [discriminate|].
      intros [= ->]. eexists. intros conns. reflexivity.
  - intros [= ->]. eexists. intros conns. reflexivity.
Qed.

(** An exception of [accept] or of the thread start is one of those. *)
Lemma tls_accept_or_start_exit x e :
  tls_accept_or_start_error x = Some e -> tls_loop_exit x = Some e.
Proof.
  unfold tls_accept_or_start_error, tls_loop_exit.
  destruct (on_accept x) as [[c a]|e']; [|tauto].
  destruct (on_wrap x) as [u|e']; [|discriminate].
  destruct (on_start x) as [u'|e'']; [discriminate | tauto].
Qed.

(** A handshake that fails with [ssl.SSLError]: the accepted socket is closed
    and the loop goes on. *)
Lemma tls_loop_handshake_failure server x conns c a e :
  on_accept x = Returns (c, a) ->
  on_wrap x = Raises e ->
  isinstance e SSLError = true ->
  TlsServer.accept_loop server (x :: conns)
  = on_main
      (after [Accept server (Returns (c, a));
              WrapServer c (Raises e);
              Print (LHandshakeFailed a e);
              Close c])
      (TlsServer.accept_loop server conns).
Proof. intros Ha Hw He. simpl. now rewrite Ha, Hw, He. Qed.

(** A handshake that fails with another exception: nothing catches it inside
    the loop. *)
Lemma tls_loop_handshake_escapes server x conns c a e :
  on_accept x = Returns (c, a) ->
  on_wrap x = Raises e ->
  isinstance e SSLError = false ->
  TlsServer.accept_loop server (x :: conns)
  = main_only (raising [Accept server (Returns (c, a)); WrapServer c (Raises e)] e).
Proof. intros Ha Hw He. simpl. now rewrite Ha, Hw, He. Qed.

(** The [try ... except KeyboardInterrupt ... finally] around the loops. *)
Lemma guarded_loop_raised server evs e :
  let r := try_finally
             (try_except (raising evs e)
                [(KeyboardInterrupt, fun _ => done [Print LShuttingDown])])
             [Close server] in
  status_of r = (if isinstance e KeyboardInterrupt then Done else Raised e)
  /\ exists body, trace r = body ++ [Close server].
Proof.
  unfold try_finally, try_except, raising. simpl.
  destruct (isinstance e KeyboardInterrupt); simpl; eauto.
Qed.

(** With SO_REUSEADDR set, [bind] fails only on a port a live socket holds. *)
Lemma bind_with_reuseaddr p :
  bindable p = true -> kernel_bind (setsockopt_reuseaddr new_socket 1) p = Returns tt.
Proof. destruct p; simpl; congruence. Qed.

(** *** A handshake that fails with [ssl.SSLError] *)

(** In the TLS server, a connection that was accepted and whose
    [wrap_socket] raised [ssl.SSLError], at whatever point of the server's
    life the loop comes to it: the main thread prints the failure and closes
    the accepted socket, starts no handler thread for it, and goes back to
    [accept]; the handler threads of the server are those it would have
    without this connection. *)
Lemma ssl_error_handshake_never_reaches_the_handler :
  forall server pre x conns c a e,
    Forall (fun y => tls_gets_past y = true) pre ->
    on_accept x = Returns (c, a) ->
    on_wrap x = Raises e ->
    isinstance e SSLError = true ->
    TlsServer.accept_loop server (x :: conns)
    = on_main
        (after [Accept server (Returns (c, a));
                WrapServer c (Raises e);
                Print (LHandshakeFailed a e);
                Close c])
        (TlsServer.accept_loop server conns)
    /\ (exists evs,
          main_thread (TlsServer.accept_loop server (pre ++ conns))
          = after evs (main_thread (TlsServer.accept_loop server conns))
          /\ main_thread (TlsServer.accept_loop server (pre ++ x :: conns))
             = after (evs ++ [Accept server (Returns (c, a));
                              WrapServer c (Raises e);
                              Print (LHandshakeFailed a e);
                              Close c])
                     (main_thread (TlsServer.accept_loop server conns)))
    /\ handler_threads (TlsServer.accept_loop server (pre ++ x :: conns))
       = handler_threads (TlsServer.accept_loop server (pre ++ conns)).
Proof.
  intros server pre x conns c a e Hpre Ha Hw He.
  pose proof (tls_loop_handshake_failure server x conns c a e Ha Hw He) as Hx.
  destruct (tls_loop_passes server pre Hpre) as [evs Hpass].
  split; [exact Hx|]. split.
  - exists evs. rewrite !Hpass, Hx. simpl. split; [reflexivity|].
    now rewrite after_after.
  - rewrite !Hpass, Hx. reflexivity.
Qed.

Example ssl_error_handshake_is_survived :
  let peer1 := mkAddress "10.0.0.7" 40001 in
  let peer2 := mkAddress "10.0.0.8" 40002 in
  let peer3 := mkAddress "10.0.0.9" 40003 in
  let alert := mkExc SSLError "[SSL: TLSV1_ALERT_UNKNOWN_CA] tlsv1 alert unknown ca" in
  let first := mkConnection (Returns (4, peer1)) (Returns tt) (Returns tt) [] in
  let failing := mkConnection (Returns (5, peer2)) (Raises alert) (Returns tt) [] in
  let next := mkConnection (Returns (5, peer3)) (Returns tt) (Returns tt) [] in
  main_thread (TlsServer.accept_loop 3 [first; failing; next])
  = mkRun [Accept 3 (Returns (4, peer1)); WrapServer 4 (Returns tt);
           ThreadStart 4 peer1 (Returns tt);
           Accept 3 (Returns (5, peer2)); WrapServer 5 (Raises alert);
           Print (LHandshakeFailed peer2 alert); Close 5;
           Accept 3 (Returns (5, peer3)); WrapServer 5 (Returns tt);
           ThreadStart 5 peer3 (Returns tt)]
          Blocked
  /\ handler_threads (TlsServer.accept_loop 3 [first; failing; next])
     = handler_threads (TlsServer.accept_loop 3 [first; next]).
Proof. intros. split; reflexivity. Qed.

(** *** A handshake that fails with another exception *)

(** C4.  A failed handshake the server does not survive.  [wrap_socket]
    runs the handshake on the accepted connection, and a handshake also
    fails with exceptions that are not [ssl.SSLError]: ConnectionResetError
    when the peer resets the connection during it, TimeoutError, other
    OSErrors.  The [except ssl.SSLError] of tls_server.py:149 does not catch
    them.  For a connection that was accepted and whose [wrap_socket] raised
    such an exception [e] (not the interrupt either), at whatever point of
    the server's life: no handler thread is started for it; but the
    accepted socket is not closed (after the [wrap_socket] the main thread
    does nothing but close the listening socket), the failure is not
    printed, the loop does not continue (the connections that follow are
    never accepted) and [main] ends with [e] raised. *)
Theorem handshake_error_outside_ssl_ends_the_server :
  forall argv server ports pre x conns c a e,
    bindable (ports TlsServer.port) = true ->
    Forall (fun y => tls_gets_past y = true) pre ->
    on_accept x = Returns (c, a) ->
    on_wrap x = Raises e ->
    isinstance e SSLError = false ->
    isinstance e KeyboardInterrupt = false ->
    let r := TlsServer.main argv server ports (Returns tt) (pre ++ x :: conns) in
    r = TlsServer.main argv server ports (Returns tt) (pre ++ [x])
    /\ status_of (main_thread r) = Raised e
    /\ trace (main_thread r)
       = trace (main_thread (TlsServer.main argv server ports (Returns tt) pre))
         ++ [Accept server (Returns (c, a));
             WrapServer c (Raises e);
             Close server]
    /\ handler_threads r
       = flat_map (tls_handler_for TlsServer.handle_client) pre.
Proof.
  intros argv server ports pre x conns c a e Hbind Hpre Ha Hw He Hki.
  destruct (tls_loop_passes server pre Hpre) as [evs Hpass].
  pose proof (Hpass []) as Hpre0. rewrite app_nil_r in Hpre0.
  unfold TlsServer.main. rewrite (bind_with_reuseaddr _ Hbind).
  rewrite !Hpass, Hpre0.
  rewrite !(tls_loop_handshake_escapes server x _ c a e Ha Hw He).
  unfold on_main, main_only, try_finally, try_except, raising. simpl.
  rewrite Hki. simpl.
  split; [reflexivity|]. split; [reflexivity|]. split.
  - rewrite !app_nil_r, <- !app_assoc. reflexivity.
  - rewrite app_nil_r. reflexivity.
Qed.

Lemma handshake_error_outside_ssl_ends_the_server_witness :
  let peer1 := mkAddress "10.0.0.7" 40001 in
  let peer2 := mkAddress "10.0.0.8" 40002 in
  let peer3 := mkAddress "10.0.0.9" 40003 in
  let reset := mkExc ConnectionResetError "[Errno 104] Connection reset by peer" in
  let first := mkConnection (Returns (4, peer1)) (Returns tt) (Returns tt) [] in
  let failing := mkConnection (Returns (5, peer2)) (Raises reset) (Returns tt) [] in
  let next := mkConnection (Returns (6, peer3)) (Returns tt) (Returns tt) [] in
  let r := TlsServer.main [] 3 (fun _ => PortFree) (Returns tt)
             ([first] ++ failing :: [next]) in
  main_thread r
  = mkRun [Socket 3; Setsockopt_REUSEADDR 3 1;
           LoadCertChain (Returns tt); Print LLoadedCertificate;
           Bind 3 (mkAddress "0.0.0.0" 9443) (Returns tt);
           Listen 3 5;
           Print (LListening true (mkAddress "0.0.0.0" 9443));
           Accept 3 (Returns (4, peer1)); WrapServer 4 (Returns tt);
           ThreadStart 4 peer1 (Returns tt);
           Accept 3 (Returns (5, peer2)); WrapServer 5 (Raises reset);
           Close 3]
          (Raised reset)
  /\ close_count 5 (trace (main_thread r)) = 0
  /\ status_of (main_thread r) = Raised reset
  /\ handler_threads r = [TlsServer.handle_client 4 peer1 []].
Proof.
  intros peer1 peer2 peer3 reset first failing next r.
  assert (Hpre : Forall (fun y => tls_gets_past y = true) [first])
    by (repeat constructor).
  destruct (handshake_error_outside_ssl_ends_the_server
              [] 3 (fun _ => PortFree) [first] failing [next] 5 peer2 reset
              eq_refl Hpre eq_refl eq_refl eq_refl eq_refl)
    as [_ [Hst [_ Hh]]].
  split; [reflexivity|]. split; [reflexivity|].
  split; [exact Hst | exact Hh].
Defined.

(** ** What ends a server *)

(** An error of [accept] that is not the interrupt ends the TCP server: the
    connection that follows is never accepted. *)
Lemma accept_error_ends_the_server :
  let e := mkExc OSError "[Errno 24] Too many open files" in
  let peer := mkAddress "10.0.0.7" 40001 in
  let failing := mkConnection (Raises e) (Returns tt) (Returns tt) [] in
  let next := mkConnection (Returns (4, peer)) (Returns tt) (Returns tt) [] in
  tcp_setup_error failing = Some e
  /\ isinstance e KeyboardInterrupt = false
  /\ TcpServer.main [] 3 (fun _ => PortFree) [failing; next]
     = mkServerRun
         (mkRun [Socket 3; Setsockopt_REUSEADDR 3 1;
                 Bind 3 (mkAddress "0.0.0.0" 9000) (Returns tt);
                 Listen 3 5;
                 Print (LListening false (mkAddress "0.0.0.0" 9000));
                 Accept 3 (Raises e);
                 Close 3]
                (Raised e))
         []
  /\ ~ keeps_accepting TcpServer.accept_loop tcp_setup_error
  /\ ~ keeps_accepting TlsServer.accept_loop tls_setup_error.
Proof.
  intros e peer failing next.
  split; [reflexivity|]. split; [reflexivity|]. split; [reflexivity|].
  split; intros Hkeeps;
    destruct (Hkeeps 3 failing [next] e eq_refl eq_refl) as [evs Hevs];
    apply (f_equal status_of) in Hevs; discriminate Hevs.
Qed.

Lemma tcp_main_stops argv server ports pre x conns e :
  bindable (ports TcpServer.port) = true ->
  Forall (fun y => tcp_setup_error y = None) pre ->
  tcp_setup_error x = Some e ->
  let r := TcpServer.main argv server ports (pre ++ x :: conns) in
  r = TcpServer.main argv server ports (pre ++ [x])
  /\ status_of (main_thread r)
     = (if isinstance e KeyboardInterrupt then Done else Raised e)
  /\ exists body, trace (main_thread r) = body ++ [Close server].
Proof.
  intros Hbind Hpre Hx.
  destruct (tcp_loop_passes server pre Hpre) as [evs [hs Hpass]].
  destruct (tcp_loop_stops server x e Hx) as [evs' Hstop].
  unfold TcpServer.main. rewrite (bind_with_reuseaddr _ Hbind).
  rewrite !Hpass, !Hstop. unfold on_main, main_only. simpl.
  change (after evs (raising evs' e)) with (raising (evs ++ evs') e).
  destruct (guarded_loop_raised server (evs ++ evs') e) as [Hst [body Hbody]].
  split; [reflexivity|]. split; [exact Hst|].
  rewrite Hbody.
  exists (Socket server :: Setsockopt_REUSEADDR server 1
          :: Bind server (mkAddress TcpServer.host TcpServer.port) (Returns tt)
          :: Listen server 5
          :: Print (LListening false (mkAddress TcpServer.host TcpServer.port))
          :: body).
  reflexivity.
Qed.

Lemma tls_main_stops argv server ports pre x conns e :
  bindable (ports TlsServer.port) = true ->
  Forall (fun y => tls_gets_past y = true) pre ->
  tls_loop_exit x = Some e ->
  let r := TlsServer.main argv server ports (Returns tt) (pre ++ x :: conns) in
  r = TlsServer.main argv server ports (Returns tt) (pre ++ [x])
  /\ status_of (main_thread r)
     = (if isinstance e KeyboardInterrupt then Done else Raised e)
  /\ exists body, trace (main_thread r) = body ++ [Close server].
Proof.
  intros Hbind Hpre Hx.
  destruct (tls_loop_passes server pre Hpre) as [evs Hpass].
  destruct (tls_loop_stops server x e Hx) as [evs' Hstop].
  unfold TlsServer.main. rewrite (bind_with_reuseaddr _ Hbind).
  rewrite !Hpass, !Hstop. unfold on_main, main_only. simpl.
  change (after evs (raising evs' e)) with (raising (evs ++ evs') e).
  destruct (guarded_loop_raised server (evs ++ evs') e) as [Hst [body Hbody]].
  split; [reflexivity|]. split; [exact Hst|].
  rewrite Hbody.
  exists (Socket server :: Setsockopt_REUSEADDR server 1
          :: LoadCertChain (Returns tt) :: Print LLoadedCertificate
          :: Bind server (mkAddress TlsServer.host TlsServer.port) (Returns tt)
          :: Listen server 5
          :: Print (LListening true (mkAddress TlsServer.host TlsServer.port))
          :: body).
  reflexivity.
Qed.

(** C5, as the code has it.  The accept loop of either server ends at the
    first exception raised by [accept] or by starting the handler thread,
    whatever the exception: the connections that follow are not accepted,
    the listening socket is closed, and [main] returns when the exception
    is the interrupt and lets it through otherwise.  A TLS handshake that
    fails with [ssl.SSLError] does not end the loop: after it the TLS server
    goes on accepting. *)
Theorem accept_loop_ends_at_the_first_error :
  forall argv server ports pre x conns e,
    (bindable (ports TcpServer.port) = true ->
     Forall (fun y => tcp_setup_error y = None) pre ->
     tcp_setup_error x = Some e ->
     let r := TcpServer.main argv server ports (pre ++ x :: conns) in
     r = TcpServer.main argv server ports (pre ++ [x])
     /\ status_of (main_thread r)
        = (if isinstance e KeyboardInterrupt then Done else Raised e)
     /\ exists body, trace (main_thread r) = body ++ [Close server])
    /\
    (bindable (ports TlsServer.port) = true ->
     Forall (fun y => tls_gets_past y = true) pre ->
     (tls_accept_or_start_error x = Some e ->
      let r := TlsServer.main argv server ports (Returns tt) (pre ++ x :: conns) in
      r = TlsServer.main argv server ports (Returns tt) (pre ++ [x])
      /\ status_of (main_thread r)
         = (if isinstance e KeyboardInterrupt then Done else Raised e)
      /\ exists body, trace (main_thread r) = body ++ [Close server])
     /\
     (handshake_failure x = Some e ->
      exists evs c a,
        on_accept x = Returns (c, a)
        /\ main_thread (TlsServer.accept_loop server (pre ++ x :: conns))
           = after (evs ++ [Accept server (Returns (c, a));
                            WrapServer c (Raises e);
                            Print (LHandshakeFailed a e);
                            Close c])
                   (main_thread (TlsServer.accept_loop server conns)))).
Proof.
  intros argv server ports pre x conns e. split.
  - apply tcp_main_stops.
  - intros Hbind Hpre. split.
    + intros Hx. apply tls_main_stops; [exact Hbind | exact Hpre |].
      now apply tls_accept_or_start_exit.
    + intros Hx. unfold handshake_failure in Hx.
      destruct (on_accept x) as [[c a]|e'] eqn:Ha; [|discriminate].
      destruct (on_wrap x) as [u|e'] eqn:Hw; [discriminate|].
      destruct (isinstance e' SSLError) eqn:He; [|discriminate].
      injection Hx as ->.
      destruct (tls_loop_passes server pre Hpre) as [evs Hpass].
      exists evs, c, a. split; [reflexivity|].
      rewrite Hpass, (tls_loop_handshake_failure server x conns c a e Ha Hw He).
      simpl. now rewrite after_after.
Qed.

Lemma accept_loop_ends_at_the_first_error_witness :
  let peer := mkAddress "10.0.0.7" 40001 in
  let e := mkExc OSError "[Errno 24] Too many open files" in
  let alert := mkExc SSLError "[SSL: TLSV1_ALERT_UNKNOWN_CA] tlsv1 alert unknown ca" in
  let first := mkConnection (Returns (4, peer)) (Returns tt) (Returns tt) [] in
  let refused := mkConnection (Returns (5, peer)) (Raises alert) (Returns tt) [] in
  let failing := mkConnection (Raises e) (Returns tt) (Returns tt) [] in
  let next := mkConnection (Returns (5, peer)) (Returns tt) (Returns tt) [] in
  let tcp := TcpServer.main [] 3 (fun _ => PortFree) ([first] ++ failing :: [next]) in
  let tls := TlsServer.main [] 3 (fun _ => PortFree) (Returns tt)
               ([first; refused] ++ failing :: [next]) in
  status_of (main_thread tcp) = Raised e
  /\ status_of (main_thread tls) = Raised e
  /\ tls = TlsServer.main [] 3 (fun _ => PortFree) (Returns tt)
             ([first; refused] ++ [failing])
  /\ exists evs,
       main_thread (TlsServer.accept_loop 3 ([first] ++ refused :: [next]))
       = after (evs ++ [Accept 3 (Returns (5, peer)); WrapServer 5 (Raises alert);
                        Print (LHandshakeFailed peer alert); Close 5])
               (main_thread (TlsServer.accept_loop 3 [next])).
Proof.
  intros peer e alert first refused failing next tcp tls.
  assert (Htcp : Forall (fun y => tcp_setup_error y = None) [first])
    by (repeat constructor).
  assert (Htls : Forall (fun y => tls_gets_past y = true) [first; refused])
    by (repeat constructor).
  destruct (accept_loop_ends_at_the_first_error
              [] 3 (fun _ => PortFree) [first] failing [next] e)
    as [Hone _].
  destruct (accept_loop_ends_at_the_first_error
              [] 3 (fun _ => PortFree) [first; refused] failing [next] e)
    as [_ Htwo].
  destruct (Hone eq_refl Htcp eq_refl) as [_ [Hst _]].
  destruct (proj1 (Htwo eq_refl Htls) eq_refl) as [Heq [Hst' _]].
  split; [exact Hst|]. split; [exact Hst'|]. split; [exact Heq|].
  destruct (accept_loop_ends_at_the_first_error
              [] 3 (fun _ => PortFree) [first] refused [next] alert)
    as [_ Hthree].
  assert (Hfirst : Forall (fun y => tls_gets_past y = true) [first])
    by (repeat constructor).
  destruct (proj2 (Hthree eq_refl Hfirst) eq_refl) as [evs [c [a [Ha Hrun]]]].
  injection Ha as <- <-.
  exists evs. exact Hrun.
Defined.

(** ** Start-up of the servers *)

(** The accept loops bind nothing. *)
Lemma tcp_loop_binds_nothing server conns :
  bound_addresses (trace (main_thread (TcpServer.accept_loop server conns))) = [].
Proof.
  unfold bound_addresses.
  induction conns as [|x conns IH]; simpl; [reflexivity|].
  destruct (on_accept x) as [[c a]|e]; simpl; [|reflexivity].
  destruct (on_start x) as [u|e]; simpl; [exact IH | reflexivity].
Qed.

Lemma tls_loop_binds_nothing server conns :
  bound_addresses (trace (main_thread (TlsServer.accept_loop server conns))) = [].
Proof.
  unfold bound_addresses.
  induction conns as [|x conns IH]; simpl; [reflexivity|].
  destruct (on_accept x) as [[c a]|e]; simpl; [|reflexivity].
  destruct (on_wrap x) as [u|e]; simpl.
  - destruct (on_start x) as [u'|e]; simpl; [exact IH | reflexivity].
  - destruct (isinstance e SSLError); simpl; [exact IH | reflexivity].
Qed.

(** Nor does the [try ... except KeyboardInterrupt ... finally] around them. *)
Lemma guarded_loop_binds_nothing server body :
  bound_addresses
    (trace (try_finally
              (try_except body
                 [(KeyboardInterrupt, fun _ => done [Print LShuttingDown])])
              [Close server]))
  = bound_addresses (trace body).
Proof.
  unfold bound_addresses, try_finally, try_except.
  destruct body as [tr [| e | code |]]; simpl;
    try destruct (isinstance e KeyboardInterrupt); simpl;
    rewrite ?flat_map_app; simpl; rewrite ?app_nil_r; reflexivity.
Qed.

Lemma bound_addresses_app tr1 tr2 :
  bound_addresses (tr1 ++ tr2) = bound_addresses tr1 ++ bound_addresses tr2.
Proof. apply flat_map_app. Qed.

Lemma tcp_main_binds argv server ports conns :
  bound_addresses (trace (main_thread (TcpServer.main argv server ports conns)))
  = [mkAddress "0.0.0.0" 9000].
Proof.
  unfold TcpServer.main.
  destruct (kernel_bind _ _); [|reflexivity].
  unfold on_main. cbn [main_thread].
  rewrite trace_after, bound_addresses_app, guarded_loop_binds_nothing,
    tcp_loop_binds_nothing.
  reflexivity.
Qed.

Lemma tls_main_binds argv server ports on_load conns :
  bound_addresses
    (trace (main_thread (TlsServer.main argv server ports on_load conns)))
  = match on_load with
    | Returns _ => [mkAddress "0.0.0.0" 9443]
    | Raises _ => []
    end.
Proof.
  unfold TlsServer.main.
  destruct on_load as [u|e]; [|reflexivity].
  destruct (kernel_bind _ _); [|reflexivity].
  unfold on_main. cbn [main_thread].
  rewrite trace_after, bound_addresses_app, guarded_loop_binds_nothing,
    tls_loop_binds_nothing.
  reflexivity.
Qed.

(** The servers bind the address written in their source whatever the command
    line: here one that asks for another address. *)
Lemma server_ignores_the_command_line :
  let argv := ["tcp_server.py"; "127.0.0.1"; "8080"]%string in
  let tls_argv := ["tls_server.py"; "127.0.0.1"; "8443"]%string in
  bound_addresses (trace (main_thread (TcpServer.main argv 3 (fun _ => PortFree) [])))
  = [mkAddress "0.0.0.0" 9000]
  /\ bound_addresses
       (trace (main_thread (TlsServer.main tls_argv 3 (fun _ => PortFree) (Returns tt) [])))
     = [mkAddress "0.0.0.0" 9443]
  /\ ~ (exists argv' server ports conns,
          bound_addresses (trace (main_thread (TcpServer.main argv' server ports conns)))
          <> [mkAddress "0.0.0.0" 9000])
  /\ ~ (exists argv' server ports conns,
          bound_addresses
            (trace (main_thread (TlsServer.main argv' server ports (Returns tt) conns)))
          <> [mkAddress "0.0.0.0" 9443]).
Proof.
  intros argv tls_argv.
  split; [reflexivity|]. split; [reflexivity|].
  split; intros [argv' [server [ports [conns H]]]]; apply H.
  - apply tcp_main_binds.
  - apply (tls_main_binds argv' server ports (Returns tt) conns).
Qed.

(** C7, as the code has it.  The TCP server binds 0.0.0.0 port 9000 and the
    TLS server (once its certificate is loaded) 0.0.0.0 port 9443, and binds
    nothing else; the address and the port are written in [main], which
    never reads the command line, so nothing given at start-up changes
    them. *)
Theorem servers_bind_fixed_addresses :
  forall argv server ports on_load conns,
    bound_addresses (trace (main_thread (TcpServer.main argv server ports conns)))
    = [mkAddress "0.0.0.0" 9000]
    /\ bound_addresses
         (trace (main_thread (TlsServer.main argv server ports on_load conns)))
       = match on_load with
         | Returns _ => [mkAddress "0.0.0.0" 9443]
         | Raises _ => []
         end.
Proof.
  intros argv server ports on_load conns.
  split; [apply tcp_main_binds | apply tls_main_binds].
Qed.

(** C9.  Both servers set SO_REUSEADDR to 1 on the listening socket right
    after creating it, on every run, and bind after that; so the bind
    succeeds on a port left in TIME_WAIT by an earlier server, where a socket
    without the option fails with "Address already in use"; it fails only
    on a port that a live socket holds. *)
Theorem servers_rebind_a_port_in_time_wait :
  forall argv server ports conns,
    let tcp := trace (main_thread (TcpServer.main argv server ports conns)) in
    let tls := trace (main_thread (TlsServer.main argv server ports (Returns tt) conns)) in
    let tcp_address := mkAddress "0.0.0.0" 9000 in
    let tls_address := mkAddress "0.0.0.0" 9443 in
    (exists r rest,
        tcp = Socket server :: Setsockopt_REUSEADDR server 1
              :: Bind server tcp_address r :: rest
        /\ (r = Returns tt <-> ports 9000%N <> PortInUse))
    /\ (exists r rest,
          tls = Socket server :: Setsockopt_REUSEADDR server 1
                :: LoadCertChain (Returns tt) :: Print LLoadedCertificate
                :: Bind server tls_address r :: rest
          /\ (r = Returns tt <-> ports 9443%N <> PortInUse))
    /\ (ports 9000%N = PortTimeWait -> In (Bind server tcp_address (Returns tt)) tcp)
    /\ (ports 9443%N = PortTimeWait -> In (Bind server tls_address (Returns tt)) tls)
    /\ kernel_bind new_socket PortTimeWait = Raises address_in_use.
Proof.
  intros argv server ports conns tcp tls tcp_address tls_address.
  subst tcp tls tcp_address tls_address.
  unfold TcpServer.main, TlsServer.main, TcpServer.port, TlsServer.port,
    TcpServer.host, TlsServer.host.
  repeat split.
  - destruct (ports 9000%N); simpl; eexists; eexists;
      (split; [reflexivity|]); split; congruence.
  - destruct (ports 9443%N); simpl; eexists; eexists;
      (split; [reflexivity|]); split; congruence.
  - intros ->. simpl. auto.
  - intros ->. simpl. auto 6.
Qed.

Lemma servers_rebind_a_port_in_time_wait_witness :
  let ports := fun _ : N => PortTimeWait in
  ports 9000%N = PortTimeWait
  /\ In (Bind 3 (mkAddress "0.0.0.0" 9000) (Returns tt))
        (trace (main_thread (TcpServer.main [] 3 ports []))).
Proof.
  intros ports. split; [reflexivity|].
  exact (proj1 (proj2 (proj2 (servers_rebind_a_port_in_time_wait [] 3 ports [])))
           eq_refl).
Defined.

(** ** The clients' input loop *)

(** The codecs are opaque to the proofs about the loop: all that matters
    there is whether they return. *)
Arguments encode_utf8 : simpl never.
Arguments decode_utf8 : simpl never.

Section ChatLoop.

Variables (tls : bool) (c : fd).

(** An empty line: nothing but the next prompt. *)
Lemma chat_loop_empty_input x script :
  on_input x = Returns [] ->
  chat_loop tls c (x :: script) = after [Input (Returns [])] (chat_loop tls c script).
Proof. intros H. simpl. now rewrite H. Qed.

(** The loop starts at the prompt. *)
Lemma chat_loop_starts_at_prompt script :
  (trace (chat_loop tls c script) = [] /\ status_of (chat_loop tls c script) = Blocked)
  \/ exists r tr, trace (chat_loop tls c script) = Input r :: tr.
Proof.
  destruct script as [|x script]; simpl; [auto|]. right.
  destruct (on_input x) as [[|n message]|e]; simpl; eauto.
  destruct (encode_utf8 (n :: message)) as [payload|]; simpl; eauto.
  destruct (on_sendall x) as [u|e]; simpl; eauto.
  destruct (on_reply x) as [[|b data]|e]; simpl; eauto.
  destruct (decode_utf8 (b :: data)) as [t|]; simpl; eauto.
Qed.

Lemma chat_loop_after_empty_input script : forall tr1 ev tr2,
  trace (chat_loop tls c script) = tr1 ++ ev :: tr2 ->
  is_empty_input ev = true ->
  (tr2 = [] /\ status_of (chat_loop tls c script) = Blocked)
  \/ exists r tr3, tr2 = Input r :: tr3.
Proof.
  induction script as [|x script IH]; intros tr1 ev tr2 H Hev; simpl in H.
  - locate H Hev.
  - simpl. destruct (on_input x) as [[|n message]|e]; simpl in *.
    + locate H Hev; [|eauto].
      subst tr2.
      destruct (chat_loop_starts_at_prompt script) as [[Htr Hst] | [r [tr Htr]]];
        rewrite Htr; eauto.
    + destruct (encode_utf8 (n :: message)) as [payload|]; simpl in *;
        [|locate H Hev].
      destruct (on_sendall x) as [u|e]; simpl in *; [|locate H Hev].
      destruct (on_reply x) as [[|b data]|e]; simpl in *; try (locate H Hev).
      destruct (decode_utf8 (b :: data)) as [t|]; simpl in *; locate H Hev.
      eauto.
    + locate H Hev.
Qed.

(** Every [sendall] carries the encoding of a line that was not empty. *)
Lemma chat_loop_sends_inputs script : forall c' payload r,
  In (Sendall c' payload r) (trace (chat_loop tls c script)) ->
  c' = c
  /\ exists x message,
      In x script /\ on_input x = Returns message
      /\ message <> [] /\ encode_utf8 message = Some payload.
Proof.
  induction script as [|x script IH]; intros c' payload r H; simpl in H; [tauto|].
  assert (Hrest : In (Sendall c' payload r) (trace (chat_loop tls c script)) ->
                  c' = c
                  /\ exists x0 message,
                      In x0 (x :: script) /\ on_input x0 = Returns message
                      /\ message <> [] /\ encode_utf8 message = Some payload).
  { intros Hin. destruct (IH _ _ _ Hin) as [Hc [x0 [message [Hx0 Hm]]]].
    split; [exact Hc|]. exists x0, message. simpl. tauto. }
  assert (Hhere : forall message p r',
             on_input x = Returns message -> message <> [] ->
             encode_utf8 message = Some p ->
             Sendall c p r' = Sendall c' payload r ->
             c' = c
             /\ exists x0 message,
                 In x0 (x :: script) /\ on_input x0 = Returns message
                 /\ message <> [] /\ encode_utf8 message = Some payload).
  { intros message p r' Hi Hne He [= <- <- _].
    split; [reflexivity|]. exists x, message. simpl. auto. }
  destruct (on_input x) as [[|n message]|e] eqn:Hi; simpl in H.
  - destruct H as [H|H]; [discriminate | auto].
  - assert (Hne : n :: message <> []) by discriminate.
    destruct (encode_utf8 (n :: message)) as [p|] eqn:He; simpl in H;
      [|intuition discriminate].
    destruct (on_sendall x) as [u|e]; simpl in H;
      [|destruct H as [H|[H|[]]]; [discriminate | eauto]].
    destruct (on_reply x) as [[|b data]|e]; simpl in H.
    + destruct H as [H|[H|[H|[H|[H|[]]]]]]; try discriminate; eauto.
    + destruct (decode_utf8 (b :: data)) as [t|]; simpl in H.
      * destruct H as [H|[H|[H|[H|[H|H]]]]]; try discriminate; eauto.
      * destruct H as [H|[H|[H|[H|[]]]]]; try discriminate; eauto.
    + destruct H as [H|[H|[H|[H|[]]]]]; try discriminate; eauto.
  - destruct H as [H|[]]. discriminate.
Qed.

(** What the [try] around the loop adds: nothing while the loop waits, the
    close at its end, after the farewell on an interrupt. *)
Lemma chat_shape script :
  exists tail,
    trace (chat tls c script) = trace (chat_loop tls c script) ++ tail
    /\ ((tail = [] /\ status_of (chat_loop tls c script) = Blocked
         /\ status_of (chat tls c script) = Blocked)
        \/ (status_of (chat_loop tls c script) <> Blocked
            /\ (tail = [Close c] \/ tail = [Print (LClosing tls); Close c]))).
Proof.
  unfold chat, try_finally, try_except.
  destruct (chat_loop tls c script) as [tr [| e | code |]]; simpl.
  - exists [Close c]. split; [reflexivity|]. right. split; [discriminate | auto].
  - destruct (isinstance e KeyboardInterrupt); simpl.
    + exists [Print (LClosing tls); Close c]. rewrite <- app_assoc.
      split; [reflexivity|]. right. split; [discriminate | auto].
    + exists [Close c]. split; [reflexivity|]. right. split; [discriminate | auto].
  - exists [Close c]. split; [reflexivity|]. right. split; [discriminate | auto].
  - exists []. rewrite app_nil_r. auto.
Qed.

End ChatLoop.

(** C8.  In the input loop of either client, an empty line leads to nothing
    but the next prompt: the event after it, if any, is the next [input],
    with no [sendall] and no [recv] between; and whatever is sent is the
    encoding of a line that was not empty. *)
Theorem empty_input_sends_nothing :
  forall (tls : bool) (c : fd) (script : list exchange),
    (forall x, on_input x = Returns [] ->
       chat_loop tls c (x :: script)
       = after [Input (Returns [])] (chat_loop tls c script))
    /\ (forall tr1 tr2,
          trace (chat tls c script) = tr1 ++ Input (Returns []) :: tr2 ->
          (tr2 = [] /\ status_of (chat tls c script) = Blocked)
          \/ exists r tr3, tr2 = Input r :: tr3)
    /\ (forall c' payload r,
          In (Sendall c' payload r) (trace (chat tls c script)) ->
          c' = c
          /\ exists x message,
              In x script /\ on_input x = Returns message
              /\ message <> [] /\ encode_utf8 message = Some payload).
Proof.
  intros tls c script. split; [|split].
  - intros x Hx. now apply chat_loop_empty_input.
  - intros tr1 tr2 H.
    destruct (chat_shape tls c script) as [tail [Htr Htail]].
    rewrite Htr in H.
    assert (Hno : forallb (fun x => negb (is_empty_input x)) tail = true)
      by (destruct Htail as [[-> _] | [_ [-> | ->]]]; reflexivity).
    destruct (located_in_front is_empty_input _ _ Hno _ _ _ H eq_refl) as [m [Hloop ->]].
    destruct (chat_loop_after_empty_input tls c script _ _ _ Hloop eq_refl)
      as [[-> Hst] | [r [tr3 ->]]].
    + destruct Htail as [[-> [_ Hb]] | [Hnb _]]; [auto | contradiction].
    + right. simpl. eauto.
  - intros c' payload r H.
    destruct (chat_shape tls c script) as [tail [Htr Htail]].
    rewrite Htr in H. apply in_app_or in H. destruct H as [H|H].
    + eapply chat_loop_sends_inputs; eauto.
    + exfalso. destruct Htail as [[-> _] | [_ [-> | ->]]]; simpl in H;
        intuition discriminate.
Qed.

Lemma empty_input_sends_nothing_witness :
  let interrupt := mkExc KeyboardInterrupt "" in
  let script := [mkExchange (Returns []) (Returns tt) (Returns []);
                 mkExchange (Raises interrupt) (Returns tt) (Returns [])] in
  trace (chat false 3 script)
  = [] ++ Input (Returns []) :: [Input (Raises interrupt); Print (LClosing false); Close 3]
  /\ exists r tr3,
      [Input (Raises interrupt); Print (LClosing false); Close 3] = Input r :: tr3.
Proof.
  intros interrupt script.
  assert (Htr : trace (chat false 3 script)
                = [] ++ Input (Returns []) ::
                     [Input (Raises interrupt); Print (LClosing false); Close 3])
    by reflexivity.
  split; [exact Htr|].
  destruct (proj1 (proj2 (empty_input_sends_nothing false 3 script)) _ _ Htr)
    as [[Hnil _] | H]; [discriminate Hnil | exact H].
Defined.

(** ** The client decodes what it receives *)

Lemma chat_loop_reply tls c x script message payload data :
  on_input x = Returns message -> message <> [] ->
  encode_utf8 message = Some payload ->
  on_sendall x = Returns tt ->
  on_reply x = Returns data -> data <> [] ->
  let exchanged :=
    [Input (Returns message); Sendall c payload (Returns tt);
     Print (LSent tls (length message)); Recv c 4096 (Returns data)] in
  chat_loop tls c (x :: script)
  = match decode_utf8 data with
    | Some t => after (exchanged ++ [Print (LReceived tls t)]) (chat_loop tls c script)
    | None => raising exchanged unicode_decode_error
    end.
Proof.
  intros Hi Hm He Hs Hr Hd. simpl. rewrite Hi.
  destruct message as [|n message]; [congruence|].
  rewrite He, Hs, Hr.
  destruct data as [|b data]; [congruence|].
  destruct (decode_utf8 (b :: data)); reflexivity.
Qed.

(** Every chunk received in the loop is decoded: its text is printed next,
    or the loop ends there with the decoding error. *)
Lemma chat_loop_decodes tls c script : forall tr1 ev tr2 data,
  trace (chat_loop tls c script) = tr1 ++ ev :: tr2 ->
  reply_of ev = Some data ->
  match decode_utf8 data with
  | Some t => exists tr3, tr2 = Print (LReceived tls t) :: tr3
  | None => tr2 = [] /\ status_of (chat_loop tls c script) = Raised unicode_decode_error
  end.
Proof.
  induction script as [|x script IH]; intros tr1 ev tr2 data H Hev; simpl in H.
  - locate H Hev.
  - simpl. destruct (on_input x) as [[|n message]|e]; simpl in *.
    + locate H Hev. exact (IH _ _ _ _ H Hev).
    + destruct (encode_utf8 (n :: message)) as [payload|]; simpl in *;
        [|locate H Hev].
      destruct (on_sendall x) as [u|e]; simpl in *; [|locate H Hev].
      destruct (on_reply x) as [[|b reply]|e]; simpl in *; try (locate H Hev).
      destruct (decode_utf8 (b :: reply)) as [t|] eqn:Hdec; simpl in *; locate H Hev.
      * injection Hev as <-. rewrite Hdec. subst tr2. eauto.
      * exact (IH _ _ _ _ H Hev).
      * injection Hev as <-. rewrite Hdec. subst tr2. auto.
    + locate H Hev.
Qed.

Lemma chat_decodes tls c script tr1 ev tr2 data :
  trace (chat tls c script) = tr1 ++ ev :: tr2 ->
  reply_of ev = Some data ->
  match decode_utf8 data with
  | Some t => exists tr3, tr2 = Print (LReceived tls t) :: tr3
  | None => tr2 = [Close c] /\ status_of (chat tls c script) = Raised unicode_decode_error
  end.
Proof.
  intros H Hev.
  assert (Hrep : is_reply ev = true) by (unfold is_reply; now rewrite Hev).
  pose proof (chat_loop_decodes tls c script) as Hloop.
  unfold chat, try_finally, try_except in *.
  destruct (chat_loop tls c script) as [tr st]; simpl in *.
  assert (Hcase : forall tail,
             forallb (fun x => negb (is_reply x)) tail = true ->
             tr ++ tail = tr1 ++ ev :: tr2 ->
             match decode_utf8 data with
             | Some t => exists tr3, tr2 = Print (LReceived tls t) :: tr3
             | None => tr2 = tail /\ st = Raised unicode_decode_error
             end).
  { intros tail Htail H'.
    destruct (located_in_front is_reply tr tail Htail _ _ _ H' Hrep) as [m [Htr ->]].
    specialize (Hloop _ _ _ _ Htr Hev).
    destruct (decode_utf8 data) as [t|].
    - destruct Hloop as [tr3 ->]. simpl. eauto.
    - destruct Hloop as [-> ->]. auto. }
  destruct st as [| e | code |]; simpl in H.
  - apply Hcase in H; [|reflexivity].
    destruct (decode_utf8 data); [exact H | destruct H; discriminate].
  - destruct (isinstance e KeyboardInterrupt) eqn:Hki; simpl in H.
    + rewrite <- app_assoc in H. apply Hcase in H; [|reflexivity].
      destruct (decode_utf8 data); [exact H|].
      destruct H as [_ [= ->]]. discriminate Hki.
    + apply Hcase in H; [|reflexivity].
      destruct (decode_utf8 data); [exact H|].
      destruct H as [-> [= ->]]. auto.
  - apply Hcase in H; [|reflexivity].
    destruct (decode_utf8 data); [exact H | destruct H; discriminate].
  - rewrite <- (app_nil_r tr) in H. apply Hcase in H; [|reflexivity].
    destruct (decode_utf8 data); [exact H | destruct H; discriminate].
Qed.

(** C10.  After a message is sent, the client decodes the chunk it receives
    as strict UTF-8 before it prints it.  When the chunk decodes, the text
    is printed and the loop goes on; when it does not, UnicodeDecodeError is
    raised, which the [except KeyboardInterrupt] does not catch: the loop is
    over, the connection is closed by the [finally], and the error leaves
    the driver.  Such chunks exist: the first byte of a two-byte character
    whose second byte comes with the next read. *)
Theorem client_decodes_each_chunk_strictly :
  forall tls c x script message payload data,
    on_input x = Returns message -> message <> [] ->
    encode_utf8 message = Some payload ->
    on_sendall x = Returns tt ->
    on_reply x = Returns data -> data <> [] ->
    let exchanged :=
      [Input (Returns message); Sendall c payload (Returns tt);
       Print (LSent tls (length message)); Recv c 4096 (Returns data)] in
    match decode_utf8 data with
    | Some t =>
        chat_loop tls c (x :: script)
        = after (exchanged ++ [Print (LReceived tls t)]) (chat_loop tls c script)
    | None =>
        chat tls c (x :: script)
        = mkRun (exchanged ++ [Close c]) (Raised unicode_decode_error)
        /\ isinstance unicode_decode_error KeyboardInterrupt = false
        /\ exit_code (status_of (chat tls c (x :: script))) = Some 1%Z
    end
    /\ (forall session tr1 ev tr2 chunk,
          trace (chat tls c session) = tr1 ++ ev :: tr2 ->
          reply_of ev = Some chunk ->
          match decode_utf8 chunk with
          | Some t => exists tr3, tr2 = Print (LReceived tls t) :: tr3
          | None =>
              tr2 = [Close c]
              /\ status_of (chat tls c session) = Raised unicode_decode_error
          end)
    /\ (decode_utf8 [xc3] = None
        /\ decode_utf8 ([xc3] ++ [xa9]) = Some [0xE9%N]
        /\ encode_utf8 [0xE9%N] = Some ([xc3] ++ [xa9])).
Proof.
  intros tls c x script message payload data Hi Hm He Hs Hr Hd exchanged.
  split; [|split; [|repeat split]].
  - pose proof (chat_loop_reply tls c x script message payload data Hi Hm He Hs Hr Hd)
      as Hloop.
    fold exchanged in Hloop.
    destruct (decode_utf8 data) as [t|]; [exact Hloop|].
    unfold chat. rewrite Hloop. repeat split.
  - intros session tr1 ev tr2 chunk. apply chat_decodes.
Qed.

Lemma client_decodes_each_chunk_strictly_witness :
  let x := mkExchange (Returns [0xE9%N]) (Returns tt) (Returns [xc3]) in
  let script := [mkExchange (Returns [0x41%N]) (Returns tt) (Returns [x41])] in
  chat true 3 (x :: script)
  = mkRun [Input (Returns [0xE9%N]); Sendall 3 [xc3; xa9] (Returns tt);
           Print (LSent true 1); Recv 3 4096 (Returns [xc3]); Close 3]
          (Raised unicode_decode_error).
Proof.
  intros x script.
  assert (Hm : [0xE9%N] <> []) by discriminate.
  assert (Hd : [xc3] <> []) by discriminate.
  exact (proj1 (proj1 (client_decodes_each_chunk_strictly
                         true 3 x script [0xE9%N] [xc3; xa9] [xc3]
                         eq_refl Hm eq_refl eq_refl eq_refl Hd))).
Defined.

(** ** The TLS client's connection failures *)

Section ConnectFailures.

Variables (target : address) (c : fd) (script : list exchange).

Let greeting : list event :=
  [LoadVerifyLocations (Returns tt); Print LLoadedCa; Socket c;
   WrapClient c (addr_host target); Print (LConnecting true target)].

Lemma tls_client_untrusted e :
  isinstance e SSLCertVerificationError = true ->
  TlsClient.main target c (Returns tt) (Raises e) script
  = mkRun (greeting ++ [Connect c target (Raises e); Print (LVerificationFailed e)])
          (Exit 1).
Proof.
  intros He. unfold TlsClient.main, and_then, try_except, call. simpl.
  rewrite He. reflexivity.
Qed.

Lemma tls_client_refused e :
  isinstance e ConnectionRefusedError = true ->
  TlsClient.main target c (Returns tt) (Raises e) script
  = mkRun (greeting ++ [Connect c target (Raises e); Print (LRefused true target)])
          (Exit 1).
Proof.
  intros He. unfold TlsClient.main, and_then, try_except, call. simpl.
  assert (Hv : isinstance e SSLCertVerificationError = false).
  { destruct (isinstance e SSLCertVerificationError) eqn:Hv; [|reflexivity].
    apply verification_is_not_refused in Hv. congruence. }
  rewrite Hv, He. reflexivity.
Qed.

End ConnectFailures.

(** The two messages differ whatever the exception says and whatever the
    target is. *)
Lemma failure_texts_differ e tls a :
  failure_text (LVerificationFailed e) <> failure_text (LRefused tls a).
Proof. simpl. discriminate. Qed.

(** C3.  [connect] on the wrapped socket performs the handshake; when the
    certificate does not verify against the loaded CA or the host name
    (tls_client.py:19-20, 83-86) the ssl module raises
    SSLCertVerificationError, and with no listener the kernel answers with
    ConnectionRefusedError.  Whatever exception of the first class [connect]
    raises, the client prints the verification failure and exits with code
    1, having sent and received nothing; whatever exception of the second
    class, it prints the connection-refused message and exits with code 1.
    No exception is of both classes, so neither handler takes the other's
    failure; the two runs differ, and so does the text of the two lines,
    whatever the exceptions say and whatever the target is. *)
Theorem verification_failure_differs_from_refusal :
  forall (target : address) (c : fd) (script : list exchange) (e_v e_r : exc),
    isinstance e_v SSLCertVerificationError = true ->
    isinstance e_r ConnectionRefusedError = true ->
    let greeting :=
      [LoadVerifyLocations (Returns tt); Print LLoadedCa; Socket c;
       WrapClient c (addr_host target); Print (LConnecting true target)] in
    let untrusted := TlsClient.main target c (Returns tt) (Raises e_v) script in
    let absent := TlsClient.main target c (Returns tt) (Raises e_r) script in
    untrusted
    = mkRun (greeting ++ [Connect c target (Raises e_v); Print (LVerificationFailed e_v)])
            (Exit 1)
    /\ absent
       = mkRun (greeting ++ [Connect c target (Raises e_r); Print (LRefused true target)])
               (Exit 1)
    /\ isinstance e_v ConnectionRefusedError = false
    /\ isinstance e_r SSLCertVerificationError = false
    /\ trace untrusted <> trace absent
    /\ failure_text (LVerificationFailed e_v) <> failure_text (LRefused true target).
Proof.
  intros target c script e_v e_r Hv Hr greeting untrusted absent.
  assert (Hvr : isinstance e_v ConnectionRefusedError = false)
    by now apply verification_is_not_refused.
  assert (Hrv : isinstance e_r SSLCertVerificationError = false).
  { destruct (isinstance e_r SSLCertVerificationError) eqn:H; [|reflexivity].
    apply verification_is_not_refused in H. congruence. }
  assert (Hu : untrusted
               = mkRun (greeting ++ [Connect c target (Raises e_v);
                                     Print (LVerificationFailed e_v)]) (Exit 1)).
  { subst untrusted greeting.
    unfold TlsClient.main, and_then, try_except, call. simpl.
    rewrite Hv. reflexivity. }
  assert (Ha : absent
               = mkRun (greeting ++ [Connect c target (Raises e_r);
                                     Print (LRefused true target)]) (Exit 1)).
  { subst absent greeting.
    unfold TlsClient.main, and_then, try_except, call. simpl.
    rewrite Hrv, Hr. reflexivity. }
  split; [exact Hu|]. split; [exact Ha|].
  split; [exact Hvr|]. split; [exact Hrv|].
  split.
  - rewrite Hu, Ha. subst greeting. simpl. intros Heq.
    injection Heq as Heq _. subst e_r. congruence.
  - simpl. discriminate.
Qed.

Lemma verification_failure_differs_from_refusal_witness :
  let target := mkAddress "localhost" 9443 in
  let e_v := mkExc SSLCertVerificationError
               "[SSL: CERTIFICATE_VERIFY_FAILED] certificate verify failed: self-signed certificate" in
  let e_r := mkExc ConnectionRefusedError "[Errno 111] Connection refused" in
  let script := [mkExchange (Returns [0x68%N; 0x69%N]) (Returns tt) (Returns [x68; x69])] in
  TlsClient.main target 3 (Returns tt) (Raises e_v) script
  = mkRun [LoadVerifyLocations (Returns tt); Print LLoadedCa; Socket 3;
           WrapClient 3 "localhost"; Print (LConnecting true target);
           Connect 3 target (Raises e_v); Print (LVerificationFailed e_v)]
          (Exit 1)
  /\ TlsClient.main target 3 (Returns tt) (Raises e_r) script
     = mkRun [LoadVerifyLocations (Returns tt); Print LLoadedCa; Socket 3;
              WrapClient 3 "localhost"; Print (LConnecting true target);
              Connect 3 target (Raises e_r); Print (LRefused true target)]
             (Exit 1).
Proof.
  intros target e_v e_r script.
  destruct (verification_failure_differs_from_refusal
              target 3 script e_v e_r eq_refl eq_refl)
    as [Hu [Ha _]].
  split; [exact Hu | exact Ha].
Defined.

(** ** UTF-8: what is encoded decodes, and only that *)

Section Utf8.

Local Open Scope N_scope.

(** Bits: a multiple of [2 ^ k] and a number below [2 ^ k] share none, so
    their [lor] is their sum. *)
Lemma land_shiftl_low a k x : x < 2 ^ k -> N.land (a * 2 ^ k) x = 0.
Proof.
  intros Hx. apply N.bits_inj_0. intros i. rewrite N.land_spec.
  destruct (N.lt_ge_cases i k) as [Hi | Hi].
  - rewrite <- N.shiftl_mul_pow2, N.shiftl_spec_low by assumption. reflexivity.
  - rewrite <- (N.mod_small x (2 ^ k)) by assumption.
    rewrite N.mod_pow2_bits_high by assumption. apply andb_false_r.
Qed.

Lemma lor_shiftl_low a k x : x < 2 ^ k -> N.lor (a * 2 ^ k) x = a * 2 ^ k + x.
Proof.
  intros Hx. pose proof (land_shiftl_low a k x Hx) as H.
  now rewrite <- N.lxor_lor, <- N.add_nocarry_lxor.
Qed.

Lemma to_N_byte_of_N n : n < 256 -> Byte.to_N (byte_of_N n) = n.
Proof.
  intros Hn. unfold byte_of_N. destruct (Byte.of_N n) as [b|] eqn:E.
  - now apply Byte.to_of_N.
  - apply Byte.of_N_None_iff in E. lia.
Qed.

Lemma mod_hi_lo a m x : x < m -> (a * m + x) mod m = x.
Proof.
  intros Hx. rewrite N.add_comm, N.Div0.mod_add. now apply N.mod_small.
Qed.

Lemma land_63 n : N.land n 0x3F = n mod 64.
Proof. change 0x3F with (N.ones 6). now rewrite N.land_ones. Qed.

Lemma to_N_trail n : Byte.to_N (trail n) = 128 + n mod 64.
Proof.
  unfold trail. rewrite land_63.
  assert (H : n mod 64 < 64) by (apply N.mod_lt; discriminate).
  change 0x80 with (2 * 2 ^ 6). rewrite lor_shiftl_low by exact H.
  apply to_N_byte_of_N. change (2 * 2 ^ 6) with 128. lia.
Qed.

Lemma low6_trail n : low6 (trail n) = n mod 64.
Proof.
  unfold low6. rewrite land_63, to_N_trail.
  assert (H : n mod 64 < 64) by (apply N.mod_lt; discriminate).
  change 128 with (2 * 64). now apply mod_hi_lo.
Qed.

Lemma between_trail n : between 0x80 0xBF (trail n) = true.
Proof.
  unfold between. rewrite to_N_trail.
  assert (H : n mod 64 < 64) by (apply N.mod_lt; discriminate).
  revert H. generalize (n mod 64). intros r H.
  apply andb_true_intro. split; apply N.leb_le; lia.
Qed.

(** Six bits at a time: quotient and remainder by 64. *)
Lemma split64 n : exists q r, n = 64 * q + r /\ r < 64 /\ n / 64 = q /\ n mod 64 = r.
Proof.
  exists (n / 64), (n mod 64). repeat split.
  - apply N.div_mod; discriminate.
  - apply N.mod_lt; discriminate.
Qed.

Lemma shiftr_6 n : N.shiftr n 6 = n / 64.
Proof. now rewrite N.shiftr_div_pow2. Qed.
Lemma shiftr_12 n : N.shiftr n 12 = n / 64 / 64.
Proof. change 12 with (6 + 6). now rewrite <- N.shiftr_shiftr, !shiftr_6. Qed.
Lemma shiftr_18 n : N.shiftr n 18 = n / 64 / 64 / 64.
Proof. change 18 with (12 + 6). now rewrite <- N.shiftr_shiftr, shiftr_12, shiftr_6. Qed.

Lemma lead_byte (a k q : N) :
  q < 2 ^ k -> a * 2 ^ k + q < 256 ->
  Byte.to_N (byte_of_N (N.lor (a * 2 ^ k) q)) = a * 2 ^ k + q.
Proof.
  intros Hq Hb. rewrite lor_shiftl_low by assumption. now apply to_N_byte_of_N.
Qed.

(** One step of the decoder and of the encoder. *)
Lemma decode_utf8_cons b0 t0 :
  decode_utf8 (b0 :: t0) =
      let n0 := Byte.to_N b0 in
      if (n0 <? 0x80)%N then option_map (cons n0) (decode_utf8 t0)
      else if between 0xC2 0xDF b0 then
        match t0 with
        | b1 :: t1 =>
            if between 0x80 0xBF b1 then
              option_map
                (cons (N.lor (N.shiftl (N.land n0 0x1F) 6) (low6 b1)))
                (decode_utf8 t1)
            else None
        | _ => None
        end
      else if between 0xE0 0xEF b0 then
        match t0 with
        | b1 :: b2 :: t2 =>
            if second_of_three b0 b1 && between 0x80 0xBF b2 then
              option_map
                (cons (N.lor (N.shiftl (N.land n0 0x0F) 12)
                         (N.lor (N.shiftl (low6 b1) 6) (low6 b2))))
                (decode_utf8 t2)
            else None
        | _ => None
        end
      else if between 0xF0 0xF4 b0 then
        match t0 with
        | b1 :: b2 :: b3 :: t3 =>
            if second_of_four b0 b1 && between 0x80 0xBF b2 && between 0x80 0xBF b3 then
              option_map
                (cons (N.lor (N.shiftl (N.land n0 0x07) 18)
                         (N.lor (N.shiftl (low6 b1) 12)
                            (N.lor (N.shiftl (low6 b2) 6) (low6 b3)))))
                (decode_utf8 t3)
            else None
        | _ => None
        end
      else None.
Proof. reflexivity. Qed.

Lemma second_of_three_spec b0 b1 :
  second_of_three b0 b1 =
  if Byte.to_N b0 =? 0xE0 then between 0xA0 0xBF b1
  else if Byte.to_N b0 =? 0xED then between 0x80 0x9F b1
  else between 0x80 0xBF b1.
Proof. destruct b0; reflexivity. Qed.

Lemma second_of_four_spec b0 b1 :
  second_of_four b0 b1 =
  if Byte.to_N b0 =? 0xF0 then between 0x90 0xBF b1
  else if Byte.to_N b0 =? 0xF4 then between 0x80 0x8F b1
  else between 0x80 0xBF b1.
Proof. destruct b0; reflexivity. Qed.

(** Deciding a comparison of the decoder from the bounds at hand. *)
Ltac holds :=
  repeat (apply andb_true_intro; split);
  first [apply N.leb_le | apply N.ltb_lt | apply N.eqb_eq]; lia.
Ltac fails :=
  first [ apply N.ltb_ge; lia | apply N.leb_gt; lia | apply N.eqb_neq; lia
        | apply andb_false_iff; left; fails
        | apply andb_false_iff; right; fails ].
Ltac settle c :=
  first [ replace c with true by (symmetry; holds)
        | replace c with false by (symmetry; fails) ].

(** The decoder reads back each of the four forms the encoder writes. *)
Lemma decode_one_byte cp rest :
  cp < 0x80 ->
  decode_utf8 ([byte_of_N cp] ++ rest) = option_map (cons cp) (decode_utf8 rest).
Proof.
  intros H. cbn [app]. rewrite decode_utf8_cons. cbv zeta.
  rewrite to_N_byte_of_N by lia.
  settle (cp <? 0x80). reflexivity.
Qed.

Lemma decode_two_bytes cp rest :
  0x80 <= cp -> cp < 0x800 ->
  decode_utf8 ([byte_of_N (N.lor 0xC0 (N.shiftr cp 6)); trail cp] ++ rest)
  = option_map (cons cp) (decode_utf8 rest).
Proof.
  intros Hlo Hhi. cbn [app]. rewrite decode_utf8_cons. cbv zeta.
  rewrite between_trail, low6_trail, shiftr_6.
  destruct (split64 cp) as [q1 [r0 [Hcp [Hr0 [-> ->]]]]].
  unfold between.
  change 0xC0 with (6 * 2 ^ 5). rewrite lead_byte by (change (2 ^ 5) with 32; lia).
  change (6 * 2 ^ 5) with 192.
  settle (192 + q1 <? 0x80).
  settle ((0xC2 <=? 192 + q1) && (192 + q1 <=? 0xDF)).
  change 0x1F with (N.ones 5). rewrite N.land_ones. change (2 ^ 5) with 32.
  replace (192 + q1) with (6 * 32 + q1) by lia. rewrite mod_hi_lo by lia.
  rewrite N.shiftl_mul_pow2, lor_shiftl_low by (change (2 ^ 6) with 64; lia).
  change (2 ^ 6) with 64. replace (q1 * 64 + r0) with cp by lia. reflexivity.
Qed.

Ltac settle_all :=
  repeat (match goal with
          | |- context [if ?c then _ else _] => settle c
          end; cbv iota).

Lemma decode_three_bytes cp rest :
  0x800 <= cp -> cp < 0x10000 -> is_surrogate cp = false ->
  decode_utf8 ([byte_of_N (N.lor 0xE0 (N.shiftr cp 12)); trail (N.shiftr cp 6); trail cp]
               ++ rest)
  = option_map (cons cp) (decode_utf8 rest).
Proof.
  intros Hlo Hhi Hsur. cbn [app]. rewrite decode_utf8_cons. cbv zeta.
  rewrite second_of_three_spec. unfold between.
  rewrite !low6_trail, !to_N_trail, shiftr_6, shiftr_12.
  destruct (split64 cp) as [q1 [r0 [Hcp [Hr0 [-> ->]]]]].
  destruct (split64 q1) as [q2 [r1 [Hq1 [Hr1 [-> ->]]]]].
  unfold is_surrogate in Hsur. apply andb_false_iff in Hsur.
  rewrite N.leb_gt, N.leb_gt in Hsur.
  change (N.lor 0xE0 q2) with (N.lor (14 * 2 ^ 4) q2).
  rewrite lead_byte by (change (2 ^ 4) with 16; lia).
  change (14 * 2 ^ 4) with 224.
  assert (Hval : N.lor (N.shiftl (N.land (224 + q2) 0x0F) 12)
                   (N.lor (N.shiftl r1 6) r0) = cp).
  { change 0x0F with (N.ones 4). rewrite N.land_ones. change (2 ^ 4) with 16.
    replace (224 + q2) with (14 * 16 + q2) by lia. rewrite mod_hi_lo by lia.
    rewrite !N.shiftl_mul_pow2.
    rewrite (lor_shiftl_low r1 6 r0) by (change (2 ^ 6) with 64; lia).
    rewrite lor_shiftl_low by (change (2 ^ 6) with 64; change (2 ^ 12) with 4096; lia).
    change (2 ^ 6) with 64. change (2 ^ 12) with 4096. lia. }
  rewrite Hval.
  destruct (N.eq_dec q2 0) as [E0 | E0]; [|destruct (N.eq_dec q2 13) as [E13 | E13]];
    settle_all; reflexivity.
Qed.

Lemma decode_four_bytes cp rest :
  0x10000 <= cp -> cp < 0x110000 ->
  decode_utf8 ([byte_of_N (N.lor 0xF0 (N.shiftr cp 18)); trail (N.shiftr cp 12);
                trail (N.shiftr cp 6); trail cp] ++ rest)
  = option_map (cons cp) (decode_utf8 rest).
Proof.
  intros Hlo Hhi. cbn [app]. rewrite decode_utf8_cons. cbv zeta.
  rewrite second_of_four_spec. unfold between.
  rewrite !low6_trail, !to_N_trail, shiftr_6, shiftr_12, shiftr_18.
  destruct (split64 cp) as [q1 [r0 [Hcp [Hr0 [-> ->]]]]].
  destruct (split64 q1) as [q2 [r1 [Hq1 [Hr1 [-> ->]]]]].
  destruct (split64 q2) as [q3 [r2 [Hq2 [Hr2 [-> ->]]]]].
  change (N.lor 0xF0 q3) with (N.lor (30 * 2 ^ 3) q3).
  rewrite lead_byte by (change (2 ^ 3) with 8; lia).
  change (30 * 2 ^ 3) with 240.
  assert (Hval : N.lor (N.shiftl (N.land (240 + q3) 0x07) 18)
                   (N.lor (N.shiftl r2 12) (N.lor (N.shiftl r1 6) r0)) = cp).
  { change 0x07 with (N.ones 3). rewrite N.land_ones. change (2 ^ 3) with 8.
    replace (240 + q3) with (30 * 8 + q3) by lia. rewrite mod_hi_lo by lia.
    rewrite !N.shiftl_mul_pow2.
    rewrite (lor_shiftl_low r1 6 r0) by (change (2 ^ 6) with 64; lia).
    rewrite (lor_shiftl_low r2 12)
      by (change (2 ^ 6) with 64; change (2 ^ 12) with 4096; lia).
    rewrite lor_shiftl_low
      by (change (2 ^ 6) with 64; change (2 ^ 12) with 4096;
          change (2 ^ 18) with 262144; lia).
    change (2 ^ 6) with 64. change (2 ^ 12) with 4096. change (2 ^ 18) with 262144.
    lia. }
  rewrite Hval.
  destruct (N.eq_dec q3 0) as [E0 | E0]; [|destruct (N.eq_dec q3 4) as [E4 | E4]];
    settle_all; reflexivity.
Qed.

Lemma decode_encoded_code_point cp bs rest :
  encode_code_point cp = Some bs ->
  decode_utf8 (bs ++ rest) = option_map (cons cp) (decode_utf8 rest).
Proof.
  unfold encode_code_point.
  destruct (cp <? 0x80) eqn:H1; [intros [= <-]; apply decode_one_byte; now apply N.ltb_lt|].
  apply N.ltb_ge in H1.
  destruct (cp <? 0x800) eqn:H2;
    [intros [= <-]; apply decode_two_bytes; [assumption | now apply N.ltb_lt]|].
  apply N.ltb_ge in H2.
  destruct (cp <? 0x10000) eqn:H3.
  - destruct (is_surrogate cp) eqn:Hs; [discriminate|].
    intros [= <-]. apply decode_three_bytes; [assumption | now apply N.ltb_lt | assumption].
  - apply N.ltb_ge in H3.
    destruct (cp <? 0x110000) eqn:H4; [|discriminate].
    intros [= <-]. apply decode_four_bytes; [assumption | now apply N.ltb_lt].
Qed.

Lemma encode_utf8_cons cp t :
  encode_utf8 (cp :: t)
  = match encode_code_point cp, encode_utf8 t with
    | Some b, Some bs => Some (b ++ bs)
    | _, _ => None
    end.
Proof. reflexivity. Qed.

Lemma utf8_round_trip t : forall bs,
  encode_utf8 t = Some bs -> decode_utf8 bs = Some t.
Proof.
  induction t as [|cp t IH]; intros bs H.
  - injection H as <-. reflexivity.
  - rewrite encode_utf8_cons in H.
    destruct (encode_code_point cp) as [b|] eqn:Hcp; [|discriminate].
    destruct (encode_utf8 t) as [bs'|] eqn:Ht; [|discriminate].
    injection H as <-.
    rewrite (decode_encoded_code_point cp b bs' Hcp), (IH bs' eq_refl). reflexivity.
Qed.

(** Decoding goes through a concatenation whose first part decodes. *)
Lemma option_map_app_nil (o : option text) : option_map (app []) o = o.
Proof. now destruct o. Qed.

Lemma decode_utf8_app_bounded (n : nat) : forall bs1 t1 bs2,
  (length bs1 <= n)%nat ->
  decode_utf8 bs1 = Some t1 ->
  decode_utf8 (bs1 ++ bs2) = option_map (app t1) (decode_utf8 bs2).
Proof.
  induction n as [|n IH]; intros bs1 t1 bs2 Hlen H.
  - destruct bs1; [|simpl in Hlen; lia]. injection H as <-.
    simpl. now rewrite option_map_app_nil.
  - destruct bs1 as [|b0 t0].
    { injection H as <-. simpl. now rewrite option_map_app_nil. }
    assert (Hstep : forall cp tail,
               (length tail <= n)%nat ->
               option_map (cons cp) (decode_utf8 tail) = Some t1 ->
               option_map (cons cp) (decode_utf8 (tail ++ bs2))
               = option_map (app t1) (decode_utf8 bs2)).
    { intros cp tail Htail Hdec.
      destruct (decode_utf8 tail) as [t|] eqn:Ht; [|discriminate].
      injection Hdec as <-. rewrite (IH tail t bs2 Htail Ht).
      now destruct (decode_utf8 bs2). }
    cbn [app]. rewrite decode_utf8_cons in *. cbv zeta in *.
    simpl in Hlen.
    destruct (Byte.to_N b0 <? 0x80); [apply Hstep; [lia | exact H]|].
    destruct (between 0xC2 0xDF b0).
    { destruct t0 as [|b1 t1']; [discriminate|]. cbn [app]. simpl in Hlen.
      destruct (between 0x80 0xBF b1); [|discriminate].
      apply Hstep; [lia | exact H]. }
    destruct (between 0xE0 0xEF b0).
    { destruct t0 as [|b1 [|b2 t2]]; try discriminate. cbn [app]. simpl in Hlen.
      destruct (second_of_three b0 b1 && between 0x80 0xBF b2); [|discriminate].
      apply Hstep; [lia | exact H]. }
    destruct (between 0xF0 0xF4 b0); [|discriminate].
    destruct t0 as [|b1 [|b2 [|b3 t3]]]; try discriminate. cbn [app]. simpl in Hlen.
    destruct (second_of_four b0 b1 && between 0x80 0xBF b2 && between 0x80 0xBF b3);
      [|discriminate].
    apply Hstep; [lia | exact H].
Qed.

(** The encoder writes back each of the four forms the decoder accepts. *)
Lemma byte_of_to_N b : byte_of_N (Byte.to_N b) = b.
Proof. unfold byte_of_N. now rewrite Byte.of_to_N. Qed.

Lemma byte_of_N_eq n b : n = Byte.to_N b -> byte_of_N n = b.
Proof. intros ->. apply byte_of_to_N. Qed.

Lemma between_bounds lo hi b :
  between lo hi b = true -> lo <= Byte.to_N b /\ Byte.to_N b <= hi.
Proof.
  unfold between. intros H. apply andb_prop in H. destruct H as [H1 H2].
  split; now apply N.leb_le.
Qed.

Lemma div_mod_64 h l : l < 64 -> (64 * h + l) / 64 = h /\ (64 * h + l) mod 64 = l.
Proof.
  intros Hl. split.
  - symmetry. apply (N.div_unique _ 64 h l); [assumption | reflexivity].
  - symmetry. apply (N.mod_unique _ 64 h l); [assumption | reflexivity].
Qed.

(** A byte [10xxxxxx] is the [trail] of any number whose low six bits it
    carries. *)
Lemma trail_eq n b l : l < 64 -> n mod 64 = l -> Byte.to_N b = 128 + l -> trail n = b.
Proof.
  intros Hl Hn Hb. unfold trail. rewrite land_63, Hn.
  change 0x80 with (2 * 2 ^ 6). rewrite lor_shiftl_low by exact Hl.
  apply byte_of_N_eq. change (2 * 2 ^ 6) with 128. now rewrite Hb.
Qed.

Lemma lead_eq (a k : N) q b :
  q < 2 ^ k -> Byte.to_N b = a * 2 ^ k + q -> byte_of_N (N.lor (a * 2 ^ k) q) = b.
Proof.
  intros Hq Hb. rewrite lor_shiftl_low by exact Hq. now apply byte_of_N_eq.
Qed.

Lemma low6_of b l : l < 64 -> Byte.to_N b = 128 + l -> low6 b = l.
Proof.
  intros Hl Hb. unfold low6. rewrite land_63, Hb. change 128 with (2 * 64).
  now apply mod_hi_lo.
Qed.

Lemma encode_decoded_1 b0 :
  Byte.to_N b0 < 0x80 -> encode_code_point (Byte.to_N b0) = Some [b0].
Proof.
  intros H. unfold encode_code_point. settle (Byte.to_N b0 <? 0x80).
  now rewrite byte_of_to_N.
Qed.

Lemma encode_decoded_2 b0 b1 :
  between 0xC2 0xDF b0 = true -> between 0x80 0xBF b1 = true ->
  encode_code_point (N.lor (N.shiftl (N.land (Byte.to_N b0) 0x1F) 6) (low6 b1))
  = Some [b0; b1].
Proof.
  intros H0 H1. apply between_bounds in H0, H1.
  assert (E0 : exists h, Byte.to_N b0 = 192 + h /\ 2 <= h /\ h < 32)
    by (exists (Byte.to_N b0 - 192); lia).
  assert (E1 : exists l, Byte.to_N b1 = 128 + l /\ l < 64)
    by (exists (Byte.to_N b1 - 128); lia).
  destruct E0 as [h [Hb0 [Hh1 Hh2]]]. destruct E1 as [l [Hb1 Hl]].
  rewrite (low6_of b1 l Hl Hb1), Hb0.
  change 0x1F with (N.ones 5). rewrite N.land_ones. change (2 ^ 5) with 32.
  replace (192 + h) with (6 * 32 + h) by lia. rewrite mod_hi_lo by lia.
  rewrite N.shiftl_mul_pow2, lor_shiftl_low by (change (2 ^ 6) with 64; lia).
  change (2 ^ 6) with 64. replace (h * 64 + l) with (64 * h + l) by lia.
  destruct (div_mod_64 h l Hl) as [Hdiv Hmod].
  unfold encode_code_point.
  settle (64 * h + l <? 0x80). settle (64 * h + l <? 0x800).
  rewrite shiftr_6, Hdiv.
  change (N.lor 0xC0 h) with (N.lor (6 * 2 ^ 5) h).
  rewrite (lead_eq 6 5 h b0) by (change (2 ^ 5) with 32; lia).
  rewrite (trail_eq (64 * h + l) b1 l Hl Hmod Hb1). reflexivity.
Qed.

Lemma encode_decoded_3 b0 b1 b2 :
  between 0xE0 0xEF b0 = true ->
  second_of_three b0 b1 = true -> between 0x80 0xBF b2 = true ->
  encode_code_point
    (N.lor (N.shiftl (N.land (Byte.to_N b0) 0x0F) 12)
       (N.lor (N.shiftl (low6 b1) 6) (low6 b2)))
  = Some [b0; b1; b2].
Proof.
  intros H0 H1 H2. apply between_bounds in H0, H2.
  assert (E0 : exists h, Byte.to_N b0 = 224 + h /\ h < 16)
    by (exists (Byte.to_N b0 - 224); lia).
  destruct E0 as [h [Hb0 Hh]].
  assert (E1 : exists m, Byte.to_N b1 = 128 + m /\ m < 64
                         /\ (h = 0 -> 32 <= m) /\ (h = 13 -> m < 32)).
  { rewrite second_of_three_spec, Hb0 in H1.
    destruct (N.eq_dec h 0) as [-> | Hn0].
    - change (224 + 0 =? 0xE0) with true in H1. cbv iota in H1.
      apply between_bounds in H1. exists (Byte.to_N b1 - 128). lia.
    - replace (224 + h =? 0xE0) with false in H1 by (symmetry; apply N.eqb_neq; lia).
      destruct (N.eq_dec h 13) as [-> | Hn13].
      + change (224 + 13 =? 0xED) with true in H1. cbv iota in H1.
        apply between_bounds in H1. exists (Byte.to_N b1 - 128). lia.
      + replace (224 + h =? 0xED) with false in H1 by (symmetry; apply N.eqb_neq; lia).
        apply between_bounds in H1. exists (Byte.to_N b1 - 128). lia. }
  assert (E2 : exists l, Byte.to_N b2 = 128 + l /\ l < 64)
    by (exists (Byte.to_N b2 - 128); lia).
  destruct E1 as [m [Hb1 [Hm [Hm0 Hm13]]]]. destruct E2 as [l [Hb2 Hl]].
  rewrite (low6_of b1 m Hm Hb1), (low6_of b2 l Hl Hb2), Hb0.
  change 0x0F with (N.ones 4). rewrite N.land_ones. change (2 ^ 4) with 16.
  replace (224 + h) with (14 * 16 + h) by lia. rewrite mod_hi_lo by lia.
  rewrite !N.shiftl_mul_pow2.
  rewrite (lor_shiftl_low m 6 l) by (change (2 ^ 6) with 64; lia).
  rewrite lor_shiftl_low by (change (2 ^ 6) with 64; change (2 ^ 12) with 4096; lia).
  change (2 ^ 6) with 64. change (2 ^ 12) with 4096.
  replace (h * 4096 + (m * 64 + l)) with (64 * (64 * h + m) + l) by lia.
  destruct (div_mod_64 (64 * h + m) l Hl) as [Hdiv Hmod].
  destruct (div_mod_64 h m Hm) as [Hdiv' Hmod'].
  unfold encode_code_point, is_surrogate.
  set (cp := 64 * (64 * h + m) + l) in *.
  assert (Hcp : cp = 64 * (64 * h + m) + l) by reflexivity.
  settle (cp <? 0x80). settle (cp <? 0x800). settle (cp <? 0x10000).
  assert (Hs : (0xD800 <=? cp) && (cp <=? 0xDFFF) = false).
  { apply andb_false_iff. destruct (N.le_gt_cases 14 h).
    - right. apply N.leb_gt. lia.
    - left. apply N.leb_gt. lia. }
  rewrite Hs.
  rewrite shiftr_12, shiftr_6, Hdiv, Hdiv'.
  change (N.lor 0xE0 h) with (N.lor (14 * 2 ^ 4) h).
  rewrite (lead_eq 14 4 h b0) by (change (2 ^ 4) with 16; lia).
  rewrite (trail_eq (64 * h + m) b1 m Hm Hmod' Hb1).
  rewrite (trail_eq cp b2 l Hl Hmod Hb2). reflexivity.
Qed.

Lemma encode_decoded_4 b0 b1 b2 b3 :
  between 0xF0 0xF4 b0 = true ->
  second_of_four b0 b1 = true ->
  between 0x80 0xBF b2 = true -> between 0x80 0xBF b3 = true ->
  encode_code_point
    (N.lor (N.shiftl (N.land (Byte.to_N b0) 0x07) 18)
       (N.lor (N.shiftl (low6 b1) 12)
          (N.lor (N.shiftl (low6 b2) 6) (low6 b3))))
  = Some [b0; b1; b2; b3].
Proof.
  intros H0 H1 H2 H3. apply between_bounds in H0, H2, H3.
  assert (E0 : exists h, Byte.to_N b0 = 240 + h /\ h <= 4)
    by (exists (Byte.to_N b0 - 240); lia).
  destruct E0 as [h [Hb0 Hh]].
  assert (E1 : exists k, Byte.to_N b1 = 128 + k /\ k < 64
                         /\ (h = 0 -> 16 <= k) /\ (h = 4 -> k < 16)).
  { rewrite second_of_four_spec, Hb0 in H1.
    destruct (N.eq_dec h 0) as [-> | Hn0].
    - change (240 + 0 =? 0xF0) with true in H1. cbv iota in H1.
      apply between_bounds in H1. exists (Byte.to_N b1 - 128). lia.
    - replace (240 + h =? 0xF0) with false in H1 by (symmetry; apply N.eqb_neq; lia).
      destruct (N.eq_dec h 4) as [-> | Hn4].
      + change (240 + 4 =? 0xF4) with true in H1. cbv iota in H1.
        apply between_bounds in H1. exists (Byte.to_N b1 - 128). lia.
      + replace (240 + h =? 0xF4) with false in H1 by (symmetry; apply N.eqb_neq; lia).
        apply between_bounds in H1. exists (Byte.to_N b1 - 128). lia. }
  assert (E2 : exists m, Byte.to_N b2 = 128 + m /\ m < 64)
    by (exists (Byte.to_N b2 - 128); lia).
  assert (E3 : exists l, Byte.to_N b3 = 128 + l /\ l < 64)
    by (exists (Byte.to_N b3 - 128); lia).
  destruct E1 as [k [Hb1 [Hk [Hk0 Hk4]]]].
  destruct E2 as [m [Hb2 Hm]]. destruct E3 as [l [Hb3 Hl]].
  rewrite (low6_of b1 k Hk Hb1), (low6_of b2 m Hm Hb2), (low6_of b3 l Hl Hb3), Hb0.
  change 0x07 with (N.ones 3). rewrite N.land_ones. change (2 ^ 3) with 8.
  replace (240 + h) with (30 * 8 + h) by lia. rewrite mod_hi_lo by lia.
  rewrite !N.shiftl_mul_pow2.
  rewrite (lor_shiftl_low m 6 l) by (change (2 ^ 6) with 64; lia).
  rewrite (lor_shiftl_low k 12)
    by (change (2 ^ 6) with 64; change (2 ^ 12) with 4096; lia).
  rewrite lor_shiftl_low
    by (change (2 ^ 6) with 64; change (2 ^ 12) with 4096;
        change (2 ^ 18) with 262144; lia).
  change (2 ^ 6) with 64. change (2 ^ 12) with 4096. change (2 ^ 18) with 262144.
  replace (h * 262144 + (k * 4096 + (m * 64 + l)))
    with (64 * (64 * (64 * h + k) + m) + l) by lia.
  destruct (div_mod_64 (64 * (64 * h + k) + m) l Hl) as [Hdiv Hmod].
  destruct (div_mod_64 (64 * h + k) m Hm) as [Hdiv' Hmod'].
  destruct (div_mod_64 h k Hk) as [Hdiv'' Hmod''].
  unfold encode_code_point.
  set (cp := 64 * (64 * (64 * h + k) + m) + l) in *.
  assert (Hcp : cp = 64 * (64 * (64 * h + k) + m) + l) by reflexivity.
  settle (cp <? 0x80). settle (cp <? 0x800). settle (cp <? 0x10000).
  settle (cp <? 0x110000).
  rewrite shiftr_18, shiftr_12, shiftr_6, Hdiv, Hdiv', Hdiv''.
  change (N.lor 0xF0 h) with (N.lor (30 * 2 ^ 3) h).
  rewrite (lead_eq 30 3 h b0) by (change (2 ^ 3) with 8; lia).
  rewrite (trail_eq (64 * h + k) b1 k Hk Hmod'' Hb1).
  rewrite (trail_eq (64 * (64 * h + k) + m) b2 m Hm Hmod' Hb2).
  rewrite (trail_eq cp b3 l Hl Hmod Hb3). reflexivity.
Qed.

Lemma utf8_decoded_encodes_bounded (n : nat) : forall bs t,
  (length bs <= n)%nat ->
  decode_utf8 bs = Some t -> encode_utf8 t = Some bs.
Proof.
  induction n as [|n IH]; intros bs t Hlen H.
  - destruct bs; [|simpl in Hlen; lia]. injection H as <-. reflexivity.
  - destruct bs as [|b0 t0]; [injection H as <-; reflexivity|].
    assert (Hstep : forall cp head tail,
               (length tail <= n)%nat ->
               encode_code_point cp = Some head ->
               option_map (cons cp) (decode_utf8 tail) = Some t ->
               encode_utf8 t = Some (head ++ tail)).
    { intros cp head tail Htail Hcp Hdec.
      destruct (decode_utf8 tail) as [t'|] eqn:Ht; [|discriminate].
      injection Hdec as <-.
      now rewrite encode_utf8_cons, Hcp, (IH tail t' Htail Ht). }
    rewrite decode_utf8_cons in H. cbv zeta in H. simpl in Hlen.
    destruct (Byte.to_N b0 <? 0x80) eqn:C1.
    { eapply (Hstep _ [b0] t0); [lia | | exact H].
      apply encode_decoded_1. now apply N.ltb_lt. }
    destruct (between 0xC2 0xDF b0) eqn:C2.
    { destruct t0 as [|b1 t1]; [discriminate|]. simpl in Hlen.
      destruct (between 0x80 0xBF b1) eqn:D1; [|discriminate].
      eapply (Hstep _ [b0; b1] t1); [lia | | exact H].
      now apply encode_decoded_2. }
    destruct (between 0xE0 0xEF b0) eqn:C3.
    { destruct t0 as [|b1 [|b2 t2]]; try discriminate. simpl in Hlen.
      destruct (second_of_three b0 b1) eqn:D1; [|discriminate].
      destruct (between 0x80 0xBF b2) eqn:D2; [|discriminate].
      eapply (Hstep _ [b0; b1; b2] t2); [lia | | exact H].
      now apply encode_decoded_3. }
    destruct (between 0xF0 0xF4 b0) eqn:C4; [|discriminate].
    destruct t0 as [|b1 [|b2 [|b3 t3]]]; try discriminate. simpl in Hlen.
    destruct (second_of_four b0 b1) eqn:D1; [|discriminate].
    destruct (between 0x80 0xBF b2) eqn:D2; [|discriminate].
    destruct (between 0x80 0xBF b3) eqn:D3; [|discriminate].
    eapply (Hstep _ [b0; b1; b2; b3] t3); [lia | | exact H].
    now apply encode_decoded_4.
Qed.

(** What the encoder accepts, and how many bytes it writes. *)
Lemma encode_code_point_scalar cp :
  (exists bs, encode_code_point cp = Some bs) <-> is_scalar cp = true.
Proof.
  unfold encode_code_point, is_scalar, is_surrogate.
  destruct (cp <? 0x80) eqn:H1.
  { apply N.ltb_lt in H1. split; [intros _ | eauto].
    settle (cp <? 0x110000). settle ((0xD800 <=? cp) && (cp <=? 0xDFFF)). reflexivity. }
  apply N.ltb_ge in H1. destruct (cp <? 0x800) eqn:H2.
  { apply N.ltb_lt in H2. split; [intros _ | eauto].
    settle (cp <? 0x110000). settle ((0xD800 <=? cp) && (cp <=? 0xDFFF)). reflexivity. }
  apply N.ltb_ge in H2. destruct (cp <? 0x10000) eqn:H3.
  { apply N.ltb_lt in H3. settle (cp <? 0x110000).
    destruct ((0xD800 <=? cp) && (cp <=? 0xDFFF)); simpl.
    - split; [intros [bs Hbs]; discriminate | discriminate].
    - split; eauto. }
  apply N.ltb_ge in H3.
  replace ((0xD800 <=? cp) && (cp <=? 0xDFFF)) with false by (symmetry; fails).
  destruct (cp <? 0x110000); simpl; split; eauto; try discriminate.
  intros [bs Hbs]. discriminate.
Qed.

Lemma encode_code_point_length cp bs :
  encode_code_point cp = Some bs ->
  (1 <= length bs <= 4)%nat /\ (length bs = 1%nat <-> is_ascii cp = true).
Proof.
  unfold encode_code_point, is_ascii.
  destruct (cp <? 0x80); [intros [= <-]; simpl; intuition lia|].
  destruct (cp <? 0x800); [intros [= <-]; simpl; intuition (lia || discriminate)|].
  destruct (cp <? 0x10000).
  - destruct (is_surrogate cp); [discriminate|].
    intros [= <-]; simpl; intuition (lia || discriminate).
  - destruct (cp <? 0x110000); [|discriminate].
    intros [= <-]; simpl; intuition (lia || discriminate).
Qed.

End Utf8.

Lemma encode_utf8_length t : forall bs,
  encode_utf8 t = Some bs ->
  length t <= length bs <= 4 * length t
  /\ (length bs = length t <-> forallb is_ascii t = true).
Proof.
  induction t as [|cp t IH]; intros bs H.
  - injection H as <-. simpl. intuition lia.
  - rewrite encode_utf8_cons in H.
    destruct (encode_code_point cp) as [b|] eqn:Hcp; [|discriminate].
    destruct (encode_utf8 t) as [bs'|] eqn:Ht; [|discriminate].
    injection H as <-.
    destruct (encode_code_point_length cp b Hcp) as [Hb Hascii].
    destruct (IH bs' eq_refl) as [Hlen Hall].
    rewrite length_app.
    change (forallb is_ascii (cp :: t)) with (is_ascii cp && forallb is_ascii t).
    change (length (cp :: t)) with (S (length t)).
    rewrite andb_true_iff, <- Hascii, <- Hall.
    split; lia.
Qed.

Lemma encode_utf8_scalar t :
  (exists bs, encode_utf8 t = Some bs) <-> forallb is_scalar t = true.
Proof.
  induction t as [|cp t IH];
    [split; [reflexivity | intros _; exists []; reflexivity]|].
  change (forallb is_scalar (cp :: t)) with (is_scalar cp && forallb is_scalar t).
  rewrite andb_true_iff, <- IH, <- encode_code_point_scalar.
  rewrite encode_utf8_cons. split.
  - intros [bs H].
    destruct (encode_code_point cp) as [b|]; [|discriminate].
    destruct (encode_utf8 t) as [bs'|]; [|discriminate]. eauto.
  - intros [[b Hb] [bs' Hbs']]. rewrite Hb, Hbs'. eauto.
Qed.

(** X1.  What [str.encode("utf-8")] writes, [bytes.decode("utf-8")] reads
    back: whenever a text can be encoded, decoding the bytes returns the
    text. *)
Theorem utf8_encode_then_decode :
  forall (t : text) (bs : bytes),
    encode_utf8 t = Some bs -> decode_utf8 bs = Some t.
Proof.
  induction t as [|cp t IH]; intros bs H.
  - injection H as <-. reflexivity.
  - rewrite encode_utf8_cons in H.
    destruct (encode_code_point cp) as [b|] eqn:Hcp; [|discriminate].
    destruct (encode_utf8 t) as [bs'|] eqn:Ht; [|discriminate].
    injection H as <-.
    rewrite (decode_encoded_code_point cp b bs' Hcp), (IH bs' eq_refl).
    reflexivity.
Qed.

Lemma utf8_encode_then_decode_witness :
  let t := [0x68; 0xE9; 0x20AC; 0x1F600]%N in
  let bs := [x68; xc3; xa9; xe2; x82; xac; xf0; x9f; x98; x80] in
  encode_utf8 t = Some bs /\ decode_utf8 bs = Some t.
Proof.
  intros t bs.
  assert (H : encode_utf8 t = Some bs) by reflexivity.
  split; [exact H | exact (utf8_encode_then_decode t bs H)].
Defined.

(** X2.  The strict decoder accepts canonical encodings only: bytes that
    decode are the encoding of the text they decode to, so no overlong form,
    surrogate or value above U+10FFFF gets through, and two different chunks
    never decode to the same text. *)
Theorem utf8_decode_then_encode :
  forall (bs : bytes) (t : text),
    decode_utf8 bs = Some t ->
    encode_utf8 t = Some bs
    /\ forallb is_scalar t = true
    /\ (forall bs', decode_utf8 bs' = Some t -> bs' = bs).
Proof.
  intros bs t H.
  assert (He : encode_utf8 t = Some bs)
    by (apply (utf8_decoded_encodes_bounded (length bs)); [apply le_n | exact H]).
  split; [exact He|]. split.
  - apply encode_utf8_scalar. eauto.
  - intros bs' H'.
    assert (He' : encode_utf8 t = Some bs')
      by (apply (utf8_decoded_encodes_bounded (length bs')); [apply le_n | exact H']).
    congruence.
Qed.

Lemma utf8_decode_then_encode_witness :
  let bs := [xe2; x82; xac; x21] in
  let t := [0x20AC; 0x21]%N in
  decode_utf8 bs = Some t /\ encode_utf8 t = Some bs.
Proof.
  intros bs t.
  assert (H : decode_utf8 bs = Some t) by reflexivity.
  split; [exact H | exact (proj1 (utf8_decode_then_encode bs t H))].
Defined.

(** X3.  Decoding goes chunk by chunk when the cuts fall between
    characters: after a chunk that decodes, the rest of the stream decodes on
    its own, and the texts are concatenated; in particular two chunks that
    decode separately decode together to the same text. *)
Theorem utf8_decode_concatenation :
  forall (bs1 bs2 : bytes) (t1 : text),
    decode_utf8 bs1 = Some t1 ->
    decode_utf8 (bs1 ++ bs2) = option_map (app t1) (decode_utf8 bs2)
    /\ (forall t2, decode_utf8 bs2 = Some t2 ->
                   decode_utf8 (bs1 ++ bs2) = Some (t1 ++ t2)).
Proof.
  intros bs1 bs2 t1 H.
  assert (Happ : decode_utf8 (bs1 ++ bs2) = option_map (app t1) (decode_utf8 bs2))
    by (apply (decode_utf8_app_bounded (length bs1)); [apply le_n | exact H]).
  split; [exact Happ|]. intros t2 H2. now rewrite Happ, H2.
Qed.

Lemma utf8_decode_concatenation_witness :
  let bs1 := [x68; xc3; xa9] in
  let bs2 := [xe2; x82; xac] in
  decode_utf8 bs1 = Some [0x68; 0xE9]%N
  /\ decode_utf8 (bs1 ++ bs2) = Some ([0x68; 0xE9] ++ [0x20AC])%N.
Proof.
  intros bs1 bs2.
  assert (H : decode_utf8 bs1 = Some [0x68; 0xE9]%N) by reflexivity.
  split; [exact H|].
  exact (proj2 (utf8_decode_concatenation bs1 bs2 _ H) [0x20AC%N] eq_refl).
Defined.

(** ** Every way out of a session handler *)

Section HandlerExits.

Variables (c : fd) (a : address).

(** In the loops a call that raises is the last event, and its exception is
    what the loop raises. *)
Lemma tcp_loop_failed_call script : forall tr1 ev tr2 e,
  trace (TcpServer.echo_loop c a script) = tr1 ++ ev :: tr2 ->
  failed_call ev = Some e ->
  tr2 = [] /\ status_of (TcpServer.echo_loop c a script) = Raised e.
Proof.
  induction script as [|r script IH]; intros tr1 ev tr2 e H Hev; simpl in H.
  - locate H Hev.
  - simpl. destruct (on_recv r) as [[|b data]|e']; simpl in *.
    + locate H Hev.
    + destruct (on_send r) as [u|e']; simpl in *.
      * locate H Hev. eauto.
      * locate H Hev. injection Hev as <-. subst. auto.
    + locate H Hev. injection Hev as <-. subst. auto.
Qed.

Lemma tls_loop_failed_call script : forall tr1 ev tr2 e,
  trace (TlsServer.echo_loop c a script) = tr1 ++ ev :: tr2 ->
  failed_call ev = Some e ->
  tr2 = [] /\ status_of (TlsServer.echo_loop c a script) = Raised e.
Proof.
  induction script as [|r script IH]; intros tr1 ev tr2 e H Hev; simpl in H.
  - locate H Hev.
  - simpl. destruct (on_recv r) as [[|b data]|e']; simpl in *.
    + locate H Hev.
    + destruct (on_send r) as [u|e']; simpl in *.
      * locate H Hev. eauto.
      * locate H Hev. injection Hev as <-. subst. auto.
    + locate H Hev. injection Hev as <-. subst. auto.
Qed.

(** An empty read is followed by the farewell and ends the loop. *)
Lemma tcp_loop_eof script : forall tr1 ev tr2,
  trace (TcpServer.echo_loop c a script) = tr1 ++ ev :: tr2 ->
  is_eof ev = true ->
  tr2 = [Print (LDisconnected a)]
  /\ status_of (TcpServer.echo_loop c a script) = Done.
Proof.
  induction script as [|r script IH]; intros tr1 ev tr2 H Hev; simpl in H.
  - locate H Hev.
  - simpl. destruct (on_recv r) as [[|b data]|e']; simpl in *.
    + locate H Hev. subst. auto.
    + destruct (on_send r) as [u|e']; simpl in *; locate H Hev. eauto.
    + locate H Hev.
Qed.

Lemma tls_loop_eof script : forall tr1 ev tr2,
  trace (TlsServer.echo_loop c a script) = tr1 ++ ev :: tr2 ->
  is_eof ev = true ->
  tr2 = [Print (LDisconnected a)]
  /\ status_of (TlsServer.echo_loop c a script) = Done.
Proof.
  induction script as [|r script IH]; intros tr1 ev tr2 H Hev; simpl in H.
  - locate H Hev.
  - simpl. destruct (on_recv r) as [[|b data]|e']; simpl in *.
    + locate H Hev. subst. auto.
    + destruct (on_send r) as [u|e']; simpl in *; locate H Hev. eauto.
    + locate H Hev.
Qed.

(** The loops only print and use their own socket. *)
Lemma tcp_loop_confined script :
  forallb (handler_event c) (trace (TcpServer.echo_loop c a script)) = true.
Proof.
  induction script as [|r script IH]; simpl; [reflexivity|].
  destruct (on_recv r) as [[|b data]|e']; simpl; rewrite ?Nat.eqb_refl; try reflexivity.
  destruct (on_send r) as [u|e']; simpl; rewrite ?Nat.eqb_refl; simpl; auto.
Qed.

Lemma tls_loop_confined script :
  forallb (handler_event c) (trace (TlsServer.echo_loop c a script)) = true.
Proof.
  induction script as [|r script IH]; simpl; [reflexivity|].
  destruct (on_recv r) as [[|b data]|e']; simpl; rewrite ?Nat.eqb_refl; try reflexivity.
  destruct (on_send r) as [u|e']; simpl; rewrite ?Nat.eqb_refl; simpl; auto.
Qed.

(** The loops never exit the process. *)
Lemma tcp_loop_no_exit script code :
  status_of (TcpServer.echo_loop c a script) <> Exit code.
Proof.
  induction script as [|r script IH]; simpl; [discriminate|].
  destruct (on_recv r) as [[|b data]|e']; simpl; try discriminate.
  destruct (on_send r) as [u|e']; simpl; [exact IH | discriminate].
Qed.

Lemma tls_loop_no_exit script code :
  status_of (TlsServer.echo_loop c a script) <> Exit code.
Proof.
  induction script as [|r script IH]; simpl; [discriminate|].
  destruct (on_recv r) as [[|b data]|e']; simpl; try discriminate.
  destruct (on_send r) as [u|e']; simpl; [exact IH | discriminate].
Qed.

End HandlerExits.

Lemma failed_call_is_failed ev e : failed_call ev = Some e -> is_failed_call ev = true.
Proof. unfold is_failed_call. now intros ->. Qed.

(** X4.  In the TCP handler an exception of [recv] or [sendall] ends the
    session at once: a ConnectionResetError is reported and the handler
    returns; any other exception (a broken pipe, a timeout) is not caught,
    so after the [finally] has closed the connection it leaves the handler
    and ends its thread.  Nothing else is done on the connection. *)
Theorem tcp_handler_exception_outcome :
  forall c a script tr1 ev tr2 e,
    trace (TcpServer.handle_client c a script) = tr1 ++ ev :: tr2 ->
    failed_call ev = Some e ->
    if isinstance e ConnectionResetError
    then tr2 = [Print (LResetBy a); Close c]
         /\ status_of (TcpServer.handle_client c a script) = Done
    else tr2 = [Close c]
         /\ status_of (TcpServer.handle_client c a script) = Raised e.
Proof.
  intros c a script tr1 ev tr2 e H Hev.
  pose proof (failed_call_is_failed ev e Hev) as Hfail.
  pose proof (tcp_loop_failed_call c a script) as Hloop.
  unfold TcpServer.handle_client, try_finally, try_except in *.
  destruct (TcpServer.echo_loop c a script) as [tr st]; simpl in *.
  assert (Hcase : forall tail,
             forallb (fun x => negb (is_failed_call x)) tail = true ->
             Print (LConnectionFrom a) :: tr ++ tail = tr1 ++ ev :: tr2 ->
             tr2 = tail /\ st = Raised e).
  { intros tail Htail H'.
    destruct tr1 as [|x tr1]; simpl in H'; injection H' as <- H';
      [discriminate Hev|].
    destruct (located_in_front is_failed_call tr tail Htail _ _ _ H' Hfail)
      as [m [Htr ->]].
    destruct (Hloop _ _ _ _ Htr Hev) as [-> ->]. auto. }
  destruct st as [| e' | code |]; simpl in H.
  - apply Hcase in H; [|reflexivity]. destruct H; discriminate.
  - destruct (isinstance e' ConnectionResetError) eqn:Hr; simpl in H.
    + rewrite <- app_assoc in H. apply Hcase in H; [|reflexivity].
      destruct H as [-> [= ->]]. rewrite Hr. auto.
    + apply Hcase in H; [|reflexivity].
      destruct H as [-> [= ->]]. rewrite Hr. auto.
  - apply Hcase in H; [|reflexivity]. destruct H; discriminate.
  - rewrite <- (app_nil_r tr) in H. apply Hcase in H; [|reflexivity].
    destruct H; discriminate.
Qed.

Lemma tcp_handler_exception_outcome_witness :
  let a := mkAddress "127.0.0.1" 52431 in
  let e := mkExc BrokenPipeError "[Errno 32] Broken pipe" in
  let script := [mkRound (Returns ["h"; "i"]%byte) (Raises e)] in
  let before :=
    [Print (LConnectionFrom a); Recv 4 4096 (Returns ["h"; "i"]%byte);
     Print (LReceivedFrom 2 a); Print (LHex ["h"; "i"]%byte);
     Print (LStr ["h"; "i"]%byte)] in
  trace (TcpServer.handle_client 4 a script)
  = before ++ Sendall 4 ["h"; "i"]%byte (Raises e) :: [Close 4]
  /\ status_of (TcpServer.handle_client 4 a script) = Raised e.
Proof.
  intros a e script before.
  assert (Htr : trace (TcpServer.handle_client 4 a script)
                = before ++ Sendall 4 ["h"; "i"]%byte (Raises e) :: [Close 4])
    by reflexivity.
  split; [exact Htr|].
  exact (proj2 (tcp_handler_exception_outcome 4 a script before _ _ e Htr eq_refl)).
Defined.

(** X5.  In the TLS handler an exception of [recv] or [sendall] ends the
    session at once: an [ssl.SSLError] (any subclass) or a
    ConnectionResetError is reported and the handler returns; any other
    exception leaves the handler after the [finally] has closed the
    connection. *)
Theorem tls_handler_exception_outcome :
  forall c a script tr1 ev tr2 e,
    trace (TlsServer.handle_client c a script) = tr1 ++ ev :: tr2 ->
    failed_call ev = Some e ->
    if isinstance e SSLError
    then tr2 = [Print (LSslError e); Close c]
         /\ status_of (TlsServer.handle_client c a script) = Done
    else if isinstance e ConnectionResetError
    then tr2 = [Print (LResetBy a); Close c]
         /\ status_of (TlsServer.handle_client c a script) = Done
    else tr2 = [Close c]
         /\ status_of (TlsServer.handle_client c a script) = Raised e.
Proof.
  intros c a script tr1 ev tr2 e H Hev.
  pose proof (failed_call_is_failed ev e Hev) as Hfail.
  pose proof (tls_loop_failed_call c a script) as Hloop.
  unfold TlsServer.handle_client, try_finally, try_except in *.
  destruct (TlsServer.echo_loop c a script) as [tr st]; simpl in *.
  assert (Hcase : forall tail,
             forallb (fun x => negb (is_failed_call x)) tail = true ->
             Print (LTlsConnectionFrom a) :: tr ++ tail = tr1 ++ ev :: tr2 ->
             tr2 = tail /\ st = Raised e).
  { intros tail Htail H'.
    destruct tr1 as [|x tr1]; simpl in H'; injection H' as <- H';
      [discriminate Hev|].
    destruct (located_in_front is_failed_call tr tail Htail _ _ _ H' Hfail)
      as [m [Htr ->]].
    destruct (Hloop _ _ _ _ Htr Hev) as [-> ->]. auto. }
  destruct st as [| e' | code |]; simpl in H.
  - apply Hcase in H; [|reflexivity]. destruct H; discriminate.
  - destruct (isinstance e' SSLError) eqn:Hs; simpl in H.
    + rewrite <- app_assoc in H. apply Hcase in H; [|reflexivity].
      destruct H as [-> [= ->]]. rewrite Hs. auto.
    + destruct (isinstance e' ConnectionResetError) eqn:Hr; simpl in H.
      * rewrite <- app_assoc in H. apply Hcase in H; [|reflexivity].
        destruct H as [-> [= ->]]. rewrite Hs, Hr. auto.
      * apply Hcase in H; [|reflexivity].
        destruct H as [-> [= ->]]. rewrite Hs, Hr. auto.
  - apply Hcase in H; [|reflexivity]. destruct H; discriminate.
  - rewrite <- (app_nil_r tr) in H. apply Hcase in H; [|reflexivity].
    destruct H; discriminate.
Qed.

Lemma tls_handler_exception_outcome_witness :
  let a := mkAddress "127.0.0.1" 52431 in
  let e := mkExc SSLEOFError "EOF occurred in violation of protocol" in
  let script := [mkRound (Raises e) (Returns tt)] in
  trace (TlsServer.handle_client 4 a script)
  = [Print (LTlsConnectionFrom a)] ++ Recv 4 4096 (Raises e)
      :: [Print (LSslError e); Close 4]
  /\ status_of (TlsServer.handle_client 4 a script) = Done.
Proof.
  intros a e script.
  assert (Htr : trace (TlsServer.handle_client 4 a script)
                = [Print (LTlsConnectionFrom a)] ++ Recv 4 4096 (Raises e)
                    :: [Print (LSslError e); Close 4]) by reflexivity.
  split; [exact Htr|].
  exact (proj2 (tls_handler_exception_outcome 4 a script _ _ _ e Htr eq_refl)).
Defined.

(** X6.  When [recv] returns no bytes (the peer closed its side), the
    handler of either server writes nothing more: it prints the
    disconnection, closes the connection and returns normally. *)
Theorem handler_orderly_close :
  forall c a script tr1 ev tr2,
    is_eof ev = true ->
    (trace (TcpServer.handle_client c a script) = tr1 ++ ev :: tr2 ->
     tr2 = [Print (LDisconnected a); Close c]
     /\ status_of (TcpServer.handle_client c a script) = Done)
    /\ (trace (TlsServer.handle_client c a script) = tr1 ++ ev :: tr2 ->
        tr2 = [Print (LDisconnected a); Close c]
        /\ status_of (TlsServer.handle_client c a script) = Done).
Proof.
  intros c a script tr1 ev tr2 Hev.
  assert (Hgen : forall greeting (loop r : run),
             (forall tr1 ev tr2,
                 trace loop = tr1 ++ ev :: tr2 -> is_eof ev = true ->
                 tr2 = [Print (LDisconnected a)] /\ status_of loop = Done) ->
             (status_of loop = Done ->
              r = mkRun (Print greeting :: trace loop ++ [Close c]) Done) ->
             (exists tail,
                 trace r = Print greeting :: trace loop ++ tail
                 /\ forallb (fun x => negb (is_eof x)) tail = true) ->
             trace r = tr1 ++ ev :: tr2 ->
             tr2 = [Print (LDisconnected a); Close c] /\ status_of r = Done).
  { intros greeting loop r Hloop Hdone [tail [Htr Htail]] H.
    rewrite Htr in H.
    destruct tr1 as [|x tr1]; simpl in H; injection H as <- H; [discriminate Hev|].
    destruct (located_in_front is_eof _ _ Htail _ _ _ H Hev) as [m [Hm _]].
    destruct (Hloop _ _ _ Hm Hev) as [-> Hst].
    specialize (Hdone Hst). subst r. simpl in Htr.
    injection Htr as Htr. apply app_inv_head in Htr. subst tail.
    rewrite Hm, <- app_assoc in H. apply app_inv_head in H.
    injection H as <-. auto. }
  split; intros H.
  - apply (Hgen (LConnectionFrom a) (TcpServer.echo_loop c a script)).
    + apply tcp_loop_eof.
    + intros Hst. unfold TcpServer.handle_client, try_finally, try_except, after.
      destruct (TcpServer.echo_loop c a script) as [tr st]. simpl in *.
      subst st. reflexivity.
    + destruct (tcp_handler_shape c a script) as [tail [Htr Htail]].
      exists tail. split; [exact Htr|].
      destruct Htail as [-> | [-> | ->]]; reflexivity.
    + exact H.
  - apply (Hgen (LTlsConnectionFrom a) (TlsServer.echo_loop c a script)).
    + apply tls_loop_eof.
    + intros Hst. unfold TlsServer.handle_client, try_finally, try_except, after.
      destruct (TlsServer.echo_loop c a script) as [tr st]. simpl in *.
      subst st. reflexivity.
    + destruct (tls_handler_shape c a script) as [tail [Htr Htail]].
      exists tail. split; [exact Htr|].
      destruct Htail as [-> | [-> | [-> | [e ->]]]]; reflexivity.
    + exact H.
Qed.

Lemma handler_orderly_close_witness :
  let a := mkAddress "127.0.0.1" 52431 in
  let script := [mkRound (Returns []) (Returns tt);
                 mkRound (Returns ["x"]%byte) (Returns tt)] in
  is_eof (Recv 4 4096 (Returns [])) = true
  /\ trace (TcpServer.handle_client 4 a script)
     = [Print (LConnectionFrom a)] ++ Recv 4 4096 (Returns [])
         :: [Print (LDisconnected a); Close 4]
  /\ status_of (TcpServer.handle_client 4 a script) = Done.
Proof.
  intros a script.
  assert (Hev : is_eof (Recv 4 4096 (Returns [])) = true) by reflexivity.
  assert (Htr : trace (TcpServer.handle_client 4 a script)
                = [Print (LConnectionFrom a)] ++ Recv 4 4096 (Returns [])
                    :: [Print (LDisconnected a); Close 4]) by reflexivity.
  split; [exact Hev|]. split; [exact Htr|].
  exact (proj2 (proj1 (handler_orderly_close 4 a script _ _ _ Hev) Htr)).
Defined.

(** X7.  A session handler works on no socket but its own: every [recv] it
    calls asks for 4096 bytes from the connection it was given, and every
    [sendall] and [close] is on that connection; it never accepts, binds,
    listens, connects, wraps a socket, starts a thread or reads the
    terminal.  What is left in its trace are its prints; the greeting of the
    TLS handler shows the protocol and the cipher, which it asks of its own
    socket ([version()] and [cipher()], tls_server.py:54-55) and which are
    part of the print here. *)
Theorem handler_confined_to_its_connection :
  forall c a script,
    forallb (handler_event c) (trace (TcpServer.handle_client c a script)) = true
    /\ forallb (handler_event c) (trace (TlsServer.handle_client c a script)) = true.
Proof.
  intros c a script. split.
  - destruct (tcp_handler_shape c a script) as [tail [-> Htail]].
    cbn [forallb handler_event]. rewrite forallb_app, tcp_loop_confined.
    destruct Htail as [-> | [-> | ->]]; simpl; rewrite ?Nat.eqb_refl; reflexivity.
  - destruct (tls_handler_shape c a script) as [tail [-> Htail]].
    cbn [forallb handler_event]. rewrite forallb_app, tls_loop_confined.
    destruct Htail as [-> | [-> | [-> | [e ->]]]]; simpl; rewrite ?Nat.eqb_refl;
      reflexivity.
Qed.

(** X8.  A session lasts as long as the peer keeps it going: the handler of
    either server is still waiting in [recv] exactly when every round so far
    was an echo (bytes received and written back); there is no limit on the
    number of rounds and no idle timeout.  It never ends the process. *)
Theorem handler_runs_until_the_peer_stops :
  forall c a script,
    (status_of (TcpServer.handle_client c a script) = Blocked
     <-> forallb echoes script = true)
    /\ (status_of (TlsServer.handle_client c a script) = Blocked
        <-> forallb echoes script = true)
    /\ (forall code,
          status_of (TcpServer.handle_client c a script) <> Exit code
          /\ status_of (TlsServer.handle_client c a script) <> Exit code).
Proof.
  intros c a script.
  pose proof (tcp_handler_exits_iff c a script) as Htcp.
  pose proof (tls_handler_exits_iff c a script) as Htls.
  split; [|split].
  - destruct (forallb echoes script); split; intros H; try reflexivity.
    + destruct (status_of (TcpServer.handle_client c a script)) eqn:E;
        try reflexivity; exfalso;
        assert (Hf : true = false) by (apply Htcp; discriminate); discriminate.
    + exfalso. apply (proj2 Htcp eq_refl). exact H.
    + discriminate.
  - destruct (forallb echoes script); split; intros H; try reflexivity.
    + destruct (status_of (TlsServer.handle_client c a script)) eqn:E;
        try reflexivity; exfalso;
        assert (Hf : true = false) by (apply Htls; discriminate); discriminate.
    + exfalso. apply (proj2 Htls eq_refl). exact H.
    + discriminate.
  - intros code.
    pose proof (tcp_loop_no_exit c a script code) as H1.
    pose proof (tls_loop_no_exit c a script code) as H2.
    unfold TcpServer.handle_client, TlsServer.handle_client, try_finally, try_except.
    destruct (TcpServer.echo_loop c a script) as [tr1 [| e1 | code1 |]];
      destruct (TlsServer.echo_loop c a script) as [tr2 [| e2 | code2 |]];
      simpl in *;
      try destruct (isinstance e1 ConnectionResetError);
      try destruct (isinstance e2 SSLError);
      try destruct (isinstance e2 ConnectionResetError);
      simpl; split; congruence.
Qed.

(** ** The threads of a server *)

(** What the [try ... except KeyboardInterrupt ... finally] of [main] adds
    to the trace of the accept loop. *)
Lemma guarded_loop_shape server body :
  exists tail,
    trace (try_finally
             (try_except body
                [(KeyboardInterrupt, fun _ => done [Print LShuttingDown])])
             [Close server])
    = trace body ++ tail
    /\ (tail = [] \/ tail = [Close server]
        \/ tail = [Print LShuttingDown; Close server]).
Proof.
  unfold try_finally, try_except.
  destruct body as [tr [| e | code |]]; simpl.
  - exists [Close server]. auto.
  - destruct (isinstance e KeyboardInterrupt); simpl.
    + exists [Print LShuttingDown; Close server]. rewrite <- app_assoc. auto.
    + exists [Close server]. auto.
  - exists [Close server]. auto.
  - exists []. rewrite app_nil_r. auto.
Qed.

Lemma tcp_loop_threads server conns :
  let r := TcpServer.accept_loop server conns in
  Forall2 (runs_handler TcpServer.handle_client)
          (handler_threads r) (started (trace (main_thread r)))
  /\ forallb (fun ev => negb (is_io ev)) (trace (main_thread r)) = true.
Proof.
  unfold started.
  induction conns as [|x conns [IH1 IH2]]; simpl; [split; [constructor | reflexivity]|].
  destruct (on_accept x) as [[c a]|e]; simpl; [|split; [constructor | reflexivity]].
  destruct (on_start x) as [u|e]; simpl; [|split; [constructor | reflexivity]].
  split; [|exact IH2].
  constructor; [|exact IH1]. exists (session x). reflexivity.
Qed.

Lemma tls_loop_threads server conns :
  let r := TlsServer.accept_loop server conns in
  Forall2 (runs_handler TlsServer.handle_client)
          (handler_threads r) (started (trace (main_thread r)))
  /\ forallb (fun ev => negb (is_io ev)) (trace (main_thread r)) = true.
Proof.
  unfold started.
  induction conns as [|x conns [IH1 IH2]]; simpl; [split; [constructor | reflexivity]|].
  destruct (on_accept x) as [[c a]|e]; simpl; [|split; [constructor | reflexivity]].
  destruct (on_wrap x) as [u|e]; simpl.
  - destruct (on_start x) as [u'|e]; simpl; [|split; [constructor | reflexivity]].
    split; [|exact IH2].
    constructor; [|exact IH1]. exists (session x). reflexivity.
  - destruct (isinstance e SSLError); simpl; [|split; [constructor | reflexivity]].
    split; [exact IH1 | exact IH2].
Qed.

Lemma started_app tr1 tr2 : started (tr1 ++ tr2) = started tr1 ++ started tr2.
Proof. apply flat_map_app. Qed.

(** The events around the accept loop start no thread and move no bytes. *)
Lemma guarded_loop_threads server (body : run) :
  let r := try_finally
             (try_except body
                [(KeyboardInterrupt, fun _ => done [Print LShuttingDown])])
             [Close server] in
  started (trace r) = started (trace body)
  /\ (forallb (fun ev => negb (is_io ev)) (trace body) = true ->
      forallb (fun ev => negb (is_io ev)) (trace r) = true).
Proof.
  destruct (guarded_loop_shape server body) as [tail [Htr Htail]].
  cbv zeta. rewrite Htr, started_app, forallb_app.
  destruct Htail as [-> | [-> | ->]]; simpl; rewrite ?app_nil_r;
    (split; [reflexivity | intros ->; reflexivity]).
Qed.

(** *** Which handlers run, and on what *)

(** The handler threads of the accept loops are those of the connections
    they get past, each on the socket and address that [accept] returned
    for it, and the thread starts in the trace are the same. *)
Lemma tcp_loop_serves server conns :
  let r := TcpServer.accept_loop server conns in
  handler_threads r
  = flat_map (handler_for TcpServer.handle_client) (served tcp_gets_past conns)
  /\ started (trace (main_thread r)) = flat_map start_for (served tcp_gets_past conns).
Proof.
  unfold started.
  induction conns as [|x conns [IH1 IH2]]; simpl; [split; reflexivity|].
  unfold tcp_gets_past at 1 3.
  destruct (on_accept x) as [[c a]|e] eqn:Ha; simpl; [|split; reflexivity].
  destruct (on_start x) as [u|e]; simpl; [|split; reflexivity].
  unfold handler_for at 1, start_for at 1. rewrite Ha. simpl.
  now rewrite IH1, IH2.
Qed.

Lemma tls_loop_serves server conns :
  let r := TlsServer.accept_loop server conns in
  handler_threads r
  = flat_map (tls_handler_for TlsServer.handle_client) (served tls_gets_past conns)
  /\ started (trace (main_thread r))
     = flat_map tls_start_for (served tls_gets_past conns).
Proof.
  unfold started.
  induction conns as [|x conns [IH1 IH2]]; simpl; [split; reflexivity|].
  unfold tls_gets_past at 1 3.
  destruct (on_accept x) as [[c a]|e] eqn:Ha; simpl; [|split; reflexivity].
  destruct (on_wrap x) as [u|e] eqn:Hw; simpl.
  - destruct (on_start x) as [u'|e]; simpl; [|split; reflexivity].
    unfold tls_handler_for at 1, tls_start_for at 1, handler_for, start_for.
    rewrite Hw, Ha. simpl. now rewrite IH1, IH2.
  - destruct (isinstance e SSLError); simpl; [|split; reflexivity].
    unfold tls_handler_for at 1, tls_start_for at 1. rewrite Hw. simpl.
    split; [exact IH1 | exact IH2].
Qed.

(** In the trace of the accept loops a thread start comes right after the
    [accept] that returned its arguments, with the handshake between them
    in the TLS server. *)
Lemma tcp_loop_start_follows_accept server conns : forall tr1 c a r tr2,
  trace (main_thread (TcpServer.accept_loop server conns))
  = tr1 ++ ThreadStart c a r :: tr2 ->
  exists tr0, tr1 = tr0 ++ [Accept server (Returns (c, a))].
Proof.
  induction conns as [|x conns IH]; intros tr1 c a r tr2 H; simpl in H.
  - destruct tr1; discriminate H.
  - destruct (on_accept x) as [[c0 a0]|e]; simpl in H.
    + destruct (on_start x) as [u|e]; simpl in H.
      * destruct tr1 as [|y [|z tr1]]; simpl in H; [discriminate H | |].
        -- inversion H; subst. exists []. reflexivity.
        -- inversion H as [[Hy Hz Hrest]]; subst y z.
           destruct (IH _ _ _ _ _ Hrest) as [tr0 ->].
           exists (Accept server (Returns (c0, a0))
                   :: ThreadStart c0 a0 (Returns tt) :: tr0).
           reflexivity.
      * destruct tr1 as [|y [|z tr1]]; simpl in H; [discriminate H | |].
        -- inversion H; subst. exists []. reflexivity.
        -- inversion H as [[Hy Hz Hrest]]. destruct tr1; discriminate Hrest.
    + destruct tr1 as [|y tr1]; simpl in H; [discriminate H|].
      inversion H as [[Hy Hrest]]. destruct tr1; discriminate Hrest.
Qed.

Lemma tls_loop_start_follows_accept server conns : forall tr1 c a r tr2,
  trace (main_thread (TlsServer.accept_loop server conns))
  = tr1 ++ ThreadStart c a r :: tr2 ->
  exists tr0,
    tr1 = tr0 ++ [Accept server (Returns (c, a)); WrapServer c (Returns tt)].
Proof.
  induction conns as [|x conns IH]; intros tr1 c a r tr2 H; simpl in H.
  - destruct tr1; discriminate H.
  - destruct (on_accept x) as [[c0 a0]|e]; simpl in H.
    + destruct (on_wrap x) as [u|e]; simpl in H.
      * destruct (on_start x) as [u'|e]; simpl in H.
        -- destruct tr1 as [|y [|z [|w tr1]]]; simpl in H;
             [discriminate H | discriminate H | |].
           ++ inversion H; subst. exists []. reflexivity.
           ++ inversion H as [[Hy Hz Hw Hrest]]; subst y z w.
              destruct (IH _ _ _ _ _ Hrest) as [tr0 ->].
              exists (Accept server (Returns (c0, a0))
                      :: WrapServer c0 (Returns tt)
                      :: ThreadStart c0 a0 (Returns tt) :: tr0).
              reflexivity.
        -- destruct tr1 as [|y [|z [|w tr1]]]; simpl in H;
             [discriminate H | discriminate H | |].
           ++ inversion H; subst. exists []. reflexivity.
           ++ inversion H as [[Hy Hz Hw Hrest]]. destruct tr1; discriminate Hrest.
      * destruct (isinstance e SSLError); simpl in H.
        -- destruct tr1 as [|y [|z [|w [|v tr1]]]]; simpl in H;
             try discriminate H.
           inversion H as [[Hy Hz Hw Hv Hrest]]; subst y z w v.
           destruct (IH _ _ _ _ _ Hrest) as [tr0 ->].
           exists (Accept server (Returns (c0, a0))
                   :: WrapServer c0 (Raises e)
                   :: Print (LHandshakeFailed a0 e) :: Close c0 :: tr0).
           reflexivity.
        -- destruct tr1 as [|y [|z tr1]]; simpl in H; try discriminate H.
           inversion H as [[Hy Hz Hrest]]. destruct tr1; discriminate Hrest.
    + destruct tr1 as [|y tr1]; simpl in H; [discriminate H|].
      inversion H as [[Hy Hrest]]. destruct tr1; discriminate Hrest.
Qed.

(** A thread start of a trace that has none before and none after the
    events of the loop is one of the loop. *)
Lemma thread_start_located setup body tail tr1 ev tr2 :
  forallb (fun ev => negb (is_thread_start ev)) setup = true ->
  forallb (fun ev => negb (is_thread_start ev)) tail = true ->
  is_thread_start ev = true ->
  setup ++ body ++ tail = tr1 ++ ev :: tr2 ->
  exists p q, tr1 = setup ++ p /\ body = p ++ ev :: q.
Proof.
  intros Hsetup Htail Hev. revert tr1.
  induction setup as [|s setup IHs]; simpl in *.
  - clear Hsetup. induction body as [|b body IHb]; intros tr1 H; simpl in H.
    + exfalso. rewrite forallb_forall in Htail.
      assert (Hin : In ev tail) by (rewrite H; apply in_elt).
      apply Htail in Hin. rewrite Hev in Hin. discriminate Hin.
    + destruct tr1 as [|y tr1]; simpl in H.
      * injection H as -> H. exists [], body. split; reflexivity.
      * injection H as <- H. destruct (IHb _ H) as [p [q [-> ->]]].
        exists (b :: p), q. split; reflexivity.
  - apply andb_prop in Hsetup. destruct Hsetup as [Hs Hsetup].
    intros tr1 H. destruct tr1 as [|y tr1]; simpl in H.
    + injection H as -> _. rewrite Hev in Hs. discriminate Hs.
    + injection H as <- H. destruct (IHs Hsetup _ H) as [p [q [-> ->]]].
      exists p, q. split; reflexivity.
Qed.

(** X9.  Once listening, each server runs one handler thread for each
    connection its accept loop gets past (in the TLS server: and whose
    handshake returned), in the order of the accepts; the thread runs the
    handler on the socket and the address that [accept] returned for that
    connection, against what that connection's peer does, and the thread
    starts in the main thread's trace are those.  In the trace every thread
    start comes right after the [accept] that returned its arguments (after
    [accept] and a [wrap_socket] that returned, in the TLS server).  The
    main thread itself calls neither [recv] nor [sendall] on a connection
    and does not read the terminal: the bytes it moves are those of the
    handshake inside [wrap_socket]. *)
Theorem one_handler_thread_per_started_connection :
  forall argv server ports on_load conns,
    let tcp := TcpServer.main argv server ports conns in
    let tls := TlsServer.main argv server ports on_load conns in
    ((bindable (ports TcpServer.port) = true ->
      handler_threads tcp
      = flat_map (handler_for TcpServer.handle_client) (served tcp_gets_past conns)
      /\ started (trace (main_thread tcp))
         = flat_map start_for (served tcp_gets_past conns))
     /\ (forall tr1 c a r tr2,
           trace (main_thread tcp) = tr1 ++ ThreadStart c a r :: tr2 ->
           exists tr0, tr1 = tr0 ++ [Accept server (Returns (c, a))])
     /\ Forall2 (runs_handler TcpServer.handle_client)
                (handler_threads tcp) (started (trace (main_thread tcp)))
     /\ forallb (fun ev => negb (is_io ev)) (trace (main_thread tcp)) = true)
    /\ ((bindable (ports TlsServer.port) = true ->
         on_load = Returns tt ->
         handler_threads tls
         = flat_map (tls_handler_for TlsServer.handle_client)
                    (served tls_gets_past conns)
         /\ started (trace (main_thread tls))
            = flat_map tls_start_for (served tls_gets_past conns))
        /\ (forall tr1 c a r tr2,
              trace (main_thread tls) = tr1 ++ ThreadStart c a r :: tr2 ->
              exists tr0,
                tr1 = tr0 ++ [Accept server (Returns (c, a));
                              WrapServer c (Returns tt)])
        /\ Forall2 (runs_handler TlsServer.handle_client)
                   (handler_threads tls) (started (trace (main_thread tls)))
        /\ forallb (fun ev => negb (is_io ev)) (trace (main_thread tls)) = true).
Proof.
  intros argv server ports on_load conns tcp tls. subst tcp tls. split.
  - split; [|split].
    + intros Hbind. unfold TcpServer.main. rewrite (bind_with_reuseaddr _ Hbind).
      unfold on_main. cbn [main_thread handler_threads].
      destruct (tcp_loop_serves server conns) as [S1 S2].
      destruct (guarded_loop_threads server
                  (main_thread (TcpServer.accept_loop server conns))) as [G1 _].
      rewrite trace_after, started_app, G1.
      split; [exact S1 | exact S2].
    + intros tr1 c a r tr2. unfold TcpServer.main.
      destruct (kernel_bind _ _).
      * unfold on_main. cbn [main_thread]. rewrite trace_after.
        destruct (guarded_loop_shape server
                    (main_thread (TcpServer.accept_loop server conns)))
          as [tail [-> Htail]].
        intros H.
        apply thread_start_located in H;
          [| reflexivity
           | destruct Htail as [-> | [-> | ->]]; reflexivity
           | reflexivity].
        destruct H as [p [q [-> Hloop]]].
        destruct (tcp_loop_start_follows_accept _ _ _ _ _ _ _ Hloop) as [tr0 ->].
        eexists. rewrite app_assoc. reflexivity.
      * intros H. simpl in H.
        repeat (destruct tr1 as [|? tr1]; simpl in H;
                [discriminate H | injection H as _ H]).
        destruct tr1; discriminate H.
    + unfold TcpServer.main.
      destruct (kernel_bind _ _); [|split; [constructor | reflexivity]].
      unfold on_main. cbn [main_thread handler_threads].
      destruct (tcp_loop_threads server conns) as [H1 H2].
      destruct (guarded_loop_threads server
                  (main_thread (TcpServer.accept_loop server conns))) as [G1 G2].
      rewrite trace_after, started_app, forallb_app, G1, (G2 H2).
      split; [exact H1 | reflexivity].
  - split; [|split].
    + intros Hbind ->. unfold TlsServer.main. rewrite (bind_with_reuseaddr _ Hbind).
      unfold on_main. cbn [main_thread handler_threads].
      destruct (tls_loop_serves server conns) as [S1 S2].
      destruct (guarded_loop_threads server
                  (main_thread (TlsServer.accept_loop server conns))) as [G1 _].
      rewrite trace_after, started_app, G1.
      split; [exact S1 | exact S2].
    + intros tr1 c a r tr2. unfold TlsServer.main.
      destruct on_load as [u|e].
      * destruct (kernel_bind _ _).
        -- unfold on_main. cbn [main_thread]. rewrite trace_after.
           destruct (guarded_loop_shape server
                       (main_thread (TlsServer.accept_loop server conns)))
             as [tail [-> Htail]].
           intros H.
           apply thread_start_located in H;
             [| reflexivity
              | destruct Htail as [-> | [-> | ->]]; reflexivity
              | reflexivity].
           destruct H as [p [q [-> Hloop]]].
           destruct (tls_loop_start_follows_accept _ _ _ _ _ _ _ Hloop) as [tr0 ->].
           eexists. rewrite app_assoc. reflexivity.
        -- intros H. simpl in H.
           repeat (destruct tr1 as [|? tr1]; simpl in H;
                   [discriminate H | injection H as _ H]).
           destruct tr1; discriminate H.
      * intros H. simpl in H.
        repeat (destruct tr1 as [|? tr1]; simpl in H;
                [discriminate H | injection H as _ H]).
        destruct tr1; discriminate H.
    + unfold TlsServer.main.
      destruct on_load as [u|e]; [|split; [constructor | reflexivity]].
      destruct (kernel_bind _ _); [|split; [constructor | reflexivity]].
      unfold on_main. cbn [main_thread handler_threads].
      destruct (tls_loop_threads server conns) as [H1 H2].
      destruct (guarded_loop_threads server
                  (main_thread (TlsServer.accept_loop server conns))) as [G1 G2].
      rewrite trace_after, started_app, forallb_app, G1, (G2 H2).
      split; [exact H1 | reflexivity].
Qed.

Lemma one_handler_thread_per_started_connection_witness :
  let peer1 := mkAddress "10.0.0.7" 40001 in
  let peer2 := mkAddress "10.0.0.8" 40002 in
  let peer3 := mkAddress "10.0.0.9" 40003 in
  let alert := mkExc SSLError "[SSL: TLSV1_ALERT_UNKNOWN_CA] tlsv1 alert unknown ca" in
  let e := mkExc OSError "[Errno 24] Too many open files" in
  let hi := orderly_session [["h"; "i"]%byte] in
  let first := mkConnection (Returns (4, peer1)) (Returns tt) (Returns tt) hi in
  let refused := mkConnection (Returns (5, peer2)) (Raises alert) (Returns tt) [] in
  let second := mkConnection (Returns (5, peer3)) (Returns tt) (Returns tt) [] in
  let failing := mkConnection (Raises e) (Returns tt) (Returns tt) [] in
  let late := mkConnection (Returns (6, peer1)) (Returns tt) (Returns tt) hi in
  let conns := [first; refused; second; failing; late] in
  handler_threads (TcpServer.main [] 3 (fun _ => PortFree) conns)
  = [TcpServer.handle_client 4 peer1 hi;
     TcpServer.handle_client 5 peer2 [];
     TcpServer.handle_client 5 peer3 []]
  /\ handler_threads (TlsServer.main [] 3 (fun _ => PortFree) (Returns tt) conns)
     = [TlsServer.handle_client 4 peer1 hi;
        TlsServer.handle_client 5 peer3 []]
  /\ started (trace (main_thread
                       (TlsServer.main [] 3 (fun _ => PortFree) (Returns tt) conns)))
     = [(4, peer1); (5, peer3)].
Proof.
  intros peer1 peer2 peer3 alert e hi first refused second failing late conns.
  destruct (one_handler_thread_per_started_connection
              [] 3 (fun _ => PortFree) (Returns tt) conns)
    as [[Htcp _] [Htls _]].
  destruct (Htcp eq_refl) as [H1 _].
  destruct (Htls eq_refl eq_refl) as [H2 H3].
  split; [exact H1|]. split; [exact H2 | exact H3].
Defined.

(** ** Every way out of a client's loop *)

Section ChatExits.

Variables (tls : bool) (c : fd).

Lemma chat_loop_failed_call script : forall tr1 ev tr2 e,
  trace (chat_loop tls c script) = tr1 ++ ev :: tr2 ->
  failed_call ev = Some e ->
  tr2 = [] /\ status_of (chat_loop tls c script) = Raised e.
Proof.
  induction script as [|x script IH]; intros tr1 ev tr2 e H Hev; simpl in H.
  - locate H Hev.
  - simpl. destruct (on_input x) as [[|n message]|e']; simpl in *.
    + locate H Hev. eauto.
    + destruct (encode_utf8 (n :: message)) as [payload|]; simpl in *;
        [|locate H Hev].
      destruct (on_sendall x) as [u|e']; simpl in *;
        [|locate H Hev; injection Hev as <-; subst; auto].
      destruct (on_reply x) as [[|b reply]|e']; simpl in *.
      * locate H Hev.
      * destruct (decode_utf8 (b :: reply)) as [t|]; simpl in *; locate H Hev.
        eauto.
      * locate H Hev. injection Hev as <-. subst. auto.
    + locate H Hev. injection Hev as <-. subst. auto.
Qed.

Lemma chat_loop_eof script : forall tr1 ev tr2,
  trace (chat_loop tls c script) = tr1 ++ ev :: tr2 ->
  is_eof ev = true ->
  tr2 = [Print LServerClosed] /\ status_of (chat_loop tls c script) = Done.
Proof.
  induction script as [|x script IH]; intros tr1 ev tr2 H Hev; simpl in H.
  - locate H Hev.
  - simpl. destruct (on_input x) as [[|n message]|e']; simpl in *.
    + locate H Hev. eauto.
    + destruct (encode_utf8 (n :: message)) as [payload|]; simpl in *;
        [|locate H Hev].
      destruct (on_sendall x) as [u|e']; simpl in *; [|locate H Hev].
      destruct (on_reply x) as [[|b reply]|e']; simpl in *.
      * locate H Hev. subst. auto.
      * destruct (decode_utf8 (b :: reply)) as [t|]; simpl in *; locate H Hev.
        eauto.
      * locate H Hev.
    + locate H Hev.
Qed.

(** After a [sendall] that returned: the count of characters is printed and
    one [recv] follows. *)
Lemma chat_loop_sent script : forall tr1 ev tr2 payload,
  trace (chat_loop tls c script) = tr1 ++ ev :: tr2 ->
  sent_of ev = Some payload ->
  exists message r tr3,
    message <> [] /\ encode_utf8 message = Some payload
    /\ tr2 = Print (LSent tls (length message)) :: Recv c 4096 r :: tr3.
Proof.
  induction script as [|x script IH]; intros tr1 ev tr2 payload H Hev; simpl in H.
  - locate H Hev.
  - destruct (on_input x) as [[|n message]|e']; simpl in *.
    + locate H Hev. eauto.
    + destruct (encode_utf8 (n :: message)) as [p|] eqn:Henc; simpl in *;
        [|locate H Hev].
      assert (Hne : n :: message <> []) by discriminate.
      destruct (on_sendall x) as [u|e']; simpl in *; [|locate H Hev].
      destruct (on_reply x) as [[|b reply]|e']; simpl in *.
      * locate H Hev. injection Hev as <-. subst tr2. eauto 7.
      * destruct (decode_utf8 (b :: reply)) as [t|]; simpl in *; locate H Hev.
        -- injection Hev as <-. subst tr2. eauto 7.
        -- eauto.
        -- injection Hev as <-. subst tr2. eauto 7.
      * locate H Hev. injection Hev as <-. subst tr2. eauto 7.
    + locate H Hev.
Qed.

Lemma chat_loop_no_close script :
  filter is_any_close (trace (chat_loop tls c script)) = [].
Proof.
  induction script as [|x script IH]; simpl; [reflexivity|].
  destruct (on_input x) as [[|n message]|e']; simpl; auto.
  destruct (encode_utf8 (n :: message)) as [p|]; simpl; auto.
  destruct (on_sendall x) as [u|e']; simpl; auto.
  destruct (on_reply x) as [[|b reply]|e']; simpl; auto.
  destruct (decode_utf8 (b :: reply)) as [t|]; simpl; auto.
Qed.

(** One [recv] for each [sendall] that returned. *)
Lemma chat_loop_lockstep script :
  length (filter is_recv (trace (chat_loop tls c script)))
  = length (filter is_sent (trace (chat_loop tls c script))).
Proof.
  induction script as [|x script IH]; simpl; [reflexivity|].
  destruct (on_input x) as [[|n message]|e']; simpl; auto.
  destruct (encode_utf8 (n :: message)) as [p|]; simpl; auto.
  destruct (on_sendall x) as [u|e']; simpl; auto.
  destruct (on_reply x) as [[|b reply]|e']; simpl; auto.
  destruct (decode_utf8 (b :: reply)) as [t|]; simpl; auto.
Qed.

End ChatExits.

(** X10.  In the input loop of either client an exception of [input],
    [sendall] or [recv] ends the loop at once.  The interrupt (Ctrl+C,
    wherever it arrives) is caught: the client says it is closing, closes the
    connection and returns.  Any other exception, such as the EOFError of a
    closed terminal or a reset connection, is not caught: the [finally]
    closes the connection and the exception leaves [main]. *)
Theorem client_exception_outcome :
  forall tls c script tr1 ev tr2 e,
    trace (chat tls c script) = tr1 ++ ev :: tr2 ->
    failed_call ev = Some e ->
    if isinstance e KeyboardInterrupt
    then tr2 = [Print (LClosing tls); Close c]
         /\ status_of (chat tls c script) = Done
    else tr2 = [Close c]
         /\ status_of (chat tls c script) = Raised e.
Proof.
  intros tls c script tr1 ev tr2 e H Hev.
  pose proof (failed_call_is_failed ev e Hev) as Hfail.
  pose proof (chat_loop_failed_call tls c script) as Hloop.
  unfold chat, try_finally, try_except in *.
  destruct (chat_loop tls c script) as [tr st]; simpl in *.
  assert (Hcase : forall tail,
             forallb (fun x => negb (is_failed_call x)) tail = true ->
             tr ++ tail = tr1 ++ ev :: tr2 ->
             tr2 = tail /\ st = Raised e).
  { intros tail Htail H'.
    destruct (located_in_front is_failed_call tr tail Htail _ _ _ H' Hfail)
      as [m [Htr ->]].
    destruct (Hloop _ _ _ _ Htr Hev) as [-> ->]. auto. }
  destruct st as [| e' | code |]; simpl in H.
  - apply Hcase in H; [|reflexivity]. destruct H; discriminate.
  - destruct (isinstance e' KeyboardInterrupt) eqn:Hki; simpl in H.
    + rewrite <- app_assoc in H. apply Hcase in H; [|reflexivity].
      destruct H as [-> [= ->]]. rewrite Hki. auto.
    + apply Hcase in H; [|reflexivity].
      destruct H as [-> [= ->]]. rewrite Hki. auto.
  - apply Hcase in H; [|reflexivity]. destruct H; discriminate.
  - rewrite <- (app_nil_r tr) in H. apply Hcase in H; [|reflexivity].
    destruct H; discriminate.
Qed.

Lemma client_exception_outcome_witness :
  let eof := mkExc EOFError "EOF when reading a line" in
  let script := [mkExchange (Returns []) (Returns tt) (Returns []);
                 mkExchange (Raises eof) (Returns tt) (Returns [])] in
  trace (chat false 3 script)
  = [Input (Returns [])] ++ Input (Raises eof) :: [Close 3]
  /\ status_of (chat false 3 script) = Raised eof.
Proof.
  intros eof script.
  assert (Htr : trace (chat false 3 script)
                = [Input (Returns [])] ++ Input (Raises eof) :: [Close 3])
    by reflexivity.
  split; [exact Htr|].
  exact (proj2 (client_exception_outcome false 3 script _ _ _ eof Htr eq_refl)).
Defined.

(** X11.  When [recv] returns no bytes (the server closed the connection),
    either client reports it, leaves the loop without reading another line,
    closes the connection and returns. *)
Theorem client_stops_when_the_server_closes :
  forall tls c script tr1 ev tr2,
    trace (chat tls c script) = tr1 ++ ev :: tr2 ->
    is_eof ev = true ->
    tr2 = [Print LServerClosed; Close c]
    /\ status_of (chat tls c script) = Done.
Proof.
  intros tls c script tr1 ev tr2 H Hev.
  pose proof (chat_loop_eof tls c script) as Hloop.
  unfold chat, try_finally, try_except in *.
  destruct (chat_loop tls c script) as [tr st]; simpl in *.
  assert (Hcase : forall tail,
             forallb (fun x => negb (is_eof x)) tail = true ->
             tr ++ tail = tr1 ++ ev :: tr2 ->
             tr2 = Print LServerClosed :: tail /\ st = Done).
  { intros tail Htail H'.
    destruct (located_in_front is_eof tr tail Htail _ _ _ H' Hev) as [m [Htr ->]].
    destruct (Hloop _ _ _ Htr Hev) as [-> ->]. auto. }
  destruct st as [| e' | code |]; simpl in H.
  - apply Hcase in H; [|reflexivity]. destruct H as [-> _]. auto.
  - destruct (isinstance e' KeyboardInterrupt); simpl in H.
    + rewrite <- app_assoc in H. apply Hcase in H; [|reflexivity].
      destruct H; discriminate.
    + apply Hcase in H; [|reflexivity]. destruct H; discriminate.
  - apply Hcase in H; [|reflexivity]. destruct H; discriminate.
  - rewrite <- (app_nil_r tr) in H. apply Hcase in H; [|reflexivity].
    destruct H; discriminate.
Qed.

Lemma client_stops_when_the_server_closes_witness :
  let script := [mkExchange (Returns [0x68%N]) (Returns tt) (Returns []);
                 mkExchange (Returns [0x69%N]) (Returns tt) (Returns [x69])] in
  let before := [Input (Returns [0x68%N]); Sendall 3 [x68] (Returns tt);
                 Print (LSent true 1)] in
  trace (chat true 3 script)
  = before ++ Recv 3 4096 (Returns []) :: [Print LServerClosed; Close 3]
  /\ status_of (chat true 3 script) = Done.
Proof.
  intros script before.
  assert (Htr : trace (chat true 3 script)
                = before ++ Recv 3 4096 (Returns [])
                    :: [Print LServerClosed; Close 3]) by reflexivity.
  split; [exact Htr|].
  exact (proj2 (client_stops_when_the_server_closes true 3 script _ _ _ Htr eq_refl)).
Defined.

(** X12.  Each message sent is answered by one read: after a [sendall] that
    returned, the client prints the count and calls [recv(4096)] once, so a
    run has as many [recv] calls as [sendall] calls that returned.  The
    count printed as "bytes" sent is the number of characters of the line:
    it is at most the number of bytes passed to [sendall], which is at most
    four times as large, and the two agree exactly for pure ASCII lines. *)
Theorem client_reads_once_per_message :
  forall tls c script,
    (forall tr1 ev tr2 payload,
        trace (chat tls c script) = tr1 ++ ev :: tr2 ->
        sent_of ev = Some payload ->
        exists message r tr3,
          tr2 = Print (LSent tls (length message)) :: Recv c 4096 r :: tr3
          /\ encode_utf8 message = Some payload
          /\ length message <= length payload <= 4 * length message
          /\ (length payload = length message <-> forallb is_ascii message = true))
    /\ length (filter is_recv (trace (chat tls c script)))
       = length (filter is_sent (trace (chat tls c script))).
Proof.
  intros tls c script.
  destruct (chat_shape tls c script) as [tail [Htr Htail]].
  assert (Hquiet : forallb (fun x => negb (is_sent x)) tail = true
                   /\ filter is_recv tail = [] /\ filter is_sent tail = [])
    by (destruct Htail as [[-> _] | [_ [-> | ->]]]; repeat split).
  destruct Hquiet as [Hq1 [Hq2 Hq3]].
  split.
  - intros tr1 ev tr2 payload H Hev.
    assert (Hsent : is_sent ev = true) by (unfold is_sent; now rewrite Hev).
    rewrite Htr in H.
    destruct (located_in_front is_sent _ _ Hq1 _ _ _ H Hsent) as [m [Hloop ->]].
    destruct (chat_loop_sent tls c script _ _ _ _ Hloop Hev)
      as [message [r [tr3 [Hne [Henc ->]]]]].
    destruct (encode_utf8_length message payload Henc) as [Hlen Hascii].
    exists message, r, (tr3 ++ tail). auto.
  - rewrite Htr, !filter_app, !length_app, Hq2, Hq3.
    now rewrite chat_loop_lockstep.
Qed.

Lemma client_reads_once_per_message_witness :
  let script := [mkExchange (Returns [0x68; 0xE9]%N) (Returns tt) (Returns [x68])] in
  trace (chat false 3 script)
  = [Input (Returns [0x68; 0xE9]%N)] ++ Sendall 3 [x68; xc3; xa9] (Returns tt)
      :: [Print (LSent false 2); Recv 3 4096 (Returns [x68]);
          Print (LReceived false [0x68%N])]
  /\ exists message,
      encode_utf8 message = Some [x68; xc3; xa9]
      /\ length message <= 3 <= 4 * length message.
Proof.
  intros script.
  assert (Htr : trace (chat false 3 script)
                = [Input (Returns [0x68; 0xE9]%N)]
                    ++ Sendall 3 [x68; xc3; xa9] (Returns tt)
                    :: [Print (LSent false 2); Recv 3 4096 (Returns [x68]);
                        Print (LReceived false [0x68%N])]) by reflexivity.
  split; [exact Htr|].
  destruct (proj1 (client_reads_once_per_message false 3 script) _ _ _ _ Htr eq_refl)
    as [message [r [tr3 [_ [Henc [Hlen _]]]]]].
  exists message. split; [exact Henc | exact Hlen].
Defined.

(** X13.  Once connected, either client closes its connection exactly once,
    as the last thing it does, on every way out of the input loop: the
    server closing, the interrupt, or an exception that escapes. *)
Theorem client_closes_connection_once :
  forall tls c script,
    status_of (chat tls c script) <> Blocked ->
    (exists body,
        trace (chat tls c script) = body ++ [Close c]
        /\ filter is_any_close body = [])
    /\ close_count c (trace (chat tls c script)) = 1.
Proof.
  intros tls c script Hexit.
  destruct (chat_shape tls c script) as [tail [Htr Htail]].
  pose proof (chat_loop_no_close tls c script) as Hloop.
  destruct Htail as [[_ [_ Hb]] | [_ Htail]]; [contradiction|].
  assert (Hbody : exists body,
             trace (chat tls c script) = body ++ [Close c]
             /\ filter is_any_close body = []).
  { destruct Htail as [-> | ->].
    - exists (trace (chat_loop tls c script)). auto.
    - exists (trace (chat_loop tls c script) ++ [Print (LClosing tls)]).
      rewrite Htr, <- app_assoc, filter_app, Hloop. auto. }
  split; [exact Hbody|].
  destruct Hbody as [body [-> Hnone]].
  unfold close_count. rewrite filter_app, length_app. simpl.
  rewrite Nat.eqb_refl. simpl.
  assert (Hc : filter (is_close c) body = []).
  { clear - Hnone. induction body as [|ev body IH]; [reflexivity|].
    simpl in *. destruct ev; simpl in *; try (apply IH; assumption).
    discriminate. }
  now rewrite Hc.
Qed.

Lemma client_closes_connection_once_witness :
  let interrupt := mkExc KeyboardInterrupt "" in
  let script := [mkExchange (Returns [0x68%N]) (Raises interrupt) (Returns [])] in
  status_of (chat true 3 script) <> Blocked
  /\ close_count 3 (trace (chat true 3 script)) = 1.
Proof.
  intros interrupt script.
  assert (Hexit : status_of (chat true 3 script) <> Blocked)
    by (vm_compute; discriminate).
  split; [exact Hexit|].
  exact (proj2 (client_closes_connection_once true 3 script Hexit)).
Defined.

Lemma encode_utf8_nonempty message payload :
  message <> [] -> encode_utf8 message = Some payload -> payload <> [].
Proof.
  intros Hm He. destruct (encode_utf8_length message payload He) as [[Hlen _] _].
  destruct message; [congruence|].
  destruct payload; [simpl in Hlen; lia | discriminate].
Qed.

Lemma chat_loop_echoed_whole tls c x script message payload :
  on_input x = Returns message -> message <> [] ->
  encode_utf8 message = Some payload ->
  on_sendall x = Returns tt ->
  on_reply x = Returns payload ->
  chat_loop tls c (x :: script)
  = after [Input (Returns message); Sendall c payload (Returns tt);
           Print (LSent tls (length message)); Recv c 4096 (Returns payload);
           Print (LReceived tls message)]
          (chat_loop tls c script).
Proof.
  intros Hi Hm He Hs Hr.
  pose proof (encode_utf8_nonempty message payload Hm He) as Hp.
  pose proof (chat_loop_reply tls c x script message payload payload Hi Hm He Hs Hr Hp)
    as Hloop.
  cbv zeta in Hloop. rewrite (utf8_round_trip message payload He) in Hloop.
  exact Hloop.
Qed.

(** X14.  A line whose echo comes back whole in one read is printed as it
    was typed: the client encodes the line, and when [recv] returns exactly
    those bytes the strict decoder gives the line back, which is printed
    before the next prompt. *)
Theorem client_prints_the_line_echoed_whole :
  forall tls c x script message payload,
    on_input x = Returns message -> message <> [] ->
    encode_utf8 message = Some payload ->
    on_sendall x = Returns tt ->
    on_reply x = Returns payload ->
    chat_loop tls c (x :: script)
    = after [Input (Returns message); Sendall c payload (Returns tt);
             Print (LSent tls (length message)); Recv c 4096 (Returns payload);
             Print (LReceived tls message)]
            (chat_loop tls c script).
Proof.
  intros tls c x script message payload Hi Hm He Hs Hr.
  pose proof (encode_utf8_nonempty message payload Hm He) as Hp.
  pose proof (chat_loop_reply tls c x script message payload payload Hi Hm He Hs Hr Hp)
    as Hloop.
  cbv zeta in Hloop.
  assert (Hback : decode_utf8 payload = Some message)
    by (now apply utf8_round_trip).
  rewrite Hback in Hloop. exact Hloop.
Qed.

Lemma client_prints_the_line_echoed_whole_witness :
  let message := [0x63; 0x61; 0x66; 0xE9]%N in
  let payload := [x63; x61; x66; xc3; xa9] in
  let x := mkExchange (Returns message) (Returns tt) (Returns payload) in
  chat_loop false 3 [x]
  = after [Input (Returns message); Sendall 3 payload (Returns tt);
           Print (LSent false 4); Recv 3 4096 (Returns payload);
           Print (LReceived false message)]
          (chat_loop false 3 []).
Proof.
  intros message payload x.
  assert (Hm : message <> []) by discriminate.
  exact (client_prints_the_line_echoed_whole
           false 3 x [] message payload eq_refl Hm eq_refl eq_refl eq_refl).
Defined.

(** ** A client and a server together *)

Lemma tcp_orderly_session_chunks c a chunks :
  Forall (fun ch => ch <> []) chunks ->
  sendall_payloads c (trace (TcpServer.handle_client c a (orderly_session chunks)))
  = chunks.
Proof.
  intros H. unfold sendall_payloads.
  rewrite (tcp_handler_io c a (payload_of c)) by reflexivity.
  unfold orderly_session.
  induction H as [|ch chunks Hch _ IH]; simpl; [reflexivity|].
  destruct ch as [|b ch]; [congruence|].
  simpl. rewrite Nat.eqb_refl. simpl. now rewrite IH.
Qed.

Lemma tls_orderly_session_chunks c a chunks :
  Forall (fun ch => ch <> []) chunks ->
  sendall_payloads c (trace (TlsServer.handle_client c a (orderly_session chunks)))
  = chunks.
Proof.
  intros H. unfold sendall_payloads.
  rewrite (tls_handler_io c a (payload_of c)) by reflexivity.
  unfold orderly_session.
  induction H as [|ch chunks Hch _ IH]; simpl; [reflexivity|].
  destruct ch as [|b ch]; [congruence|].
  simpl. rewrite Nat.eqb_refl. simpl. now rewrite IH.
Qed.

(** What the client sends and prints in a conversation whose replies are the
    encodings of the lines. *)
Lemma conversation_echoed tls c : forall lines payloads,
  Forall (fun m => m <> []) lines ->
  map encode_utf8 lines = map Some payloads ->
  sendall_payloads c (trace (chat_loop tls c (conversation lines payloads))) = payloads
  /\ printed_texts (trace (chat_loop tls c (conversation lines payloads))) = lines
  /\ status_of (chat_loop tls c (conversation lines payloads)) = Blocked
  /\ Forall (fun p => p <> []) payloads.
Proof.
  unfold sendall_payloads, printed_texts, conversation.
  induction lines as [|m lines IH]; intros payloads Hne Henc.
  - destruct payloads; [|discriminate]. simpl. auto.
  - destruct payloads as [|p payloads]; [discriminate|].
    injection Henc as Hm Henc. inversion Hne as [|? ? Hm0 Hne']; subst.
    destruct (IH payloads Hne' Henc) as [IH1 [IH2 [IH3 IH4]]].
    pose proof (encode_utf8_nonempty m p Hm0 Hm) as Hp.
    cbn [combine map fst snd].
    rewrite (chat_loop_echoed_whole tls c
               (mkExchange (Returns m) (Returns tt) (Returns p)) _ m p
               eq_refl Hm0 Hm eq_refl eq_refl).
    simpl. rewrite Nat.eqb_refl. simpl.
    rewrite IH1, IH2. auto.
Qed.

Lemma chat_while_waiting tls c script :
  status_of (chat_loop tls c script) = Blocked ->
  chat tls c script = chat_loop tls c script.
Proof.
  intros H. unfold chat, try_finally, try_except.
  destruct (chat_loop tls c script) as [tr st]. simpl in *. now subst st.
Qed.

(** X15.  Client and server together, over a transport that carries each
    write whole: the user types non-empty lines; the client sends their
    UTF-8 encodings; a session handler of either server that reads those
    writes one by one writes back exactly the bytes the client then
    receives; and the client prints the lines as they were typed, in
    order. *)
Theorem conversation_is_echoed_line_by_line :
  forall tls c s a lines payloads,
    Forall (fun m => m <> []) lines ->
    map encode_utf8 lines = map Some payloads ->
    let client := chat tls c (conversation lines payloads) in
    let sent := sendall_payloads c (trace client) in
    sent = payloads
    /\ sendall_payloads s (trace (TcpServer.handle_client s a (orderly_session sent)))
       = payloads
    /\ sendall_payloads s (trace (TlsServer.handle_client s a (orderly_session sent)))
       = payloads
    /\ printed_texts (trace client) = lines.
Proof.
  intros tls c s a lines payloads Hne Henc client sent.
  destruct (conversation_echoed tls c lines payloads Hne Henc) as [H1 [H2 [H3 H4]]].
  assert (Hsent : sent = payloads)
    by (subst sent client; now rewrite (chat_while_waiting _ _ _ H3)).
  split; [exact Hsent|]. rewrite Hsent.
  split; [now apply tcp_orderly_session_chunks|].
  split; [now apply tls_orderly_session_chunks|].
  subst client. now rewrite (chat_while_waiting _ _ _ H3).
Qed.

Lemma conversation_is_echoed_line_by_line_witness :
  let a := mkAddress "127.0.0.1" 52431 in
  let lines := [[0x68; 0x69]; [0x63; 0x61; 0x66; 0xE9]]%N in
  let payloads := [[x68; x69]; [x63; x61; x66; xc3; xa9]] in
  Forall (fun m : text => m <> []) lines
  /\ map encode_utf8 lines = map Some payloads
  /\ printed_texts (trace (chat false 3 (conversation lines payloads))) = lines.
Proof.
  intros a lines payloads.
  assert (Hne : Forall (fun m : text => m <> []) lines)
    by (repeat constructor; discriminate).
  assert (Henc : map encode_utf8 lines = map Some payloads) by reflexivity.
  split; [exact Hne|]. split; [exact Henc|].
  exact (proj2 (proj2 (proj2 (conversation_is_echoed_line_by_line
                                false 3 4 a lines payloads Hne Henc)))).
Defined.
